(** * Snapshot synchronisation scripts of competidex-data

    A shallow embedding of the three Node.js scripts

      - scripts/update_ability_map.js
      - scripts/update_pokemon_map.js
      - scripts/update_moves_es_map.js

    and the properties of their incremental "snapshot + manifest pointer"
    synchronisation.  The three scripts share most of their text; the
    embedding has one definition per shared function and one [main],
    indexed by the script, that branches where the scripts differ (the
    loading of the previous state, the count check, the extractor, the
    failure counter and [safeUnlink]).

    Modelling conventions.

    - JavaScript values reachable from [JSON.parse] are the inductive type
      [value]; [VUndef] is the result of reading an absent property.
      Finite numbers are rationals; [JSON.parse] can also produce the two
      infinities (from a literal such as 1e999), and [Number] can produce NaN.
    - Objects are association lists of own properties in the order of
      [Object.keys] (array indices first, ascending, then the other keys in
      order of creation), read by first match; [JSON.parse] builds them in
      that order.  A string is the sequence of its code units.  The
      prototype chain is modelled as far as the scripts reach it: an
      assignment to the key "__proto__" of an object without such a
      property of its own changes the prototype and creates no property.
      A manifest or snapshot file may hold any JSON document: [safeObj]
      keeps arrays, and the working map of a run may be an array or (moves
      script) a truthy primitive.  A [results] or [names] field holding an
      object with a [length] of its own is outside the model ([js_items]
      maps it to no element), and so is a document too large to print.
    - The file system is a finite map from paths to files; a file holds a
      JSON document or text that [JSON.parse] rejects.  [writeFileSync]
      and [unlinkSync] on it do not fail.  [path.join] is concatenation
      with a separator: the working directory and the file name taken from
      the manifest are normalised segments (no "." or "..").
    - The network is an oracle: the answer of the probe request, of the full
      listing request, and of the detail request issued for the task with a
      given index ([None] is any failure of [getJson]: a non-2xx status or a
      body that is not JSON).
    - The interleaving of the pool's workers is an oracle too: at every turn
      of the event loop it names the request in flight that settles next.
    - A run returns its outcome together with the file system it leaves and
      the log of its requests, writes and unlinks, in order. *)

From Stdlib Require Import QArith Qround.
From Stdlib Require Import Ascii.
From stdpp Require Import gmap strings list fin_maps pretty.

Set Warnings "-register-all".
Open Scope string_scope.
Open Scope list_scope.

(** ** JavaScript values *)

Inductive number : Type :=
  | NFin (q : Q)
  | NNaN
  | NPosInf
  | NNegInf.

Inductive value : Type :=
  | VUndef
  | VNull
  | VBool (b : bool)
  | VNum (n : number)
  | VStr (s : string)
  | VArr (xs : list value)
  | VObj (kvs : list (string * value)).

(** An object literal, an insertion-ordered list of own properties. *)
Abbreviation object := (list (string * value)).

(** [ToBoolean]. *)
Definition truthy (v : value) : bool :=
  match v with
  | VUndef | VNull => false
  | VBool b => b
  | VNum (NFin q) => negb (Qeq_bool q 0)
  | VNum NNaN => false
  | VNum _ => true
  | VStr s => negb (String.eqb s "")
  | VArr _ | VObj _ => true
  end.

(** [typeof v === "number"]. *)
Definition is_number (v : value) : bool :=
  match v with VNum _ => true | _ => false end.

(** [v !== null]. *)
Definition not_null (v : value) : bool :=
  match v with VNull => false | _ => true end.

(** [isFinite(v)], applied in the scripts to numbers only. *)
Definition isFinite (v : value) : bool :=
  match v with VNum (NFin _) => true | _ => false end.

(** [Array.isArray(v)]. *)
Definition isArray (v : value) : bool :=
  match v with VArr _ => true | _ => false end.

(** Own-property lookup in an object literal. *)
Fixpoint obj_get (kvs : object) (k : string) : option value :=
  match kvs with
  | [] => None
  | (k', v) :: rest => if String.eqb k' k then Some v else obj_get rest k
  end.

(** [c] is a decimal digit. *)
Definition is_digit (c : ascii) : bool :=
  (48 <=? N_of_ascii c)%N && (N_of_ascii c <=? 57)%N.

(** [s] consists of decimal digits. *)
Fixpoint digits_only (s : string) : bool :=
  match s with
  | EmptyString => true
  | String c rest => is_digit c && digits_only rest
  end.

(** The integer a string of decimal digits denotes, after [acc]. *)
Fixpoint numeral (acc : N) (s : string) : N :=
  match s with
  | EmptyString => acc
  | String c rest => numeral (10 * acc + (N_of_ascii c - 48)) rest
  end.

(** An array index: the decimal numeral, without leading zero, of an
    integer from 0 to 2^32 - 2. *)
Definition array_index (k : string) : option N :=
  match k with
  | EmptyString => None
  | String c rest =>
      if digits_only k && (negb (Ascii.eqb c "0") || String.eqb rest "")
         && (numeral 0 k <? 4294967295)%N
      then Some (numeral 0 k) else None
  end.

(** The place a new own property takes in the order of [Object.keys]: the
    array indices come first, ascending, then the other keys in order of
    creation. *)
Fixpoint obj_insert (kvs : object) (k : string) (v : value) : object :=
  match kvs with
  | [] => [(k, v)]
  | (k', v') :: rest =>
      match array_index k with
      | Some i =>
          match array_index k' with
          | Some i' =>
              if (i <? i')%N then (k, v) :: kvs
              else (k', v') :: obj_insert rest k v
          | None => (k, v) :: kvs
          end
      | None => (k', v') :: obj_insert rest k v
      end
  end.

(** The value of an own property is replaced where it is. *)
Fixpoint obj_replace (kvs : object) (k : string) (v : value) : object :=
  match kvs with
  | [] => []
  | (k', v') :: rest =>
      if String.eqb k' k then (k', v) :: rest
      else (k', v') :: obj_replace rest k v
  end.

(** [o[k] = v] on an object built by [JSON.parse] or by a literal: an own
    property is overwritten; otherwise the key "__proto__" reaches the
    setter of [Object.prototype], which changes the prototype and creates
    no property, and any other key becomes a new own property. *)
Definition obj_set (kvs : object) (k : string) (v : value) : object :=
  match obj_get kvs k with
  | Some _ => obj_replace kvs k v
  | None => if String.eqb k "__proto__" then kvs else obj_insert kvs k v
  end.

(** [Object.keys(o)]. *)
Definition obj_keys (kvs : object) : list string := map fst kvs.

(** [v.k] for the data properties the scripts read ([count], [results],
    [name], [names], [language], [id], [generation], [type], [types],
    [damage_class], [ability_url], ...).  None of them exists on a string, a
    number, a boolean or an array; on [null] and [undefined] the access would
    throw, and every access in the scripts is guarded by a truthiness test. *)
Definition get (v : value) (k : string) : value :=
  match v with
  | VObj kvs => default VUndef (obj_get kvs k)
  | _ => VUndef
  end.

(** The elements visited by [for (i = 0; i < v.length; i++) v[i]] when
    the loop body only reads data properties of [v[i]].  A string's elements
    are one-character strings, on which those reads give [undefined] exactly
    as on no element at all; numbers and booleans have no [length].  (An
    object document carrying its own numeric [length] is outside the model.) *)
Definition js_items (v : value) : list value :=
  match v with
  | VArr xs => xs
  | _ => []
  end.

(** The keys ["0"], ..., [n - 1] of an array or of a string of length [n]. *)
Definition indices (n : nat) : list string :=
  map (fun i => pretty (N.of_nat i)) (seq 0 n).

(** [Object.keys(v)] for a document read from a file, [null] apart. *)
Definition Object_keys (v : value) : list string :=
  match v with
  | VObj kvs => obj_keys kvs
  | VArr xs => indices (length xs)
  | VStr s => indices (String.length s)
  | _ => []
  end.

(** [a[i] = v] on an array: the elements between the old length and [i]
    are holes, which read as [undefined]. *)
Definition arr_set (xs : list value) (i : nat) (v : value) : list value :=
  if Nat.ltb i (length xs) then <[i := v]> xs
  else xs ++ replicate (i - length xs) VUndef ++ [v].

(** [m[k] = v] in strict mode, for a record [v]; [None] when it throws.  On
    an array the key [length] is refused (a record is no length), an array
    index sets an element, and any other key creates a named property or
    changes the prototype, neither of which [JSON.stringify] prints.  On a
    primitive every key throws but "__proto__", whose setter does nothing
    there. *)
Definition assign (m : value) (k : string) (v : value) : option value :=
  match m with
  | VObj kvs => Some (VObj (obj_set kvs k v))
  | VArr xs =>
      if String.eqb k "length" then None
      else match array_index k with
           | Some i => Some (VArr (arr_set xs (N.to_nat i) v))
           | None => Some m
           end
  | VUndef | VNull => None
  | _ => if String.eqb k "__proto__" then Some m else None
  end.

(** The own properties of an object; none for any other value. *)
Definition props_of (v : value) : object :=
  match v with VObj kvs => kvs | _ => [] end.

Section Host.

(** [Number.prototype.toString] and [StringToNumber] are left to the host. *)
Variable Number_toString : number -> string.
Variable StringToNumber : string -> number.

(** [String(v)]. *)
Fixpoint js_String (v : value) : string :=
  match v with
  | VUndef => "undefined"
  | VNull => "null"
  | VBool true => "true"
  | VBool false => "false"
  | VNum n => Number_toString n
  | VStr s => s
  | VArr xs =>
      (fix joined (l : list value) : string :=
         match l with
         | [] => ""
         | x :: rest =>
             match x with
             | VUndef | VNull => ""
             | _ => js_String x
             end +:+
             match rest with
             | [] => ""
             | _ => "," +:+ joined rest
             end
         end) xs
  | VObj _ => "[object Object]"
  end.

(** [a || b] on values. *)
Definition js_or (a b : value) : value := if truthy a then a else b.

(** [v === s] for a string literal [s]. *)
Definition is_str (v : value) (s : string) : bool :=
  match v with VStr s' => String.eqb s' s | _ => false end.

(** [v <= n] for a finite number [v] and a collection size [n]. *)
Definition js_le (v : value) (n : nat) : bool :=
  match v with
  | VNum (NFin q) => Qle_bool q (inject_Z (Z.of_nat n))
  | _ => false
  end.

(** [safeObj(x)] (ability 83-86, pokemon 82-85): [x] itself when it is
    truthy and [typeof x] is "object", which holds of objects and of arrays,
    else a new [{}]. *)
Definition safeObj (x : value) : value :=
  match x with VObj _ | VArr _ => x | _ => VObj [] end.

(** [JSON.parse(JSON.stringify(v))]: non-finite numbers are printed as
    [null], properties holding [undefined] are dropped, [undefined] array
    elements become [null]. *)
Fixpoint json_roundtrip (v : value) : value :=
  match v with
  | VNum (NFin q) => VNum (NFin q)
  | VNum _ => VNull
  | VArr xs =>
      VArr (map (fun x => match x with
                          | VUndef => VNull
                          | _ => json_roundtrip x
                          end) xs)
  | VObj kvs =>
      VObj ((fix props (l : object) : object :=
               match l with
               | [] => []
               | (k, VUndef) :: rest => props rest
               | (k, x) :: rest => (k, json_roundtrip x) :: props rest
               end) kvs)
  | _ => v
  end.

Arguments json_roundtrip : simpl never.

(** ** The file system and the log of effects *)

Inductive event : Type :=
  | EvGet (url : string)
  | EvWrite (path : string) (doc : value)
  | EvUnlink (path : string).

(** A file: the document its text parses to, or text that [JSON.parse]
    rejects, on which [readJSON] throws. *)
Inductive file : Type :=
  | Json (doc : value)
  | NotJson.

Record world : Type := World {
  w_fs : gmap string file;
  w_log : list event
}.

Definition emit (ev : event) (w : world) : world :=
  World (w_fs w) (w_log w ++ [ev]).

(** [path.join(a, b)]. *)
Definition join (a b : string) : string := a +:+ "/" +:+ b.

Definition existsSync (p : string) (w : world) : bool :=
  bool_decide (is_Some (w_fs w !! p)).

(** [readJSON(p)]: [None] when it throws, on a path without file or on
    a file that is not JSON. *)
Definition readJSON (p : string) (w : world) : option value :=
  match w_fs w !! p with
  | Some (Json doc) => Some doc
  | _ => None
  end.

Definition writeJSON (p : string) (obj : value) (w : world) : world :=
  World (<[p := Json (json_roundtrip obj)]> (w_fs w))
        (w_log w ++ [EvWrite p obj]).

Definition unlinkSync (p : string) (w : world) : world :=
  World (delete p (w_fs w)) (w_log w ++ [EvUnlink p]).

(** A path variable holding a string or [null]; truthy when non-empty. *)
Definition path_truthy (p : option string) : bool :=
  match p with Some s => negb (String.eqb s "") | None => false end.

(** [safeUnlink] of the ability (71-81) and pokemon (71-80) scripts. *)
Definition safeUnlink (filePath : option string) (w : world) : world :=
  match filePath with
  | Some p =>
      if path_truthy filePath && existsSync p w then unlinkSync p w else w
  | None => w
  end.

(** [safeUnlink] of the moves script (79-89): no truthiness test on the
    path. *)
Definition safeUnlink_moves (filePath : option string) (w : world) : world :=
  match filePath with
  | Some p => if existsSync p w then unlinkSync p w else w
  | None => w
  end.

(** [getJson(url)] against the answer the network gives to this request:
    the parsed body, or [None] when it throws. *)
Definition getJson (url : string) (answer : option value) (w : world)
  : option value * world :=
  (answer, emit (EvGet url) w).

(** The effect of one logged event on the file system. *)
Definition apply_event (fs : gmap string file) (ev : event)
  : gmap string file :=
  match ev with
  | EvGet _ => fs
  | EvWrite p doc => <[p := Json (json_roundtrip doc)]> fs
  | EvUnlink p => delete p fs
  end.

Definition replay (evs : list event) (fs : gmap string file)
  : gmap string file :=
  foldl apply_event fs evs.

(** ** Helpers shared by the three scripts *)

Record utc_date : Type := UtcDate {
  getUTCFullYear : N;
  getUTCMonth : N;
  getUTCDate : N
}.

(** [s.padStart(2, "0")]. *)
Definition padStart2 (s : string) : string :=
  match String.length s with
  | 0 => "00"
  | 1 => "0" +:+ s
  | _ => s
  end.

(** [todayISO()], from the UTC date of the clock; [getUTCMonth] counts
    from 0. *)
Definition todayISO (d : utc_date) : string :=
  let yyyy := pretty (getUTCFullYear d) in
  let mm := padStart2 (pretty (getUTCMonth d + 1)%N) in
  let dd := padStart2 (pretty (getUTCDate d)) in
  yyyy +:+ "-" +:+ mm +:+ "-" +:+ dd.

(** [getCountFromListResponse] (ability 41-45, pokemon 41-45, moves
    38-43). *)
Definition getCountFromListResponse (listJson : value) : value :=
  let c :=
    if truthy listJson && is_number (get listJson "count")
    then get listJson "count" else VNull in
  if not_null c && isFinite c then c else VNull.

(** [s.split("/")]. *)
Fixpoint split_slash (s : string) : list string :=
  match s with
  | EmptyString => [""]
  | String c rest =>
      if Ascii.eqb c "/"%char then "" :: split_slash rest
      else match split_slash rest with
           | seg :: segs => String c seg :: segs
           | [] => [String c ""]
           end
  end.

(** [url.split("/").filter(Boolean).pop()]; [None] is [undefined]. *)
Definition last_segment (url : string) : option string :=
  last (filter (fun seg => seg <> "") (split_slash url)).

(** ** The bounded pool, [withPool] (ability 54-69, pokemon 54-69, moves 64-77) *)

(** [Math.min(poolSize, items.length)]. *)
Definition Math_min (poolSize : number) (len : nat) : number :=
  match poolSize with
  | NNaN => NNaN
  | NNegInf => NNegInf
  | NPosInf => NFin (inject_Z (Z.of_nat len))
  | NFin q =>
      if Qle_bool q (inject_Z (Z.of_nat len)) then NFin q
      else NFin (inject_Z (Z.of_nat len))
  end.

(** [ToLength(n)], the number of elements [Array.from({ length: n }, f)]
    builds: NaN and everything below 1 give no element, a fraction is
    truncated. *)
Definition ToLength (n : number) : N :=
  match n with
  | NFin q => N.min (Z.to_N (Qfloor q)) (2 ^ 53 - 1)
  | NPosInf => 2 ^ 53 - 1
  | NNaN | NNegInf => 0
  end.

(** [poolSize >= 1]: the sizes for which [Array.from] builds a worker. *)
Definition at_least_one (poolSize : number) : bool :=
  match poolSize with
  | NFin q => Qle_bool 1 q
  | NPosInf => true
  | NNaN | NNegInf => false
  end.

Section Pool.

Context {T St : Type}.

(** The items, and [workerFn] cut at its only suspension point: [start] is
    what it does up to the request it awaits, [finish] what it does once the
    request has settled (including its [catch] branch). *)
Variable items : list T.
Variable start : T -> nat -> St -> St.
Variable finish : T -> nat -> St -> St.

(** Which of the requests in flight settles at a given turn. *)
Variable sched : nat -> nat.

(** [pool_p] is the shared cursor [p]; [flight] the suspended workers, each
    with the index of the item it awaits; [started] and [settled] record the
    order in which items were taken and completed; [pool_st] is the state
    the worker function closes over. *)
Record pool : Type := Pool {
  pool_p : nat;
  flight : list (nat * nat);
  started : list nat;
  settled : list nat;
  pool_st : St
}.

(** One evaluation of the loop head by worker [w]:
    [while (p < items.length) { const idx = p++; await workerFn(items[idx], idx); }]
    Either the worker takes the next item and suspends on it, or it returns. *)
Definition take (w : nat) (ps : pool) : pool :=
  match items !! pool_p ps with
  | Some it =>
      let idx := pool_p ps in
      Pool (S idx) (flight ps ++ [(w, idx)]) (started ps ++ [idx])
           (settled ps) (start it idx (pool_st ps))
  | None => ps
  end.

(** The [k]-th request in flight settles: its [workerFn] runs to the end and
    the worker that awaited it evaluates the loop head again. *)
Definition settle (k : nat) (ps : pool) : pool :=
  match flight ps !! k with
  | Some (w, idx) =>
      match items !! idx with
      | Some it =>
          take w (Pool (pool_p ps) (delete k (flight ps)) (started ps)
                       (settled ps ++ [idx]) (finish it idx (pool_st ps)))
      | None => ps
      end
  | None => ps
  end.

(** The event loop: as long as a request is in flight, one of them settles. *)
Fixpoint turns (fuel turn : nat) (ps : pool) : pool :=
  match fuel with
  | 0 => ps
  | S fuel' =>
      match flight ps with
      | [] => ps
      | _ :: _ =>
          turns fuel' (S turn) (settle (sched turn mod length (flight ps)) ps)
      end
  end.

(** [Array.from({ length: n }, worker)]: the workers are called one after
    the other, each running up to its first [await]. *)
Definition spawn (n : nat) (s0 : St) : pool :=
  foldl (fun ps w => take w ps) (Pool 0 [] [] [] s0) (seq 0 n).

Definition pool_width (poolSize : number) : nat :=
  N.to_nat (ToLength (Math_min poolSize (length items))).

(** The pool after [fuel] turns of the event loop. *)
Definition pool_after (fuel : nat) (poolSize : number) (s0 : St) : pool :=
  turns fuel 0 (spawn (pool_width poolSize) s0).

(** [await withPool(items, poolSize, workerFn)]: every turn settles one
    request and at most one request per item is issued, so [length items]
    turns are enough for [Promise.all] to resolve. *)
Definition withPool (poolSize : number) (s0 : St) : pool :=
  pool_after (length items) poolSize s0.

(** What holds of every pool state a run goes through: the items taken are
    the first [pool_p] ones, and each of them is in flight or completed. *)
Record pool_inv (ps : pool) : Prop := PoolInv {
  inv_started : started ps = seq 0 (pool_p ps);
  inv_bound : pool_p ps <= length items;
  inv_perm : (flight ps).*2 ++ settled ps ≡ₚ started ps
}.

(** Items still to take, plus requests in flight: the turns left. *)
Definition pending (ps : pool) : nat :=
  (length items - pool_p ps) + length (flight ps).

End Pool.

(** *** A worker function whose promise may be rejected *)

Section PoolRejecting.

Context {T St : Type}.
Variable items : list T.
Variable start : T -> nat -> St -> St.

(** What [workerFn] does once its request has settled, and whether its
    promise is then fulfilled ([true]) or rejected ([false]). *)
Variable finish : T -> nat -> St -> St * bool.

Variable sched : nat -> nat.

(** A pool, and the items whose call was rejected, in the order of the
    rejections. *)
Definition rpool : Type := pool (St := St) * list nat.

(** The [k]-th request in flight settles and its [workerFn] runs to the
    end.  When the promise is fulfilled the worker evaluates the loop head
    again.  When it is rejected, [await] throws inside [worker], which has no
    handler: that worker is gone and takes no further item.  (The promise of
    [Promise.all] is rejected then; the other workers are not told.) *)
Definition settle_r (k : nat) (ps : rpool) : rpool :=
  match flight ps.1 !! k with
  | Some (w, idx) =>
      match items !! idx with
      | Some it =>
          let done := finish it idx (pool_st ps.1) in
          let ps' := Pool (pool_p ps.1) (delete k (flight ps.1))
                          (started ps.1) (settled ps.1 ++ [idx]) done.1 in
          if done.2 then (take items start w ps', ps.2)
          else (ps', ps.2 ++ [idx])
      | None => ps
      end
  | None => ps
  end.

Fixpoint turns_r (fuel turn : nat) (ps : rpool) : rpool :=
  match fuel with
  | 0 => ps
  | S fuel' =>
      match flight ps.1 with
      | [] => ps
      | _ :: _ =>
          turns_r fuel' (S turn)
                  (settle_r (sched turn mod length (flight ps.1)) ps)
      end
  end.

Definition pool_after_r (fuel : nat) (poolSize : number) (s0 : St) : rpool :=
  turns_r fuel 0 (spawn items start (pool_width items poolSize) s0, []).

(** The pool run until no request is in flight. *)
Definition withPool_r (poolSize : number) (s0 : St) : rpool :=
  pool_after_r (length items) poolSize s0.

(** What holds of every state of a pool of [n] workers: each worker awaits
    a request or is gone, and as long as an item is left it is gone only by
    a rejection; the items recorded as rejected were completed by a call
    that rejected. *)
Record rpool_inv (n : nat) (ps : rpool) : Prop := RPoolInv {
  rinv_pool : pool_inv items ps.1;
  rinv_slots : length (flight ps.1) + length ps.2 <= n;
  rinv_live :
    pool_p ps.1 < length items -> length (flight ps.1) + length ps.2 = n;
  rinv_rej :
    forall idx, idx ∈ ps.2 ->
      idx ∈ settled ps.1
      /\ exists it st, items !! idx = Some it /\ (finish it idx st).2 = false
}.

End PoolRejecting.

(** ** The three scripts *)

Inductive script : Type := Ability | Pokemon | Moves.

Definition API : string := "https://pokeapi.co/api/v2".

Definition dir_name (s : script) : string :=
  match s with
  | Ability => "abilities"
  | Pokemon => "pokemon"
  | Moves => "moves"
  end.

Definition url_field (s : script) : string :=
  match s with
  | Ability => "ability_url"
  | Pokemon => "pokemon_url"
  | Moves => "moves_url"
  end.

Definition map_prefix (s : script) : string :=
  match s with
  | Ability => "ability_map."
  | Pokemon => "pokemon_map."
  | Moves => "move_es_map."
  end.

Definition endpoint (s : script) : string :=
  match s with
  | Ability => "/ability"
  | Pokemon => "/pokemon"
  | Moves => "/move"
  end.

Definition full_limit (s : script) : string :=
  match s with
  | Ability | Pokemon => "100000"
  | Moves => "10000"
  end.

Definition probe_url (s : script) : string :=
  API +:+ endpoint s +:+ "?limit=1".

Definition listing_url (s : script) : string :=
  API +:+ endpoint s +:+ "?limit=" +:+ full_limit s.

Definition detail_url (s : script) (name : value) : string :=
  API +:+ endpoint s +:+ "/" +:+ js_String name.

(** *** Extractors *)

(** The loop
    [for (i ...) { n = names[i]; if (n && n.language && n.language.name === lang && n.name) return n.name; }]
    [None] when the loop falls through. *)
Fixpoint first_named (lang : string) (names : list value) : option value :=
  match names with
  | [] => None
  | n :: rest =>
      if truthy n && truthy (get n "language")
         && is_str (get (get n "language") "name") lang
         && truthy (get n "name")
      then Some (get n "name")
      else first_named lang rest
  end.

(** [pickNameEsOrEn] (ability 88-107). *)
Definition pickNameEsOrEn (json : value) : string :=
  let names :=
    if truthy json && isArray (get json "names")
    then js_items (get json "names") else [] in
  match first_named "es" names with
  | Some nm => js_String nm
  | None =>
      match first_named "en" names with
      | Some nm => js_String nm
      | None =>
          if truthy json && truthy (get json "name")
          then js_String (get json "name") else ""
      end
  end.

(** [pickSpanishName] (moves 52-62); the array is not tested with
    [Array.isArray] there. *)
Definition pickSpanishName (mvJson : value) : value :=
  let arr :=
    if truthy mvJson && truthy (get mvJson "names")
    then get mvJson "names" else VArr [] in
  match first_named "es" (js_items arr) with
  | Some nm => nm
  | None => VNull
  end.

(** The record a worker builds from the detail document of [name]
    (ability 203-212, pokemon 179-186, moves 164-169); [None] when building
    it throws (the pokemon script calls [.map] on [p.types], a [TypeError]
    unless it is an array). *)
Definition extract (s : script) (name doc : value) : option value :=
  match s with
  | Ability =>
      let a := doc in
      let gen :=
        if truthy a && truthy (get a "generation")
           && truthy (get (get a "generation") "name")
        then VStr (js_String (get (get a "generation") "name")) else VNull in
      let id := if truthy a && truthy (get a "id") then get a "id" else VNull in
      let display := js_or (VStr (pickNameEsOrEn a)) name in
      Some (VObj [("id", id); ("gen", gen); ("display", display)])
  | Pokemon =>
      let p := doc in
      match (if truthy p && truthy (get p "types")
             then get p "types" else VArr []) with
      | VArr ts =>
          let types :=
            filter (fun t => truthy t = true)
              (map (fun t => if truthy t && truthy (get t "type")
                             then get (get t "type") "name" else VNull) ts) in
          Some (VObj [("id", if truthy p && truthy (get p "id")
                             then get p "id" else VNull);
                      ("types", VArr types)])
      | _ => None
      end
  | Moves =>
      let mv := doc in
      Some (VObj [("display", js_or (pickSpanishName mv) VNull);
                  ("type", if truthy mv && truthy (get mv "type")
                           then get (get mv "type") "name" else VNull);
                  ("damage_class",
                   if truthy mv && truthy (get mv "damage_class")
                   then get (get mv "damage_class") "name" else VNull)])
  end.

(** *** The environment of a run *)

Record env : Type := Env {
  cwd : string;                       (* process.cwd() *)
  files : gmap string file;           (* the file system at start *)
  probe : option value;               (* answer to GET ...?limit=1 *)
  listing : option value;             (* answer to the full listing *)
  detail : nat -> option value;       (* answer to the detail request of task idx *)
  order : nat -> nat;                 (* which request settles at each turn *)
  pool_var : option string;           (* process.env.<RESOURCE>_POOL *)
  clock : utc_date                    (* new Date() *)
}.

(** *** The worker function *)

(** The variables the worker closes over: the working map ([map], [esMap]),
    the counters, and the world.  The moves script has no [failed] counter;
    the field then stays 0. *)
Record run_state : Type := RunState {
  rs_map : value;
  rs_added : nat;
  rs_failed : nat;
  rs_world : world
}.

(** Up to [await getJson(...)]: the request is issued. *)
Definition worker_start (s : script) (name : value) (idx : nat)
    (rs : run_state) : run_state :=
  RunState (rs_map rs) (rs_added rs) (rs_failed rs)
           (emit (EvGet (detail_url s name)) (rs_world rs)).

(** The [catch] branch. *)
Definition worker_catch (s : script) (rs : run_state) : run_state :=
  match s with
  | Moves => rs
  | _ => RunState (rs_map rs) (rs_added rs) (S (rs_failed rs)) (rs_world rs)
  end.

(** After the request settled: [map[name] = {...}; added++], or the [catch]
    branch when the request, the extraction or the assignment threw. *)
Definition worker_finish (s : script) (e : env) (name : value) (idx : nat)
    (rs : run_state) : run_state :=
  match detail e idx with
  | Some doc =>
      match extract s name doc with
      | Some rec =>
          match assign (rs_map rs) (js_String name) rec with
          | Some map =>
              RunState map (S (rs_added rs)) (rs_failed rs) (rs_world rs)
          | None => worker_catch s rs
          end
      | None => worker_catch s rs
      end
  | None => worker_catch s rs
  end.

(** *** Loading the previous state *)

Inductive fatal : Type :=
  | NoManifest                     (* "No existe public/<dir>/manifest.json" *)
  | NoMovesUrl                     (* "manifest.json no tiene moves_url" *)
  | NoFileName                     (* "No pude deducir el nombre del JSON actual..." *)
  | NoCurrentFile (path : string)  (* "No existe el archivo actual: ..." *)
  | BadJson (path : string)        (* thrown by JSON.parse in readJSON *)
  | HttpError (url : string).      (* thrown by getJson *)

Record loaded : Type := Loaded {
  manifest : value;
  oldFileName : option string;
  oldMapPath : option string;
  prior : value;                   (* [map] / [esMap] as loaded *)
  knownKeys : gset string
}.

Definition base_dir (s : script) (e : env) : string :=
  join (join (cwd e) "public") (dir_name s).

Definition manifestPath (s : script) (e : env) : string :=
  join (base_dir s e) "manifest.json".

(** [(m && m.x_url) ? String(m.x_url) : null]; an array has no such
    property. *)
Definition url_of (s : script) (m : value) : option string :=
  if truthy m && truthy (get m (url_field s))
  then Some (js_String (get m (url_field s))) else None.

(** Ability (121-153) and pokemon (99-130) scripts: the manifest through
    [safeObj], then the BOOTSTRAP block. *)
Definition load_bootstrap (s : script) (e : env) (mdoc : value) (w : world)
  : fatal + loaded :=
  let manifest := safeObj mdoc in
  match url_of s manifest with
  | Some urlPath =>
      if path_truthy (Some urlPath) then
        let oldFileName := last_segment urlPath in
        let oldMapPath :=
          match oldFileName with
          | Some f =>
              if path_truthy oldFileName then Some (join (base_dir s e) f)
              else None
          | None => None
          end in
        match oldMapPath with
        | Some path =>
            if path_truthy oldFileName && path_truthy oldMapPath
               && existsSync path w
            then
              match readJSON path w with
              | Some doc =>
                  let map := safeObj doc in
                  inr (Loaded manifest oldFileName oldMapPath map
                              (list_to_set (Object_keys map)))
              | None => inl (BadJson path)
              end
            else inr (Loaded manifest oldFileName oldMapPath (VObj []) ∅)
        | None => inr (Loaded manifest oldFileName oldMapPath (VObj []) ∅)
        end
      else inr (Loaded manifest None None (VObj []) ∅)
  | None => inr (Loaded manifest None None (VObj []) ∅)
  end.

(** Moves script (99-112): every missing piece of previous state is fatal,
    and neither the manifest nor the snapshot goes through [safeObj]: the
    working map is whatever truthy document the file holds. *)
Definition load_moves (e : env) (mdoc : value) (w : world)
  : fatal + loaded :=
  let manifest := mdoc in
  match url_of Moves manifest with
  | Some movesUrlPath =>
      if negb (path_truthy (Some movesUrlPath)) then inl NoMovesUrl
      else
        match last_segment movesUrlPath with
        | Some f =>
            if negb (path_truthy (Some f)) then inl NoFileName
            else
              let oldMapPath := join (base_dir Moves e) f in
              if negb (existsSync oldMapPath w)
              then inl (NoCurrentFile oldMapPath)
              else
                match readJSON oldMapPath w with
                | Some doc =>
                    let esMap := js_or doc (VObj []) in
                    inr (Loaded manifest (Some f) (Some oldMapPath)
                                esMap (list_to_set (Object_keys esMap)))
                | None => inl (BadJson oldMapPath)
                end
        | None => inl NoFileName
        end
  | None => inl NoMovesUrl
  end.

Definition start_world (e : env) : world := World (files e) [].

(** Everything [main] does before the first request. *)
Definition load (s : script) (e : env) : fatal + loaded :=
  let w := start_world e in
  if negb (existsSync (manifestPath s e) w) then inl NoManifest
  else
    match readJSON (manifestPath s e) w with
    | Some mdoc =>
        match s with
        | Moves => load_moves e mdoc w
        | _ => load_bootstrap s e mdoc w
        end
    | None => inl (BadJson (manifestPath s e))
    end.

(** *** Probe, listing and diff *)

(** The condition of the early [return] after the count request (ability
    162-163, pokemon 140-141, moves 125). *)
Definition count_not_grown (s : script) (apiCount : value) (localCount : nat)
  : bool :=
  match s with
  | Moves => not_null apiCount && js_le apiCount localCount
  | _ =>
      let isBootstrap := Nat.eqb localCount 0 in
      negb isBootstrap && not_null apiCount && js_le apiCount localCount
  end.

(** [knownKeys.has(name)]: the set holds strings only. *)
Definition has (knownKeys : gset string) (name : value) : bool :=
  match name with
  | VStr n => bool_decide (n ∈ knownKeys)
  | _ => false
  end.

(** [results[i] && results[i].name ? results[i].name : null]. *)
Definition entry_name (r : value) : value :=
  if truthy r && truthy (get r "name") then get r "name" else VNull.

(** The loop that fills [missing] (ability 175-180, pokemon 153-158, moves
    137-142). *)
Fixpoint find_missing (results : list value) (knownKeys : gset string)
  : list value :=
  match results with
  | [] => []
  | r :: rest =>
      let name := entry_name r in
      if truthy name && negb (has knownKeys name)
      then name :: find_missing rest knownKeys
      else find_missing rest knownKeys
  end.

(** [(list && list.results) ? list.results : []]. *)
Definition results_of (lst : value) : value :=
  if truthy lst && truthy (get lst "results")
  then get lst "results" else VArr [].

(** [missing], from the listing document and the known keys. *)
Definition missing_of (lst : value) (knownKeys : gset string) : list value :=
  find_missing (js_items (results_of lst)) knownKeys.

(** [Number(process.env.X_POOL || 5)]. *)
Definition POOL (e : env) : number :=
  match pool_var e with
  | Some v =>
      if negb (String.eqb v "") then StringToNumber v
      else NFin (inject_Z 5)
  | None => NFin (inject_Z 5)
  end.

(** *** Publishing *)

Definition newFileName (s : script) (e : env) : string :=
  map_prefix s +:+ todayISO (clock e) +:+ ".json".

Definition newMapPath (s : script) (e : env) : string :=
  join (base_dir s e) (newFileName s e).

Definition new_url (s : script) (e : env) : string :=
  "/" +:+ dir_name s +:+ "/" +:+ newFileName s e.

(** [manifest.version = version; manifest.x_url = ...]. *)
Definition new_manifest (s : script) (e : env) (m : object) : object :=
  obj_set (obj_set m "version" (VStr (todayISO (clock e))))
          (url_field s) (VStr (new_url s e)).

(** [manifest.version = ...; manifest.x_url = ...] on the manifest of a
    run.  On an array the two assignments create named properties, which
    [JSON.stringify] does not print and nothing reads: the document written
    is the array. *)
Definition repoint (s : script) (e : env) (m : value) : value :=
  match m with
  | VObj kvs => VObj (new_manifest s e kvs)
  | _ => m
  end.

(** The guard of step 6 (ability 241, pokemon 212, moves 198). *)
Definition retire_old (s : script) (e : env) (ld : loaded) : bool :=
  match s with
  | Moves => negb (bool_decide (oldFileName ld = Some (newFileName s e)))
  | _ =>
      path_truthy (oldFileName ld)
      && negb (bool_decide (oldFileName ld = Some (newFileName s e)))
  end.

(** Steps 4 to 6 (ability 228-249, pokemon 199-220, moves 184-205): write
    the new snapshot, repoint the manifest, delete the old file. *)
Definition publish (s : script) (e : env) (ld : loaded) (map : value)
    (w : world) : world :=
  let w1 := writeJSON (newMapPath s e) map w in
  let w2 := writeJSON (manifestPath s e) (repoint s e (manifest ld)) w1 in
  if retire_old s e ld then
    match s with
    | Moves => safeUnlink_moves (oldMapPath ld) w2
    | _ => safeUnlink (oldMapPath ld) w2
    end
  else w2.

(** *** [main] *)

Inductive outcome : Type :=
  | Threw (err : fatal)
  | CountNotGrown                 (* "El count no crecio ... Nada que actualizar." *)
  | NothingMissing                (* "missing=0 ... Nada que actualizar." *)
  | Published (added failed : nat).

Record result : Type := Result {
  outcome_of : outcome;
  final : world
}.

(** The pool stage: [await withPool(missing, POOL, async (name, idx) => ...)]. *)
Definition fetch_missing (s : script) (e : env) (missing : list value)
    (map : value) (w : world) : pool (St := run_state) :=
  withPool missing (worker_start s) (worker_finish s e) (order e)
           (POOL e) (RunState map 0 0 w).

(** From the count request on. *)
Definition sync (s : script) (e : env) (ld : loaded) (w : world) : result :=
  match getJson (probe_url s) (probe e) w with
  | (None, w1) => Result (Threw (HttpError (probe_url s))) w1
  | (Some head, w1) =>
      let apiCount := getCountFromListResponse head in
      let localCount := size (knownKeys ld) in
      if count_not_grown s apiCount localCount
      then Result CountNotGrown w1
      else
        match getJson (listing_url s) (listing e) w1 with
        | (None, w2) => Result (Threw (HttpError (listing_url s))) w2
        | (Some lst, w2) =>
            let missing := missing_of lst (knownKeys ld) in
            match missing with
            | [] => Result NothingMissing w2
            | _ :: _ =>
                let rs := pool_st (fetch_missing s e missing (prior ld) w2) in
                Result (Published (rs_added rs) (rs_failed rs))
                       (publish s e ld (rs_map rs) (rs_world rs))
            end
        end
  end.

Definition main (s : script) (e : env) : result :=
  match load s e with
  | inl err => Result (Threw err) (start_world e)
  | inr ld => sync s e ld (start_world e)
  end.

(** *** What a run fetched, for the statements below *)

(** The detail requests issued for the tasks [idxs], in that order. *)
Definition detail_requests (s : script) (missing : list value)
    (idxs : list nat) : list event :=
  omap (fun idx => match missing !! idx with
                   | Some name => Some (EvGet (detail_url s name))
                   | None => None
                   end) idxs.

(** The key and the record task [idx] contributes when both its request and
    its extraction succeed; [None] when the task fails. *)
Definition fetched (s : script) (e : env) (missing : list value) (idx : nat)
  : option (string * value) :=
  match missing !! idx with
  | Some name =>
      match detail e idx with
      | Some doc =>
          match extract s name doc with
          | Some rec => Some (js_String name, rec)
          | None => None
          end
      | None => None
      end
  | None => None
  end.

(** The working map, when it is an object, after the tasks [idxs]
    completed in that order. *)
Definition merged (s : script) (e : env) (missing : list value)
    (map : object) (idxs : list nat) : object :=
  foldl (fun m idx => match fetched s e missing idx with
                      | Some (k, rec) => obj_set m k rec
                      | None => m
                      end) map idxs.

(** The working map, whatever it is, after the tasks [idxs] completed in
    that order: a task whose assignment throws leaves it as it is. *)
Definition assigned (s : script) (e : env) (missing : list value)
    (map : value) (idxs : list nat) : value :=
  foldl (fun m idx => match fetched s e missing idx with
                      | Some (k, rec) => default m (assign m k rec)
                      | None => m
                      end) map idxs.

(** Task [idx] counts as added: its request, its extraction and its
    assignment into the working map succeed. *)
Definition adds (s : script) (e : env) (missing : list value)
    (map : value) (idx : nat) : bool :=
  match fetched s e missing idx with
  | Some (k, rec) => bool_decide (is_Some (assign map k rec))
  | None => false
  end.

(** The tasks a pool of size [POOL] attempts: all of them, or none. *)
Definition attempted (e : env) (missing : list value) : nat :=
  if at_least_one (POOL e) then length missing else 0.

(** The old snapshot file a publishing run removes: the one the manifest
    named, when that name differs from the new one and the file is there. *)
Definition retired (s : script) (e : env) (ld : loaded) : option string :=
  match oldFileName ld with
  | Some f =>
      if decide (f <> newFileName s e
                 /\ is_Some (files e !! join (base_dir s e) f))
      then Some (join (base_dir s e) f) else None
  | None => None
  end.

(** The log of a publishing run after its requests. *)
Definition publish_log (s : script) (e : env) (ld : loaded) (map : value)
  : list event :=
  [EvWrite (newMapPath s e) map;
   EvWrite (manifestPath s e) (repoint s e (manifest ld))]
  ++ match retired s e ld with
     | Some path => [EvUnlink path]
     | None => []
     end.

(** The files after a publishing run that wrote [map]. *)
Definition publish_files (s : script) (e : env) (ld : loaded) (map : value)
  : gmap string file :=
  let fs :=
    <[manifestPath s e := Json (json_roundtrip (repoint s e (manifest ld)))]>
      (<[newMapPath s e := Json (json_roundtrip map)]> (files e)) in
  match retired s e ld with
  | Some path => delete path fs
  | None => fs
  end.

(** The world in which the pool stage starts. *)
Definition listed_world (s : script) (e : env) : world :=
  World (files e) [EvGet (probe_url s); EvGet (listing_url s)].


(** What [load] guarantees of the state it returns. *)
Record loaded_wf (s : script) (e : env) (ld : loaded) : Prop := LoadedWf {
  wf_manifest : is_Some (files e !! manifestPath s e);
  wf_keys : knownKeys ld = list_to_set (Object_keys (prior ld));
  wf_old :
    match oldFileName ld with
    | Some f => f <> "" /\ oldMapPath ld = Some (join (base_dir s e) f)
    | None => oldMapPath ld = None
    end;
  wf_moves : s = Moves -> is_Some (oldFileName ld)
}.

(** *** Characters of dates and paths, for the statements below *)

(** The character [c] does not occur in [s]. *)
Fixpoint lacks (c : ascii) (s : string) : bool :=
  match s with
  | EmptyString => true
  | String c' rest => negb (Ascii.eqb c' c) && lacks c rest
  end.

(** The two decimal digits of a number below 100. *)
Definition two_digits (n : N) : string :=
  String (pretty_N_char (n / 10)) (String (pretty_N_char (n mod 10)) "").

(** Every character of [s] is [c]. *)
Fixpoint only (c : ascii) (s : string) : bool :=
  match s with
  | EmptyString => true
  | String c' rest => Ascii.eqb c' c && only c rest
  end.

(** The dates a clock can show: [getUTCMonth] is 0 to 11, [getUTCDate] 1 to
    31. *)
Definition calendar_date (d : utc_date) : Prop :=
  (getUTCMonth d < 12)%N /\ (getUTCDate d < 32)%N.

(** *** The state a run leaves to the next one, for the statements below *)

(** The own properties of the object [JSON.parse] gives back from the file
    in which the object [m] was stored. *)
Definition stored_props (m : object) : object :=
  props_of (json_roundtrip (VObj m)).

(** What the next run loads after a run that started from [ld] published
    the snapshot [snap]. *)
Definition loaded_after (s : script) (e : env) (ld : loaded) (snap : object)
  : loaded :=
  Loaded (VObj (stored_props (new_manifest s e (props_of (manifest ld)))))
         (Some (newFileName s e)) (Some (newMapPath s e))
         (VObj (stored_props snap))
         (list_to_set (obj_keys (stored_props snap))).

(** *** The fallback chain of the display name, as the specification has it *)

(** [n] is an entry of a [names] array that gives a name in language
    [lang]. *)
Definition names_entry (lang : string) (n : value) : bool :=
  truthy n && truthy (get n "language")
  && is_str (get (get n "language") "name") lang
  && truthy (get n "name").

(** The name [names] gives in language [lang]: that of its first entry in
    that language, or none when it has no such entry. *)
Definition localized (lang : string) (names : list value)
    (nm : option value) : Prop :=
  match nm with
  | Some v =>
      exists before n rest,
        names = before ++ n :: rest
        /\ Forall (fun x => names_entry lang x = false) before
        /\ names_entry lang n = true
        /\ v = get n "name"
  | None => Forall (fun x => names_entry lang x = false) names
  end.


(** *** Occupancy and order of the pool, for the statements below *)

(** As long as an item is left to take, [n] requests are in flight. *)
Definition busy {T St : Type} (items : list T) (n : nat)
    (ps : pool (St := St)) : Prop :=
  length (flight ps) <= n
  /\ (pool_p ps < length items -> length (flight ps) = n).

(** The items taken are those completed, in the same order, followed by
    those in flight. *)
Definition in_order {St : Type} (ps : pool (St := St)) : Prop :=
  settled ps ++ (flight ps).*2 = started ps.

(** ** Sample hosts and runs *)

(** A host that prints integers in decimal, as JavaScript does; the sample
    runs stringify no other number. *)
Definition decimal_toString (n : number) : string :=
  match n with
  | NFin q => pretty (Qfloor q)
  | NNaN => "NaN"
  | NPosInf => "Infinity"
  | NNegInf => "-Infinity"
  end.

(** [StringToNumber] on strings of decimal digits; everything else the
    sample runs pass to it is not numeric. *)
Fixpoint digits_value (acc : N) (str : string) : option N :=
  match str with
  | EmptyString => Some acc
  | String c rest =>
      let d := N_of_ascii c in
      if (48 <=? d)%N && (d <=? 57)%N
      then digits_value (acc * 10 + (d - 48))%N rest
      else None
  end.

Definition digits_toNumber (str : string) : number :=
  match digits_value 0 str with
  | Some n => NFin (inject_Z (Z.of_N n))
  | None => NNaN
  end.

Definition jnum (z : Z) : value := VNum (NFin (inject_Z z)).

Definition entry (name : string) : value := VObj [("name", VStr name)].

Definition listing_doc (count : Z) (names : list string) : value :=
  VObj [("count", jnum count); ("results", VArr (entry <$> names))].

(** The scenario of the specification: prior snapshot [{"a":{"id":1}}],
    listing [a, b], count 2, the fetch of [b] succeeds. *)
Definition ability_b : value :=
  VObj [("id", jnum 2); ("name", VStr "b");
        ("generation", VObj [("name", VStr "generation-iii")]);
        ("names", VArr [VObj [("name", VStr "Be");
                              ("language", VObj [("name", VStr "es")])]])].

Definition files_one_ability : gmap string file :=
  <["/repo/public/abilities/manifest.json" :=
      Json (VObj [("version", VStr "2026-02-21");
            ("ability_url", VStr "/abilities/ability_map.2026-02-21.json")])]>
  (<["/repo/public/abilities/ability_map.2026-02-21.json" :=
      Json (VObj [("a", VObj [("id", jnum 1)])])]> ∅).

Definition run_adds_b : env :=
  Env "/repo" files_one_ability
      (Some (listing_doc 2 ["a"; "b"]))
      (Some (listing_doc 2 ["a"; "b"]))
      (fun _ => Some ability_b)
      (fun _ => 0) None (UtcDate 2026 10 2).

(** The same run with a pool size that is not a number. *)
Definition run_pool_nan : env :=
  Env "/repo" files_one_ability
      (Some (listing_doc 2 ["a"; "b"]))
      (Some (listing_doc 2 ["a"; "b"]))
      (fun _ => Some ability_b)
      (fun _ => 0) (Some "many") (UtcDate 2026 10 2).

(** A first run: the manifest has no url yet. *)
Definition files_fresh_abilities : gmap string file :=
  <["/repo/public/abilities/manifest.json" :=
      Json (VObj [("version", VStr "0"); ("ability_url", VNull)])]> ∅.


(** A listing that names [b] twice; the first detail request succeeds, the
    second fails. *)
Definition run_duplicate_name : env :=
  Env "/repo" files_fresh_abilities
      (Some (listing_doc 2 ["b"; "b"]))
      (Some (listing_doc 2 ["b"; "b"]))
      (fun idx => if Nat.eqb idx 0 then Some ability_b else None)
      (fun _ => 0) None (UtcDate 2026 10 2).

(** A listing with an entry whose name is the empty string. *)
Definition listing_with_empty_name : value := listing_doc 1 [""].

(** The moves script on an empty snapshot, the catalogue reporting count 0. *)
Definition files_empty_moves : gmap string file :=
  <["/repo/public/moves/manifest.json" :=
      Json (VObj [("version", VStr "2026-02-20");
            ("moves_url", VStr "/moves/move_es_map.2026-02-20.json")])]>
  (<["/repo/public/moves/move_es_map.2026-02-20.json" := Json (VObj [])]> ∅).

Definition run_moves_empty : env :=
  Env "/repo" files_empty_moves
      (Some (listing_doc 0 []))
      (Some (listing_doc 0 ["pound"]))
      (fun _ => None)
      (fun _ => 0) None (UtcDate 2026 10 2).



(** What [load] returns on the sample runs. *)
Definition loaded_one_ability : loaded :=
  Loaded (VObj [("version", VStr "2026-02-21");
                ("ability_url",
                 VStr "/abilities/ability_map.2026-02-21.json")])
         (Some "ability_map.2026-02-21.json")
         (Some "/repo/public/abilities/ability_map.2026-02-21.json")
         (VObj [("a", VObj [("id", jnum 1)])])
         (list_to_set ["a"]).

Definition loaded_empty_moves : loaded :=
  Loaded (VObj [("version", VStr "2026-02-20");
                ("moves_url", VStr "/moves/move_es_map.2026-02-20.json")])
         (Some "move_es_map.2026-02-20.json")
         (Some "/repo/public/moves/move_es_map.2026-02-20.json")
         (VObj []) ∅.


(** A run in which every detail request fails. *)
Definition run_fetch_fails : env :=
  Env "/repo" files_one_ability
      (Some (listing_doc 2 ["a"; "b"]))
      (Some (listing_doc 2 ["a"; "b"]))
      (fun _ => None)
      (fun _ => 0) None (UtcDate 2026 10 2).



(** A manifest whose url names the manifest file itself. *)
Definition files_url_names_manifest : gmap string file :=
  <["/repo/public/abilities/manifest.json" :=
      Json (VObj [("version", VStr "0");
            ("ability_url", VStr "/abilities/manifest.json")])]> ∅.

Definition run_url_names_manifest : env :=
  Env "/repo" files_url_names_manifest
      (Some (listing_doc 3 ["b"]))
      (Some (listing_doc 3 ["b"]))
      (fun _ => Some ability_b)
      (fun _ => 0) None (UtcDate 2026 10 2).

(** The files the run [run_adds_b] leaves, and a second run on them, a day
    later and on the same listing. *)
Definition files_after_adds_b : gmap string file :=
  <["/repo/public/abilities/manifest.json" :=
      Json (VObj [("version", VStr "2026-11-02");
            ("ability_url", VStr "/abilities/ability_map.2026-11-02.json")])]>
  (<["/repo/public/abilities/ability_map.2026-11-02.json" :=
      Json (VObj [("a", VObj [("id", jnum 1)]);
            ("b", VObj [("id", jnum 2); ("gen", VStr "generation-iii");
                        ("display", VStr "Be")])])]> ∅).

Definition run_again : env :=
  Env "/repo" files_after_adds_b
      (Some (listing_doc 2 ["a"; "b"]))
      (Some (listing_doc 2 ["a"; "b"]))
      (fun _ => None)
      (fun _ => 0) None (UtcDate 2026 10 3).

(** The files the run [run_fetch_fails] leaves, and the next run on them. *)
Definition files_after_fetch_fails : gmap string file :=
  <["/repo/public/abilities/manifest.json" :=
      Json (VObj [("version", VStr "2026-11-02");
            ("ability_url", VStr "/abilities/ability_map.2026-11-02.json")])]>
  (<["/repo/public/abilities/ability_map.2026-11-02.json" :=
      Json (VObj [("a", VObj [("id", jnum 1)])])]> ∅).

Definition run_retry : env :=
  Env "/repo" files_after_fetch_fails
      (Some (listing_doc 2 ["a"; "b"]))
      (Some (listing_doc 2 ["a"; "b"]))
      (fun _ => Some ability_b)
      (fun _ => 0) None (UtcDate 2026 10 3).

Definition loaded_url_names_manifest : loaded :=
  Loaded (VObj [("version", VStr "0");
                ("ability_url", VStr "/abilities/manifest.json")])
         (Some "manifest.json")
         (Some "/repo/public/abilities/manifest.json")
         (VObj [("version", VStr "0");
                ("ability_url", VStr "/abilities/manifest.json")])
         (list_to_set ["version"; "ability_url"]).

(** * Properties *)

(** ** Values and objects *)

Lemma obj_get_replace (m : object) (k k' : string) (v : value) :
  obj_get (obj_replace m k v) k'
  = if String.eqb k k'
    then match obj_get m k with Some _ => Some v | None => None end
    else obj_get m k'.
Proof.
  induction m as [|[k0 v0] m IH]; cbn [obj_replace obj_get].
  - now destruct (String.eqb k k').
  - destruct (String.eqb k0 k) eqn:E0; cbn [obj_get].
    + apply String.eqb_eq in E0 as ->. now destruct (String.eqb k k').
    + rewrite IH. destruct (String.eqb k0 k') eqn:E1; [|reflexivity].
      apply String.eqb_eq in E1 as ->. rewrite String.eqb_sym in E0.
      now rewrite E0.
Qed.

Lemma obj_get_insert (m : object) (k k' : string) (v : value) :
  obj_get m k = None ->
  obj_get (obj_insert m k v) k'
  = if String.eqb k k' then Some v else obj_get m k'.
Proof.
  induction m as [|[k0 v0] m IH]; cbn [obj_insert obj_get]; [done|].
  destruct (String.eqb k0 k) eqn:E0; [discriminate|]. intros Hm.
  assert (obj_get ((k0, v0) :: obj_insert m k v) k'
          = if String.eqb k k' then Some v
            else if String.eqb k0 k' then Some v0 else obj_get m k') as Hrec.
  { cbn [obj_get]. rewrite (IH Hm).
    destruct (String.eqb k0 k') eqn:E1; [|reflexivity].
    apply String.eqb_eq in E1 as ->. rewrite String.eqb_sym in E0.
    now rewrite E0. }
  assert (obj_get ((k, v) :: (k0, v0) :: m) k'
          = if String.eqb k k' then Some v
            else if String.eqb k0 k' then Some v0 else obj_get m k') as Hhere
    by reflexivity.
  destruct (array_index k) as [i|]; [|exact Hrec].
  destruct (array_index k0) as [i0|]; [|exact Hhere].
  destruct (i <? i0)%N; [exact Hhere|exact Hrec].
Qed.

(** Reading after an assignment, for a key that the assignment stores. *)
Lemma obj_get_set (m : object) (k k' : string) (v : value) :
  k <> "__proto__" \/ is_Some (obj_get m k) ->
  obj_get (obj_set m k v) k' = if String.eqb k k' then Some v else obj_get m k'.
Proof.
  intros Hk. unfold obj_set. destruct (obj_get m k) as [v0|] eqn:Hm.
  - rewrite obj_get_replace, Hm. reflexivity.
  - destruct Hk as [Hk|[? [=]]]. apply String.eqb_neq in Hk. rewrite Hk.
    now apply obj_get_insert.
Qed.

Lemma obj_get_set_eq (m : object) (k : string) (v : value) :
  k <> "__proto__" \/ is_Some (obj_get m k) ->
  obj_get (obj_set m k v) k = Some v.
Proof. intros Hk. now rewrite obj_get_set, String.eqb_refl. Qed.

(** What is read after an assignment was assigned or was there before. *)
Lemma obj_get_set_inv (m : object) (k k' : string) (v x : value) :
  obj_get (obj_set m k v) k' = Some x ->
  (k = k' /\ x = v) \/ obj_get m k' = Some x.
Proof.
  unfold obj_set. destruct (obj_get m k) as [v0|] eqn:Hm.
  - rewrite obj_get_replace, Hm.
    destruct (String.eqb k k') eqn:E; [|now right].
    apply String.eqb_eq in E. intros [= <-]. now left.
  - destruct (String.eqb k "__proto__"); [now right|].
    rewrite obj_get_insert by done.
    destruct (String.eqb k k') eqn:E; [|now right].
    apply String.eqb_eq in E. intros [= <-]. now left.
Qed.

Lemma obj_get_set_ne (m : object) (k k' : string) (v : value) :
  k <> k' -> obj_get (obj_set m k v) k' = obj_get m k'.
Proof.
  intros Hne. apply String.eqb_neq in Hne. unfold obj_set.
  destruct (obj_get m k) as [v0|] eqn:Hm.
  - now rewrite obj_get_replace, Hne.
  - destruct (String.eqb k "__proto__"); [done|].
    now rewrite obj_get_insert, Hne.
Qed.

(** An assignment to "__proto__" creates no property. *)
Lemma obj_set_proto (m : object) (v : value) :
  obj_get m "__proto__" = None -> obj_set m "__proto__" v = m.
Proof. intros Hm. unfold obj_set. now rewrite Hm. Qed.

Lemma obj_get_Some_keys (m : object) (k : string) :
  is_Some (obj_get m k) <-> k ∈ obj_keys m.
Proof.
  unfold obj_keys. induction m as [|[k0 v0] m IH]; simpl.
  - split; [intros [? [=]] | intros H; inversion H].
  - destruct (String.eqb k0 k) eqn:E.
    + apply String.eqb_eq in E as ->. split; [intros _; left | eauto].
    + apply String.eqb_neq in E. rewrite IH. split.
      * now right.
      * intros H. inversion H; subst; [congruence | assumption].
Qed.

Lemma obj_get_None_keys (m : object) (k : string) :
  obj_get m k = None <-> k ∉ obj_keys m.
Proof.
  rewrite <- obj_get_Some_keys. apply eq_None_not_Some.
Qed.

Lemma truthy_VStr (n : string) : truthy (VStr n) = true <-> n <> "".
Proof.
  simpl. rewrite negb_true_iff. apply String.eqb_neq.
Qed.

(** ** C7: the count of a listing response *)

(** C7. [getCountFromListResponse] returns the [count] field exactly when it
    is a finite number, and [null] in every other case (field absent, not a
    number, NaN or infinite); no other value, in particular no zero, is ever
    substituted for it. *)
Theorem getCountFromListResponse_finite_or_null (listJson : value) :
  getCountFromListResponse listJson =
    match get listJson "count" with
    | VNum (NFin q) => VNum (NFin q)
    | _ => VNull
    end.
Proof.
  unfold getCountFromListResponse.
  destruct listJson as [| |b|n|str|xs|kvs]; simpl;
    try reflexivity; try (destruct b; reflexivity);
    try (rewrite andb_false_r; reflexivity).
  destruct (default VUndef (obj_get kvs "count")) as [| |b|[q| | |]|str|xs|kvs'];
    reflexivity.
Qed.

(** ** C1: the diff *)

Lemma find_missing_filter (L : list value) (K : gset string) :
  find_missing L K =
    filter (fun n => truthy n = true /\ has K n = false) (map entry_name L).
Proof.
  induction L as [|r L IH]; simpl; [reflexivity|].
  rewrite filter_cons, <- IH. case_decide as Hd.
  - destruct Hd as [-> ->]. reflexivity.
  - destruct (truthy (entry_name r)) eqn:Ht; [|reflexivity].
    destruct (has K (entry_name r)) eqn:Hh; [reflexivity|].
    exfalso. apply Hd. split; reflexivity.
Qed.

Lemma entry_name_VStr (r : value) (n : string) :
  n <> "" -> (entry_name r = VStr n <-> get r "name" = VStr n).
Proof.
  intros Hn. unfold entry_name.
  assert (Hr : forall v, get r "name" = VStr v -> truthy r = true).
  { destruct r; simpl; try discriminate; reflexivity. }
  split.
  - destruct (truthy r && truthy (get r "name")); [done | discriminate].
  - intros H. rewrite (Hr _ H), H. simpl.
    apply truthy_VStr in Hn. simpl in Hn. now rewrite Hn.
Qed.

(** C1 (as amended). [missing] is the list of listing entry names, in
    listing order, that are truthy and not among the known keys; for string
    names: exactly the non-empty names of the listing that are not known.
    The probe is not an input of the computation. *)
Theorem missing_is_listing_minus_known (lst : value) (K : gset string) :
  let L := js_items (results_of lst) in
  missing_of lst K =
    filter (fun n => truthy n = true /\ has K n = false) (map entry_name L)
  /\ (forall n : string,
        VStr n ∈ missing_of lst K <->
        n <> "" /\ (n ∉ K) /\ exists r, (r ∈ L) /\ get r "name" = VStr n).
Proof.
  intros L. unfold missing_of. fold L. split.
  - apply find_missing_filter.
  - intros n. rewrite find_missing_filter, list_elem_of_filter, list_elem_of_fmap.
    rewrite truthy_VStr. simpl. rewrite bool_decide_eq_false. split.
    + intros [[Hn HK] [r [Hr Hin]]]. repeat split; try assumption.
      exists r. split; [assumption|]. now apply entry_name_VStr.
    + intros (Hn & HK & r & Hin & Hr). repeat split; try assumption.
      exists r. split; [|assumption]. symmetry. now apply entry_name_VStr.
Qed.

(** ** The pool *)

Lemma Qfloor_ge_1 (q : Q) : (1 <= q)%Q -> (1 <= Qfloor q)%Z.
Proof.
  intros H. change 1%Z with (Qfloor (inject_Z 1)).
  now apply Qfloor_resp_le.
Qed.

Lemma Qfloor_lt_1 (q : Q) : ~ (1 <= q)%Q -> (Qfloor q <= 0)%Z.
Proof.
  intros H. destruct (Z_le_gt_dec (Qfloor q) 0) as [|Hgt]; [assumption|].
  exfalso. apply H. apply Qle_trans with (inject_Z (Qfloor q)).
  - change 1%Q with (inject_Z 1). rewrite <- Zle_Qle. lia.
  - apply Qfloor_le.
Qed.

Lemma Qfloor_le_nat (q : Q) (n : nat) :
  (q <= inject_Z (Z.of_nat n))%Q -> (Qfloor q <= Z.of_nat n)%Z.
Proof.
  intros H. rewrite <- (Qfloor_Z (Z.of_nat n)). now apply Qfloor_resp_le.
Qed.

Lemma ToLength_fin (q : Q) :
  Z.of_nat (N.to_nat (ToLength (NFin q))) =
    Z.min (Z.max (Qfloor q) 0) 9007199254740991.
Proof.
  simpl. change (2 ^ 53 - 1)%N with 9007199254740991%N.
  destruct (N.min_spec (Z.to_N (Qfloor q)) 9007199254740991)
    as [[? ->]|[? ->]]; lia.
Qed.

Lemma Qle_bool_false (x y : Q) : Qle_bool x y = false -> (y < x)%Q.
Proof.
  intros H. apply Qnot_le_lt. intros Hle. apply Qle_bool_iff in Hle. congruence.
Qed.

(** The number of workers: at most the number of items, none unless
    [poolSize >= 1], at least one when it is and there is an item. *)
Lemma width_bounds (poolSize : number) (len : nat) :
  let n := N.to_nat (ToLength (Math_min poolSize len)) in
  n <= len
  /\ (at_least_one poolSize = true -> 1 <= len -> 1 <= n)
  /\ (at_least_one poolSize = false -> n = 0)
  /\ (forall q, poolSize = NFin q -> at_least_one poolSize = true ->
        (Z.of_nat n <= Qfloor q)%Z).
Proof.
  intros n.
  assert (Hlen : Z.of_nat (N.to_nat (ToLength (NFin (inject_Z (Z.of_nat len)))))
                 = Z.min (Z.of_nat len) 9007199254740991).
  { rewrite ToLength_fin, Qfloor_Z. lia. }
  destruct poolSize as [q| | |]; unfold n; clear n; simpl Math_min;
    simpl at_least_one.
  - destruct (Qle_bool q (inject_Z (Z.of_nat len))) eqn:Hle.
    + pose proof (ToLength_fin q) as Hq.
      apply Qle_bool_iff, Qfloor_le_nat in Hle.
      split; [lia|]. split; [|split].
      * intros H1 _. apply Qle_bool_iff, Qfloor_ge_1 in H1. lia.
      * intros H1. apply Qle_bool_false, Qlt_not_le, Qfloor_lt_1 in H1. lia.
      * intros q' [= <-] H1. apply Qle_bool_iff, Qfloor_ge_1 in H1. lia.
    + apply Qle_bool_false in Hle.
      split; [lia|]. split; [|split].
      * intros _ ?. lia.
      * intros H1. apply Qle_bool_false in H1.
        assert (Z.of_nat len < 1)%Z; [|lia].
        rewrite Zlt_Qlt. now apply Qlt_trans with q.
      * intros q' [= <-] _. apply Qlt_le_weak, Qfloor_resp_le in Hle.
        rewrite Qfloor_Z in Hle. lia.
  - simpl. repeat split; try lia; discriminate.
  - split; [lia|]. split; [|split]; [intros _ ?; lia | discriminate | discriminate].
  - simpl. repeat split; try lia; discriminate.
Qed.

Section PoolFacts.

Context {T St : Type}.
Variable items : list T.
Variable start finish : T -> nat -> St -> St.
Variable sched : nat -> nat.

Local Abbreviation take := (take items start).
Local Abbreviation settle := (settle items start finish).
Local Abbreviation turns := (turns items start finish sched).
Local Abbreviation spawn := (spawn items start).
Local Abbreviation pool_inv := (pool_inv items).
Local Abbreviation pending := (pending items).

Lemma take_inv (w : nat) (ps : pool (St := St)) : pool_inv ps -> pool_inv (take w ps).
Proof.
  intros [Hs Hb Hp]. unfold take.
  destruct (items !! pool_p ps) as [it|] eqn:Hit; [|now split].
  apply lookup_lt_Some in Hit. split; cbn [started pool_p flight settled].
  - now rewrite Hs, seq_S.
  - lia.
  - rewrite fmap_app. simpl. rewrite <- Hp.
    rewrite <- !app_assoc. apply Permutation_app_head, Permutation_app_comm.
Qed.

Lemma take_pending (w : nat) (ps : pool (St := St)) : pending (take w ps) = pending ps.
Proof.
  unfold take, pending.
  destruct (items !! pool_p ps) as [it|] eqn:Hit; [|reflexivity].
  apply lookup_lt_Some in Hit. simpl. rewrite length_app. simpl. lia.
Qed.

Lemma take_flight (w : nat) (ps : pool (St := St)) :
  length (flight (take w ps)) <= S (length (flight ps)).
Proof.
  unfold take. destruct (items !! pool_p ps); simpl; [|lia].
  rewrite length_app. simpl. lia.
Qed.

(** A worker that has just evaluated the loop head leaves the pool only
    when no item is left. *)
Lemma take_live (w : nat) (ps : pool (St := St)) :
  pool_p (take w ps) < length items -> flight (take w ps) <> [].
Proof.
  unfold take. destruct (items !! pool_p ps) as [it|] eqn:Hit; simpl.
  - intros _ H. now apply app_eq_nil in H as [_ [=]].
  - apply lookup_ge_None in Hit. lia.
Qed.

(** The request a worker awaits is for an item of the list. *)
Lemma flight_item (ps : pool (St := St)) (k w idx : nat) :
  pool_inv ps -> flight ps !! k = Some (w, idx) -> is_Some (items !! idx).
Proof.
  intros [Hs Hb Hp] Hk. apply lookup_lt_is_Some.
  assert (idx ∈ started ps) as Hin.
  { rewrite <- Hp. apply elem_of_app. left.
    apply list_elem_of_fmap. exists (w, idx). split; [reflexivity|].
    eapply list_elem_of_lookup_2, Hk. }
  rewrite Hs in Hin. apply elem_of_seq in Hin. lia.
Qed.

Lemma settle_unfold (ps : pool (St := St)) (k w idx : nat) (it : T) :
  flight ps !! k = Some (w, idx) -> items !! idx = Some it ->
  settle k ps =
    take w (Pool (pool_p ps) (delete k (flight ps)) (started ps)
                 (settled ps ++ [idx]) (finish it idx (pool_st ps))).
Proof. intros Hk Hit. unfold settle. now rewrite Hk, Hit. Qed.

Lemma settle_inv (ps : pool (St := St)) (k : nat) :
  pool_inv ps -> k < length (flight ps) ->
  pool_inv (settle k ps)
  /\ S (pending (settle k ps)) = pending ps
  /\ length (flight (settle k ps)) <= length (flight ps)
  /\ (pool_p (settle k ps) < length items -> flight (settle k ps) <> []).
Proof.
  intros Hinv Hk.
  destruct (lookup_lt_is_Some_2 _ _ Hk) as [[w idx] Hf].
  destruct (flight_item _ _ _ _ Hinv Hf) as [it Hit].
  rewrite (settle_unfold _ _ _ _ _ Hf Hit).
  destruct Hinv as [Hs Hb Hp].
  split; [|split; [|split]].
  - apply take_inv. split; simpl; try assumption.
    rewrite <- Hp. rewrite (delete_Permutation _ _ _ Hf) at 2.
    rewrite fmap_cons. simpl.
    rewrite app_assoc. rewrite <- Permutation_middle.
    rewrite Permutation_app_comm. simpl. rewrite Permutation_app_comm.
    reflexivity.
  - rewrite take_pending. unfold pending. simpl.
    rewrite length_delete by eauto. lia.
  - etransitivity; [apply take_flight|]. simpl.
    rewrite length_delete by eauto. lia.
  - apply take_live.
Qed.

Lemma turns_inv (fuel turn : nat) (ps : pool (St := St)) :
  pool_inv ps ->
  pool_inv (turns fuel turn ps)
  /\ length (flight (turns fuel turn ps)) <= length (flight ps)
  /\ (pending ps <= fuel -> flight (turns fuel turn ps) = [])
  /\ ((pool_p ps < length items -> flight ps <> []) ->
      pool_p (turns fuel turn ps) < length items ->
      flight (turns fuel turn ps) <> []).
Proof.
  revert turn ps. induction fuel as [|fuel IH]; intros turn ps Hinv; simpl.
  - split_and!; try done.
    unfold pending. intros H. apply length_zero_iff_nil. lia.
  - destruct (flight ps) as [|f fl] eqn:Hfl.
    + rewrite Hfl. split_and!; done.
    + rewrite <- Hfl.
      assert (sched turn mod length (flight ps) < length (flight ps)) as Hk.
      { apply Nat.mod_upper_bound. rewrite Hfl. discriminate. }
      destruct (settle_inv ps _ Hinv Hk) as (Hinv' & Hpend & Hlen & Hlive).
      destruct (IH (S turn) _ Hinv') as (H1 & H2 & H3 & H4).
      split_and!; try assumption.
      * lia.
      * intros Hp. apply H3. lia.
      * intros _. now apply H4.
Qed.

Lemma spawn_S (n : nat) (s0 : St) : spawn (S n) s0 = take n (spawn n s0).
Proof. unfold spawn. now rewrite seq_S, foldl_app. Qed.

Lemma spawn_inv (n : nat) (s0 : St) :
  n <= length items ->
  pool_inv (spawn n s0)
  /\ pool_p (spawn n s0) = n
  /\ length (flight (spawn n s0)) = n
  /\ settled (spawn n s0) = [].
Proof.
  induction n as [|n IH]; intros Hn.
  - split_and!; try reflexivity. split; simpl; [reflexivity | lia | reflexivity].
  - destruct IH as (Hinv & Hp & Hfl & Hse); [lia|].
    rewrite spawn_S. split; [now apply take_inv|].
    unfold take. rewrite Hp.
    destruct (lookup_lt_is_Some_2 items n) as [it ->]; [lia|]. simpl.
    rewrite length_app, Hfl. simpl. split_and!; [reflexivity | lia | assumption].
Qed.

Lemma turns_idle (fuel turn : nat) (ps : pool (St := St)) :
  flight ps = [] -> turns fuel turn ps = ps.
Proof. intros H. destruct fuel; simpl; [reflexivity | now rewrite H]. Qed.

(** Induction over the pool states of a run: a property of the initial
    state kept by every evaluation of a loop head and by every completion
    of a worker function holds of every state the pool reaches. *)
Lemma pool_reach (P : pool (St := St) -> Prop) :
  (forall w ps, P ps -> P (take w ps)) ->
  (forall k w idx it ps,
      P ps -> flight ps !! k = Some (w, idx) -> items !! idx = Some it ->
      P (Pool (pool_p ps) (delete k (flight ps)) (started ps)
              (settled ps ++ [idx]) (finish it idx (pool_st ps)))) ->
  forall s0 n fuel turn,
    P (Pool 0 [] [] [] s0) -> P (turns fuel turn (spawn n s0)).
Proof.
  intros Htake Hfin s0 n fuel turn H0.
  assert (P (spawn n s0)) as Hsp.
  { induction n as [|n IH]; [exact H0|]. rewrite spawn_S. now apply Htake. }
  revert Hsp. generalize (spawn n s0). revert turn.
  induction fuel as [|fuel IH]; intros turn ps Hps; simpl; [assumption|].
  destruct (flight ps) as [|f fl] eqn:Hfl; [assumption|]. rewrite <- Hfl.
  apply IH. unfold settle.
  destruct (flight ps !! _) as [[w idx]|] eqn:Hk; [|assumption].
  destruct (items !! idx) as [it|] eqn:Hit; [|assumption].
  apply Htake. eapply Hfin; eassumption.
Qed.

(** What the closed-over state shows of the completions: a component that
    only [finish] changes is the fold of those changes in completion order. *)
Lemma settled_fold {X : Type} (f : St -> X) (g : T -> nat -> X -> X)
    (s0 : St) (n fuel turn : nat) :
  (forall it i s, f (start it i s) = f s) ->
  (forall it i s, f (finish it i s) = g it i (f s)) ->
  let r := turns fuel turn (spawn n s0) in
  f (pool_st r) =
    foldl (fun x idx => match items !! idx with
                        | Some it => g it idx x
                        | None => x
                        end) (f s0) (settled r).
Proof.
  intros Hs Hf. apply pool_reach; [| |reflexivity].
  - intros w ps IH. unfold take. destruct (items !! pool_p ps); [|assumption].
    simpl. now rewrite Hs.
  - intros k w idx it ps IH _ Hit. simpl. rewrite foldl_app. simpl.
    now rewrite Hit, Hf, IH.
Qed.

(** Symmetrically for a component that only [start] changes. *)
Lemma started_fold {X : Type} (f : St -> X) (g : T -> nat -> X -> X)
    (s0 : St) (n fuel turn : nat) :
  (forall it i s, f (start it i s) = g it i (f s)) ->
  (forall it i s, f (finish it i s) = f s) ->
  let r := turns fuel turn (spawn n s0) in
  f (pool_st r) =
    foldl (fun x idx => match items !! idx with
                        | Some it => g it idx x
                        | None => x
                        end) (f s0) (started r).
Proof.
  intros Hs Hf. apply pool_reach; [| |reflexivity].
  - intros w ps IH. unfold take.
    destruct (items !! pool_p ps) eqn:Hit; [|assumption].
    simpl. rewrite foldl_app. simpl. now rewrite Hit, Hs, IH.
  - intros k w idx it ps IH _ Hit. simpl. now rewrite Hf.
Qed.

(** The shape of a finished run. *)
Lemma withPool_shape (poolSize : number) (s0 : St) :
  let n := pool_width items poolSize in
  let r := withPool items start finish sched poolSize s0 in
  n <= length items
  /\ (forall fuel,
        length (flight (pool_after items start finish sched fuel poolSize s0))
        <= n)
  /\ flight r = []
  /\ (if at_least_one poolSize
      then started r = seq 0 (length items)
           /\ settled r ≡ₚ seq 0 (length items)
      else started r = [] /\ settled r = [] /\ pool_st r = s0).
Proof.
  intros n r.
  destruct (width_bounds poolSize (length items)) as (Hn & Hge & H0 & _).
  fold (pool_width items poolSize) in Hn, Hge, H0. fold n in Hn, Hge, H0.
  subst r. unfold withPool, pool_after. fold n.
  set (r := turns (length items) 0 (spawn n s0)).
  destruct (spawn_inv n s0 Hn) as (Hinv & Hp & Hfl & Hse).
  assert (forall fuel, length (flight (turns fuel 0 (spawn n s0))) <= n) as Hw.
  { intros fuel. destruct (turns_inv fuel 0 _ Hinv) as (_ & H & _). lia. }
  destruct (turns_inv (length items) 0 _ Hinv) as (Hinv' & _ & Hdone & Hlive).
  fold r in Hinv', Hdone, Hlive.
  assert (flight r = []) as Hr.
  { apply Hdone. unfold pending. rewrite Hp, Hfl. lia. }
  split_and!; try assumption.
  destruct (at_least_one poolSize) eqn:Hal.
  - assert (pool_p r = length items) as Hpr.
    { destruct (decide (pool_p r < length items)) as [Hlt|Hge'].
      - exfalso. apply Hlive; try assumption. intros Hlt' Hnil.
        rewrite Hnil in Hfl. simpl in Hfl.
        assert (1 <= n) by (apply Hge; [reflexivity | lia]). lia.
      - destruct Hinv' as [_ Hb _]. lia. }
    destruct Hinv' as [Hs _ Hperm].
    rewrite Hr in Hperm. simpl in Hperm. rewrite <- Hpr, <- Hs. done.
  - subst r. revert Hr. rewrite (H0 eq_refl). intros _.
    rewrite turns_idle by reflexivity. done.
Qed.

End PoolFacts.

(** ** The pool with a worker function that may reject *)

Section PoolRejectingFacts.

Context {T St : Type}.
Variable items : list T.
Variable start : T -> nat -> St -> St.
Variable finish : T -> nat -> St -> St * bool.
Variable sched : nat -> nat.

Local Abbreviation take := (take items start).
Local Abbreviation settle_r := (settle_r items start finish).
Local Abbreviation turns_r := (turns_r items start finish sched).
Local Abbreviation spawn := (spawn items start).
Local Abbreviation pool_inv := (pool_inv items).
Local Abbreviation rpool_inv := (rpool_inv items finish).
Local Abbreviation pending := (pending items).

Lemma settle_r_unfold (ps : pool (St := St)) (rej : list nat) (k w idx : nat)
    (it : T) :
  flight ps !! k = Some (w, idx) -> items !! idx = Some it ->
  settle_r k (ps, rej) =
    let ps' := Pool (pool_p ps) (delete k (flight ps)) (started ps)
                    (settled ps ++ [idx]) (finish it idx (pool_st ps)).1 in
    if (finish it idx (pool_st ps)).2 then (take w ps', rej)
    else (ps', rej ++ [idx]).
Proof. intros Hk Hit. unfold settle_r. cbn [fst snd]. now rewrite Hk, Hit. Qed.

Lemma settle_r_inv (n k : nat) (ps : rpool) :
  rpool_inv n ps -> k < length (flight ps.1) ->
  rpool_inv n (settle_r k ps)
  /\ S (pending (settle_r k ps).1) = pending ps.1.
Proof.
  destruct ps as [ps rej]. cbn [fst snd]. intros [Hinv Hslots Hlive Hrej] Hk.
  cbn [fst snd] in *.
  destruct (lookup_lt_is_Some_2 _ _ Hk) as [[w idx] Hf].
  destruct (flight_item items _ _ _ _ Hinv Hf) as [it Hit].
  rewrite (settle_r_unfold _ _ _ _ _ _ Hf Hit). cbv zeta.
  set (ps' := Pool (pool_p ps) (delete k (flight ps)) (started ps)
                   (settled ps ++ [idx]) (finish it idx (pool_st ps)).1).
  assert (pool_inv ps') as Hinv'.
  { destruct Hinv as [Hs Hb Hp]. split; simpl; try assumption.
    rewrite <- Hp. rewrite (delete_Permutation _ _ _ Hf) at 2.
    rewrite fmap_cons. simpl.
    rewrite app_assoc. rewrite <- Permutation_middle.
    rewrite Permutation_app_comm. simpl. rewrite Permutation_app_comm.
    reflexivity. }
  assert (S (length (flight ps')) = length (flight ps)) as Hfl.
  { unfold ps'. cbn [flight]. rewrite length_delete by eauto. lia. }
  assert (S (pending ps') = pending ps) as Hpend.
  { unfold pending. cbn [pool_p ps']. lia. }
  destruct (finish it idx (pool_st ps)).2 eqn:Hok; cbn [fst snd].
  - split; [|now rewrite take_pending].
    pose proof (take_flight items start w ps') as Htf.
    split; cbn [fst snd].
    + now apply take_inv.
    + lia.
    + intros Hp. unfold take in Hp |- *.
      destruct (items !! pool_p ps') as [it'|] eqn:Hit'.
      * cbn [flight pool_p] in Hp |- *. rewrite length_app. cbn [length].
        cbn [pool_p ps'] in Hit'. apply lookup_lt_Some in Hit'.
        specialize (Hlive Hit'). lia.
      * apply lookup_ge_None in Hit'. lia.
    + intros i Hi. destruct (Hrej i Hi) as [Hin Hex]. split; [|exact Hex].
      unfold take. destruct (items !! pool_p ps'); cbn [settled ps'];
        apply elem_of_app; now left.
  - split; [|exact Hpend]. split; cbn [fst snd].
    + exact Hinv'.
    + rewrite length_app. cbn [length]. lia.
    + intros Hp. rewrite length_app. cbn [length].
      cbn [pool_p ps'] in Hp. specialize (Hlive Hp). lia.
    + intros i Hi. apply elem_of_app in Hi as [Hi|Hi].
      * destruct (Hrej i Hi) as [Hin Hex]. split; [|exact Hex].
        cbn [settled ps']. apply elem_of_app. now left.
      * apply list_elem_of_singleton in Hi as ->. split.
        -- cbn [settled ps']. apply elem_of_app. right. left.
        -- exists it, (pool_st ps). done.
Qed.

Lemma turns_r_inv (n fuel turn : nat) (ps : rpool) :
  rpool_inv n ps ->
  rpool_inv n (turns_r fuel turn ps)
  /\ (pending ps.1 <= fuel -> flight (turns_r fuel turn ps).1 = []).
Proof.
  revert turn ps. induction fuel as [|fuel IH]; intros turn ps Hinv; simpl.
  - split; [done|]. unfold pending. intros H. apply length_zero_iff_nil. lia.
  - destruct (flight ps.1) as [|f fl] eqn:Hfl.
    + now rewrite Hfl.
    + rewrite <- Hfl.
      assert (sched turn mod length (flight ps.1) < length (flight ps.1))
        as Hk.
      { apply Nat.mod_upper_bound. rewrite Hfl. discriminate. }
      destruct (settle_r_inv n _ ps Hinv Hk) as (Hinv' & Hpend).
      destruct (IH (S turn) _ Hinv') as (H1 & H2).
      split; [done|]. intros Hp. apply H2. lia.
Qed.

Lemma spawn_rinv (n : nat) (s0 : St) :
  n <= length items -> rpool_inv n (spawn n s0, []).
Proof.
  intros Hn. destruct (spawn_inv items start n s0 Hn) as (Hinv & Hp & Hfl & Hse).
  split; cbn [fst snd length]; [done|lia|lia|].
  intros idx Hidx. inversion Hidx.
Qed.

(** Induction over the states of a pool whose worker function may reject. *)
Lemma pool_reach_r (P : pool (St := St) -> Prop) :
  (forall w ps, P ps -> P (take w ps)) ->
  (forall k w idx it ps,
      P ps -> flight ps !! k = Some (w, idx) -> items !! idx = Some it ->
      P (Pool (pool_p ps) (delete k (flight ps)) (started ps)
              (settled ps ++ [idx]) (finish it idx (pool_st ps)).1)) ->
  forall s0 n fuel turn,
    P (Pool 0 [] [] [] s0) -> P (turns_r fuel turn (spawn n s0, [])).1.
Proof.
  intros Htake Hfin s0 n fuel turn H0.
  assert (P (spawn n s0)) as Hsp.
  { induction n as [|n IH]; [exact H0|].
    rewrite (spawn_S items start). now apply Htake. }
  revert Hsp. generalize (spawn n s0). generalize (@nil nat). revert turn.
  induction fuel as [|fuel IH]; intros turn rej ps Hps; simpl; [assumption|].
  destruct (flight ps) as [|f fl] eqn:Hfl; [assumption|]. rewrite <- Hfl.
  unfold settle_r. cbn [fst snd].
  destruct (flight ps !! _) as [[w idx]|] eqn:Hk; [|now apply IH].
  destruct (items !! idx) as [it|] eqn:Hit; [|now apply IH].
  destruct (finish it idx (pool_st ps)).2.
  - apply IH, Htake. eapply Hfin; eassumption.
  - apply IH. eapply Hfin; eassumption.
Qed.

(** A component of the state that only [finish] changes is the fold of
    those changes in the order of completion. *)
Lemma settled_fold_r {X : Type} (f : St -> X) (g : T -> nat -> X -> X)
    (s0 : St) (n fuel turn : nat) :
  (forall it i s, f (start it i s) = f s) ->
  (forall it i s, f (finish it i s).1 = g it i (f s)) ->
  let r := (turns_r fuel turn (spawn n s0, [])).1 in
  f (pool_st r) =
    foldl (fun x idx => match items !! idx with
                        | Some it => g it idx x
                        | None => x
                        end) (f s0) (settled r).
Proof.
  intros Hs Hf. apply pool_reach_r; [| |reflexivity].
  - intros w ps IH. unfold take.
    destruct (items !! pool_p ps); [|assumption].
    simpl. now rewrite Hs.
  - intros k w idx it ps IH _ Hit. simpl. rewrite foldl_app. simpl.
    now rewrite Hit, Hf, IH.
Qed.

(** Symmetrically for a component that only [start] changes. *)
Lemma started_fold_r {X : Type} (f : St -> X) (g : T -> nat -> X -> X)
    (s0 : St) (n fuel turn : nat) :
  (forall it i s, f (start it i s) = g it i (f s)) ->
  (forall it i s, f (finish it i s).1 = f s) ->
  let r := (turns_r fuel turn (spawn n s0, [])).1 in
  f (pool_st r) =
    foldl (fun x idx => match items !! idx with
                        | Some it => g it idx x
                        | None => x
                        end) (f s0) (started r).
Proof.
  intros Hs Hf. apply pool_reach_r; [| |reflexivity].
  - intros w ps IH. unfold take.
    destruct (items !! pool_p ps) eqn:Hit; [|assumption].
    simpl. rewrite foldl_app. simpl. now rewrite Hit, Hs, IH.
  - intros k w idx it ps IH _ Hit. simpl. now rewrite Hf.
Qed.

(** With a worker function that never rejects the pool is the one of
    [withPool]. *)
Lemma turns_r_fulfilled (fuel turn : nat) (ps : pool (St := St)) :
  (forall it i s, (finish it i s).2 = true) ->
  turns_r fuel turn (ps, [])
  = (turns items start (fun it i s => (finish it i s).1) sched fuel turn ps,
     []).
Proof.
  intros Hok. revert turn ps.
  induction fuel as [|fuel IH]; intros turn ps; simpl; [done|].
  destruct (flight ps) as [|f fl] eqn:Hfl; [done|]. rewrite <- Hfl.
  rewrite <- IH. f_equal. unfold settle_r, settle. cbn [fst snd].
  destruct (flight ps !! _) as [[w idx]|]; [|done].
  destruct (items !! idx) as [it|]; [|done]. now rewrite Hok.
Qed.

Lemma turns_r_idle (fuel turn : nat) (ps : rpool (St := St)) :
  flight ps.1 = [] -> turns_r fuel turn ps = ps.
Proof. intros H. destruct fuel; simpl; [reflexivity | now rewrite H]. Qed.

(** The shape of a finished run. *)
Lemma withPool_r_shape (poolSize : number) (s0 : St) :
  let n := pool_width items poolSize in
  let r := withPool_r items start finish sched poolSize s0 in
  n <= length items
  /\ (forall fuel, rpool_inv n
                     (pool_after_r items start finish sched fuel poolSize s0))
  /\ flight r.1 = [].
Proof.
  intros n r.
  destruct (width_bounds poolSize (length items)) as (Hn & _).
  fold (pool_width items poolSize) in Hn. fold n in Hn.
  pose proof (spawn_rinv n s0 Hn) as Hinv.
  destruct (spawn_inv items start n s0 Hn) as (_ & Hp & Hfl & _).
  split_and!; [done| |].
  - intros fuel. now apply turns_r_inv.
  - apply (turns_r_inv n); [done|]. cbn [fst]. unfold pending.
    fold n. rewrite Hp, Hfl. lia.
Qed.

End PoolRejectingFacts.

(** ** Paths and file names *)

Lemma append_inj_r (d a b : string) : d +:+ a = d +:+ b -> a = b.
Proof. induction d as [|c d IH]; simpl; [done|]. intros [= H]. auto. Qed.

Lemma append_not_empty (a : string) (c : ascii) (b : string) :
  a +:+ String c b <> "".
Proof. destruct a; discriminate. Qed.

Lemma join_inj (d a b : string) : join d a = join d b -> a = b.
Proof. unfold join. intros H. now apply append_inj_r, append_inj_r in H. Qed.

Lemma join_truthy (d a : string) : path_truthy (Some (join d a)) = true.
Proof.
  simpl. apply negb_true_iff, String.eqb_neq. unfold join.
  destruct d; discriminate.
Qed.

Lemma newFileName_not_manifest (s : script) (e : env) :
  newFileName s e <> "manifest.json".
Proof. destruct s; discriminate. Qed.

Lemma newMapPath_not_manifest (s : script) (e : env) :
  newMapPath s e <> manifestPath s e.
Proof.
  intros H. apply join_inj in H. now apply newFileName_not_manifest in H.
Qed.

Lemma last_segment_not_empty (u f : string) :
  last_segment u = Some f -> f <> "".
Proof.
  unfold last_segment. intros H. apply last_Some_elem_of in H.
  now apply list_elem_of_filter in H as [H _].
Qed.

Lemma last_segment_truthy (u f : string) :
  last_segment u = Some f -> path_truthy (Some f) = true.
Proof.
  intros H. simpl. apply negb_true_iff, String.eqb_neq.
  eapply last_segment_not_empty, H.
Qed.

Lemma url_field_not_proto (s : script) : url_field s <> "__proto__".
Proof. now destruct s. Qed.

Lemma get_new_manifest (s : script) (e : env) (m : object) :
  get (VObj (new_manifest s e m)) (url_field s) = VStr (new_url s e).
Proof.
  unfold new_manifest. cbn [get].
  rewrite obj_get_set_eq by (left; apply url_field_not_proto). done.
Qed.

(** ** Dates, file names and urls *)

Lemma string_app_nil_l (b : string) : "" +:+ b = b.
Proof. reflexivity. Qed.

Lemma string_app_cons (x : ascii) (a b : string) :
  String x a +:+ b = String x (a +:+ b).
Proof. reflexivity. Qed.

(** Unfold the appends whose left operand starts with a known character. *)
Ltac app_simpl := rewrite ?string_app_cons, ?string_app_nil_l.
Ltac app_simpl_in H := rewrite ?string_app_cons, ?string_app_nil_l in H.

Lemma string_app_assoc (a b c : string) : (a +:+ b) +:+ c = a +:+ (b +:+ c).
Proof. induction a as [|x a IH]; app_simpl; [done|]. now f_equal. Qed.

Lemma string_app_length (a b : string) :
  String.length (a +:+ b) = String.length a + String.length b.
Proof. induction a as [|x a IH]; app_simpl; simpl; [done|]. now f_equal. Qed.

Lemma string_app_inj_l (a a' c : string) : a +:+ c = a' +:+ c -> a = a'.
Proof.
  revert a'. induction a as [|x a IH]; intros [|x' a'] H; app_simpl_in H.
  - done.
  - apply (f_equal String.length) in H. simpl in H.
    rewrite string_app_length in H. lia.
  - apply (f_equal String.length) in H. simpl in H.
    rewrite string_app_length in H. lia.
  - injection H as -> H. f_equal. now apply IH.
Qed.

Lemma lacks_app (c : ascii) (a b : string) :
  lacks c (a +:+ b) = lacks c a && lacks c b.
Proof.
  induction a as [|x a IH]; app_simpl; simpl; [done|].
  now rewrite IH, andb_assoc.
Qed.

(** Where a separator occurs in neither prefix, an equation between two
    separated strings splits at the separator. *)
Lemma app_sep_inj (c : ascii) (a a' b b' : string) :
  lacks c a = true -> lacks c a' = true ->
  a +:+ String c b = a' +:+ String c b' -> a = a' /\ b = b'.
Proof.
  revert a'. induction a as [|x a IH]; intros [|x' a'] Ha Ha' H;
    app_simpl_in H; simpl in Ha, Ha'.
  - now injection H as ->.
  - injection H as <- _. now rewrite Ascii.eqb_refl in Ha'.
  - injection H as -> _. now rewrite Ascii.eqb_refl in Ha.
  - injection H as -> H.
    apply andb_prop in Ha as [_ Ha]. apply andb_prop in Ha' as [_ Ha'].
    destruct (IH a' Ha Ha' H) as [-> ->]. done.
Qed.

Lemma pretty_N_char_digit (x : N) : is_digit (pretty_N_char x) = true.
Proof. unfold pretty_N_char. repeat case_match; reflexivity. Qed.

Lemma pretty_N_go_digits (x : N) (s : string) :
  digits_only s = true -> digits_only (pretty_N_go x s) = true.
Proof.
  revert s. induction (N.lt_wf_0 x) as [x _ IH]; intros s Hs.
  assert (x = 0 \/ 0 < x)%N as [->|Hx] by lia.
  - now rewrite pretty_N_go_0.
  - rewrite pretty_N_go_step by done. apply IH.
    + now apply N.div_lt.
    + simpl. now rewrite pretty_N_char_digit.
Qed.

Lemma pretty_N_digits (n : N) : digits_only (pretty n) = true.
Proof.
  unfold pretty, pretty_N. case_decide; [reflexivity|].
  now apply pretty_N_go_digits.
Qed.

Lemma padStart2_digits (s : string) :
  digits_only s = true -> digits_only (padStart2 s) = true.
Proof.
  intros H. unfold padStart2.
  destruct (String.length s) as [|[|n]]; [reflexivity| |exact H].
  simpl. exact H.
Qed.

Lemma digits_lack (c : ascii) (s : string) :
  is_digit c = false -> digits_only s = true -> lacks c s = true.
Proof.
  intros Hc. induction s as [|x s IH]; simpl; [done|].
  intros H. apply andb_prop in H as [Hx Hs]. rewrite (IH Hs), andb_true_r.
  apply negb_true_iff, Ascii.eqb_neq. intros ->. congruence.
Qed.

Lemma todayISO_lacks (c : ascii) (d : utc_date) :
  is_digit c = false -> c <> "-"%char -> lacks c (todayISO d) = true.
Proof.
  intros Hc Hd. unfold todayISO. cbv zeta.
  assert (lacks c "-" = true) as Hdash.
  { cbn [lacks]. rewrite andb_true_r.
    apply negb_true_iff, Ascii.eqb_neq. congruence. }
  rewrite !lacks_app, Hdash.
  rewrite !digits_lack; auto using pretty_N_digits, padStart2_digits.
Qed.

Lemma newFileName_lacks_slash (s : script) (e : env) :
  lacks "/" (newFileName s e) = true.
Proof.
  unfold newFileName. rewrite !lacks_app, todayISO_lacks by done.
  now destruct s.
Qed.

Lemma padStart2_pretty (n : N) :
  (n < 100)%N -> padStart2 (pretty n) = two_digits n.
Proof.
  intros H. destruct n as [|p]; [reflexivity|].
  do 7 (destruct p as [p|p|]; try lia; try reflexivity).
Qed.

Lemma two_digits_inj (n n' : N) :
  (n < 100)%N -> (n' < 100)%N -> two_digits n = two_digits n' -> n = n'.
Proof.
  intros Hn Hn' [= H1 H2].
  apply pretty_N_char_inj in H1;
    [|apply N.Div0.div_lt_upper_bound; lia..].
  apply pretty_N_char_inj in H2; [|apply N.mod_lt; lia..].
  rewrite (N.div_mod n 10), (N.div_mod n' 10) by lia. lia.
Qed.

Lemma split_slash_not_nil (u : string) : split_slash u <> [].
Proof.
  induction u as [|c u IH]; simpl; [done|].
  destruct (Ascii.eqb c "/"); [done|]. now destruct (split_slash u).
Qed.

Lemma split_slash_whole (f : string) :
  lacks "/" f = true -> split_slash f = [f].
Proof.
  induction f as [|c f IH]; simpl; [done|]. intros H.
  apply andb_prop in H as [Hc Hf]. apply negb_true_iff in Hc.
  now rewrite Hc, (IH Hf).
Qed.

Lemma split_slash_app (a f : string) :
  lacks "/" f = true ->
  split_slash (a +:+ "/" +:+ f) = split_slash a ++ [f].
Proof.
  intros Hf. induction a as [|c a IH]; [|app_simpl_in IH]; app_simpl; simpl.
  - now rewrite split_slash_whole.
  - rewrite IH. destruct (Ascii.eqb c "/"); [done|].
    pose proof (split_slash_not_nil a). now destruct (split_slash a).
Qed.

Lemma split_slash_lacks (u seg : string) :
  seg ∈ split_slash u -> lacks "/" seg = true.
Proof.
  revert seg. induction u as [|c u IH]; simpl; intros seg H.
  - apply list_elem_of_singleton in H as ->. reflexivity.
  - destruct (Ascii.eqb c "/") eqn:Hc.
    + apply elem_of_cons in H as [->|H]; [reflexivity|now apply IH].
    + pose proof (split_slash_not_nil u).
      destruct (split_slash u) as [|s0 segs]; [done|].
      apply elem_of_cons in H as [->|H].
      * simpl. rewrite Hc. simpl. apply IH. now left.
      * apply IH. now right.
Qed.

Lemma last_segment_app (a f : string) :
  f <> "" -> lacks "/" f = true -> last_segment (a +:+ "/" +:+ f) = Some f.
Proof.
  intros Hne Hf. unfold last_segment.
  rewrite split_slash_app, filter_app by done.
  rewrite (filter_cons _ f), decide_True by done. simpl. apply last_snoc.
Qed.

Lemma todayISO_inj (d d' : utc_date) :
  calendar_date d -> calendar_date d' -> todayISO d = todayISO d' -> d = d'.
Proof.
  intros [Hm Hd] [Hm' Hd'] H. unfold todayISO in H. cbv zeta in H.
  app_simpl_in H.
  apply app_sep_inj in H as [Hy H];
    [|apply digits_lack; [done|apply pretty_N_digits]..].
  apply app_sep_inj in H as [Hmm Hdd];
    [|apply digits_lack; [done|apply padStart2_digits, pretty_N_digits]..].
  apply (inj pretty) in Hy.
  rewrite !padStart2_pretty in Hmm by lia.
  rewrite !padStart2_pretty in Hdd by lia.
  apply two_digits_inj in Hmm; [|lia..].
  apply two_digits_inj in Hdd; [|lia..].
  destruct d, d'. simpl in *. f_equal; lia.
Qed.

(** X1. Two runs of a script compute the same new file name exactly when
    their clocks show the same UTC calendar date. *)
Theorem newFileName_same_iff_same_date (s : script) (e e' : env) :
  calendar_date (clock e) -> calendar_date (clock e') ->
  newFileName s e = newFileName s e' <-> clock e = clock e'.
Proof.
  intros Hc Hc'. split.
  - unfold newFileName. intros H. apply append_inj_r in H.
    apply string_app_inj_l in H. now apply todayISO_inj.
  - unfold newFileName. now intros ->.
Qed.

(** X2. The url a run writes into the manifest is read back, by the
    expressions that open the next run, as the name of the file the run
    wrote: the url field of the new manifest is the new url, its last
    non-empty segment is the new file name, and that name joined to the
    directory is the path the snapshot was written to. *)
Theorem new_url_names_new_file (s : script) (e : env) (m : object) :
  url_of s (VObj (new_manifest s e m)) = Some (new_url s e)
  /\ last_segment (new_url s e) = Some (newFileName s e)
  /\ join (base_dir s e) (newFileName s e) = newMapPath s e.
Proof.
  split_and!.
  - unfold url_of. rewrite get_new_manifest.
    assert (truthy (VStr (new_url s e)) = true) as ->; [|reflexivity].
    apply truthy_VStr. unfold new_url. now app_simpl.
  - unfold new_url.
    rewrite <- (string_app_assoc "/" (dir_name s)).
    apply last_segment_app; [|apply newFileName_lacks_slash].
    unfold newFileName. now destruct s.
  - reflexivity.
Qed.

Lemma last_segment_trailing (u : string) :
  last_segment (u +:+ "/") = last_segment u.
Proof.
  unfold last_segment. change (u +:+ "/") with (u +:+ "/" +:+ "").
  rewrite split_slash_app, filter_app by reflexivity.
  rewrite (filter_cons _ ""), decide_False by (intros H; now apply H).
  now rewrite filter_nil, app_nil_r.
Qed.

(** X3. [last_segment] gives back a file name put after a directory, also
    when the url ends in a separator: for a non-empty name without
    separator, the last segment of [a/f] and of [a/f/] is [f]. *)
Theorem last_segment_round_trip (a f : string) :
  f <> "" -> lacks "/" f = true ->
  last_segment (a +:+ "/" +:+ f) = Some f
  /\ last_segment (a +:+ "/" +:+ f +:+ "/") = Some f.
Proof.
  intros Hne Hf. split; [now apply last_segment_app|].
  replace (a +:+ "/" +:+ f +:+ "/") with ((a +:+ "/" +:+ f) +:+ "/")
    by (now rewrite !string_app_assoc).
  rewrite last_segment_trailing. now apply last_segment_app.
Qed.

Lemma split_slash_all_empty (u : string) :
  filter (fun seg => seg <> "") (split_slash u) = [] <-> only "/" u = true.
Proof.
  induction u as [|c u IH]; simpl.
  - rewrite filter_cons, decide_False by (intros H; now apply H). done.
  - destruct (Ascii.eqb c "/") eqn:Hc; simpl.
    + rewrite filter_cons, decide_False by (intros H; now apply H). exact IH.
    + pose proof (split_slash_not_nil u).
      destruct (split_slash u) as [|s0 segs]; [done|].
      rewrite filter_cons, decide_True by done. done.
Qed.

(** X4. [last_segment] finds no file name exactly in the urls made of
    separators only (the empty url among them); a name it finds is not
    empty and contains no separator. *)
Theorem last_segment_none_or_name (u : string) :
  match last_segment u with
  | None => only "/" u = true
  | Some f => f <> "" /\ lacks "/" f = true /\ only "/" u = false
  end.
Proof.
  destruct (last_segment u) as [f|] eqn:Hl.
  - split_and!.
    + eapply last_segment_not_empty, Hl.
    + unfold last_segment in Hl. apply last_Some_elem_of in Hl.
      apply list_elem_of_filter in Hl as [_ Hin].
      eapply split_slash_lacks, Hin.
    + destruct (only "/" u) eqn:Ho; [|done].
      apply split_slash_all_empty in Ho. unfold last_segment in Hl.
      rewrite Ho in Hl. discriminate Hl.
  - unfold last_segment in Hl. apply last_None in Hl.
    now apply split_slash_all_empty.
Qed.

(** ** The loaded state *)

Lemma existsSync_start (e : env) (path : string) :
  existsSync path (start_world e) = true <-> is_Some (files e !! path).
Proof. unfold existsSync. simpl. apply bool_decide_eq_true. Qed.

Lemma readJSON_start (e : env) (path : string) (doc : value) :
  readJSON path (start_world e) = Some doc <->
  files e !! path = Some (Json doc).
Proof.
  unfold readJSON. cbn [start_world w_fs].
  destruct (files e !! path) as [[d|]|]; split; congruence.
Qed.

(** A run that loads has read a manifest. *)
Lemma load_inr (s : script) (e : env) (ld : loaded) :
  load s e = inr ld ->
  exists mdoc,
    files e !! manifestPath s e = Some (Json mdoc)
    /\ match s with
       | Moves => load_moves e mdoc (start_world e)
       | _ => load_bootstrap s e mdoc (start_world e)
       end = inr ld.
Proof.
  unfold load.
  destruct (existsSync (manifestPath s e) (start_world e)); [|discriminate].
  cbn [negb].
  destruct (readJSON (manifestPath s e) (start_world e)) as [mdoc|] eqn:Hr;
    [|discriminate].
  apply readJSON_start in Hr. intros H. exists mdoc. done.
Qed.

Lemma load_bootstrap_wf (s : script) (e : env) (mdoc : value) (ld : loaded) :
  s <> Moves ->
  is_Some (files e !! manifestPath s e) ->
  load_bootstrap s e mdoc (start_world e) = inr ld ->
  loaded_wf s e ld.
Proof.
  intros Hs Hm. unfold load_bootstrap.
  destruct (url_of s (safeObj mdoc)) as [u|];
    [|intros [= <-]; split; simpl; done].
  destruct (path_truthy (Some u)); [|intros [= <-]; split; simpl; done].
  destruct (last_segment u) as [f|] eqn:Hf;
    [|intros [= <-]; split; simpl; done].
  rewrite (last_segment_truthy _ _ Hf).
  pose proof (last_segment_not_empty _ _ Hf) as Hne.
  destruct (_ && _).
  - destruct (readJSON _ _); [|discriminate].
    intros [= <-]; split; simpl; done.
  - intros [= <-]; split; simpl; done.
Qed.

Lemma load_wf (s : script) (e : env) (ld : loaded) :
  load s e = inr ld -> loaded_wf s e ld.
Proof.
  intros Hld. destruct (load_inr _ _ _ Hld) as (mdoc & Hm & H).
  assert (is_Some (files e !! manifestPath s e)) as Hex by (rewrite Hm; eauto).
  destruct s.
  - now apply (load_bootstrap_wf Ability e mdoc).
  - now apply (load_bootstrap_wf Pokemon e mdoc).
  - unfold load_moves in H.
    destruct (url_of Moves _) as [u|]; [|discriminate].
    destruct (negb (path_truthy (Some u))); [discriminate|].
    destruct (last_segment u) as [f|] eqn:Hf; [|discriminate].
    destruct (negb (path_truthy (Some f))); [discriminate|].
    destruct (negb (existsSync _ _)); [discriminate|].
    destruct (readJSON _ _); [|discriminate].
    injection H as <-. pose proof (last_segment_not_empty _ _ Hf).
    split; simpl; eauto.
Qed.

(** ** The pool stage of [main] *)

Lemma foldl_ext_eq {A B : Type} (f g : A -> B -> A) (a : A) (l : list B) :
  (forall x y, f x y = g x y) -> foldl f a l = foldl g a l.
Proof.
  intros H. revert a. induction l as [|b l IH]; intros a; simpl; [done|].
  now rewrite H, IH.
Qed.

Lemma emit_fold (s : script) (missing : list value) (l : list nat) (w : world) :
  foldl (fun w idx => match missing !! idx with
                      | Some name => emit (EvGet (detail_url s name)) w
                      | None => w
                      end) w l
  = World (w_fs w) (w_log w ++ detail_requests s missing l).
Proof.
  revert w. induction l as [|idx l IH]; intros w; simpl.
  - destruct w. simpl. now rewrite app_nil_r.
  - rewrite IH. unfold detail_requests. simpl.
    destruct (missing !! idx); simpl; [|done].
    now rewrite <- app_assoc.
Qed.

(** Whether an assignment into the working map throws depends on the kind
    of the map and on the key, and the kind does not change. *)
Lemma assign_again (m m' : value) (k k' : string) (v v' : value) :
  assign m k v = Some m' ->
  is_Some (assign m' k' v') <-> is_Some (assign m k' v').
Proof.
  destruct m as [| |b|n0|str|xs|kvs]; cbn [assign]; try discriminate.
  - destruct (String.eqb k "__proto__"); [|discriminate]. now intros [= <-].
  - destruct (String.eqb k "__proto__"); [|discriminate]. now intros [= <-].
  - destruct (String.eqb k "__proto__"); [|discriminate]. now intros [= <-].
  - destruct (String.eqb k "length"); [discriminate|].
    destruct (array_index k); intros [= <-]; cbn [assign];
      destruct (String.eqb k' "length"); try done;
      destruct (array_index k'); split; eauto.
  - intros [= <-]. cbn [assign]. split; eauto.
Qed.

Lemma assign_indep (m : value) (k : string) (v v' : value) :
  is_Some (assign m k v) <-> is_Some (assign m k v').
Proof.
  destruct m as [| |b|n0|str|xs|kvs]; cbn [assign]; try done;
    try (destruct (String.eqb k "__proto__"); done).
  destruct (String.eqb k "length"); [done|].
  destruct (array_index k); split; eauto.
Qed.

Lemma assigned_cons (s : script) (e : env) (missing : list value)
    (m : value) (idx : nat) (l : list nat) :
  assigned s e missing m (idx :: l)
  = assigned s e missing
      (match fetched s e missing idx with
       | Some (k, rec) => default m (assign m k rec)
       | None => m
       end) l.
Proof. reflexivity. Qed.

(** On an object no assignment throws: the map is [merged]. *)
Lemma assigned_obj (s : script) (e : env) (missing : list value)
    (m : object) (l : list nat) :
  assigned s e missing (VObj m) l = VObj (merged s e missing m l).
Proof.
  revert m. induction l as [|idx l IH]; intros m; [done|].
  rewrite assigned_cons. unfold merged. cbn [foldl].
  destruct (fetched s e missing idx) as [[k rec]|]; cbn [assign default];
    apply IH.
Qed.

Lemma adds_obj (s : script) (e : env) (missing : list value) (m : object)
    (idx : nat) :
  adds s e missing (VObj m) idx = true <-> is_Some (fetched s e missing idx).
Proof.
  unfold adds. destruct (fetched s e missing idx) as [[k rec]|].
  - cbn [assign]. rewrite bool_decide_eq_true. split; eauto.
  - split; [discriminate|]. now intros [? [=]].
Qed.

(** The map and the counter [added] after one more task completed. *)
Lemma stored_step (s : script) (e : env) (missing : list value)
    (map0 m : value) (n idx : nat) :
  (forall k v, is_Some (assign m k v) <-> is_Some (assign map0 k v)) ->
  match missing !! idx with
  | Some name =>
      match detail e idx with
      | Some doc =>
          match extract s name doc with
          | Some rec =>
              match assign m (js_String name) rec with
              | Some m' => (m', S n)
              | None => (m, n)
              end
          | None => (m, n)
          end
      | None => (m, n)
      end
  | None => (m, n)
  end
  = (match fetched s e missing idx with
     | Some (k, rec) => default m (assign m k rec)
     | None => m
     end,
     if adds s e missing map0 idx then S n else n).
Proof.
  intros Hm. unfold adds, fetched.
  destruct (missing !! idx) as [name|]; [|done].
  destruct (detail e idx) as [doc|]; [|done].
  destruct (extract s name doc) as [rec|]; [|done].
  destruct (assign m (js_String name) rec) as [m'|] eqn:Ha.
  - rewrite bool_decide_true by (apply Hm; rewrite Ha; eauto). done.
  - rewrite bool_decide_false; [done|].
    intros Hb. apply Hm in Hb. rewrite Ha in Hb. now destruct Hb.
Qed.

(** The map and the counter [added] after the tasks [l] completed. *)
Lemma stored_fold (s : script) (e : env) (missing : list value)
    (map0 : value) (l : list nat) (m : value) (n : nat) :
  (forall k v, is_Some (assign m k v) <-> is_Some (assign map0 k v)) ->
  foldl (fun (x : value * nat) idx =>
           match missing !! idx with
           | Some name =>
               match detail e idx with
               | Some doc =>
                   match extract s name doc with
                   | Some rec =>
                       match assign x.1 (js_String name) rec with
                       | Some m' => (m', S x.2)
                       | None => x
                       end
                   | None => x
                   end
               | None => x
               end
           | None => x
           end) (m, n) l
  = (assigned s e missing m l,
     n + length (filter (fun idx => adds s e missing map0 idx = true) l)).
Proof.
  revert m n. induction l as [|idx l IH]; intros m n Hm; cbn [foldl].
  - rewrite filter_nil. cbn. f_equal. lia.
  - cbn [fst snd]. rewrite (stored_step s e missing map0 m n idx Hm).
    rewrite assigned_cons, filter_cons, IH.
    + destruct (adds s e missing map0 idx); cbn [length].
      * rewrite decide_True by done. cbn [length]. f_equal. lia.
      * rewrite decide_False by done. done.
    + intros k v. destruct (fetched s e missing idx) as [[k0 rec]|]; [|apply Hm].
      destruct (assign m k0 rec) as [m'|] eqn:Ha; cbn [default]; [|apply Hm].
      rewrite (assign_again _ _ _ _ _ _ Ha). apply Hm.
Qed.

(** The ways a worker function ends: the request failed, the extraction or
    the assignment threw, or the record was stored. *)
Ltac worker_cases s e name idx :=
  unfold worker_finish, worker_catch;
  destruct (detail e idx) as [?doc|]; [|now destruct s];
  destruct (extract s name doc); [|now destruct s];
  destruct (assign _ _ _); [done|now destruct s].

Section PoolStage.

Variable s : script.
Variable e : env.
Variable missing : list value.
Variable map0 : value.
Variable w0 : world.

Let r := fetch_missing s e missing map0 w0.

Lemma pool_stage_stored :
  (rs_map (pool_st r), rs_added (pool_st r))
  = (assigned s e missing map0 (settled r),
     length (filter (fun idx => adds s e missing map0 idx = true)
                    (settled r))).
Proof.
  unfold r, fetch_missing, withPool, pool_after.
  rewrite (settled_fold missing (worker_start s) (worker_finish s e) (order e)
             (fun rs => (rs_map rs, rs_added rs))
             (fun name idx (x : value * nat) =>
                match detail e idx with
                | Some doc =>
                    match extract s name doc with
                    | Some rec =>
                        match assign x.1 (js_String name) rec with
                        | Some m' => (m', S x.2)
                        | None => x
                        end
                    | None => x
                    end
                | None => x
                end)).
  - cbn [rs_map rs_added]. apply (stored_fold s e missing map0 _ map0 0).
    done.
  - done.
  - intros name idx rs. unfold worker_finish, worker_catch. cbn [fst snd].
    destruct (detail e idx) as [doc|]; [|now destruct s].
    destruct (extract s name doc); [|now destruct s].
    destruct (assign _ _ _); [done|now destruct s].
Qed.

(** The working map is the prior map with the records of the completed
    tasks assigned, in completion order. *)
Lemma pool_stage_map :
  rs_map (pool_st r) = assigned s e missing map0 (settled r).
Proof. pose proof pool_stage_stored as H. now injection H. Qed.

(** The world only gains the detail requests, in the order the tasks were
    taken; no file is touched. *)
Lemma pool_stage_world :
  rs_world (pool_st r) =
    World (w_fs w0) (w_log w0 ++ detail_requests s missing (started r)).
Proof.
  unfold r, fetch_missing, withPool, pool_after.
  rewrite (started_fold missing (worker_start s) (worker_finish s e) (order e)
             rs_world (fun name idx w => emit (EvGet (detail_url s name)) w)).
  - apply emit_fold.
  - done.
  - intros name idx rs. worker_cases s e name idx.
Qed.

(** [added] counts the completed tasks that succeeded. *)
Lemma pool_stage_added :
  rs_added (pool_st r) =
    length (filter (fun idx => adds s e missing map0 idx = true) (settled r)).
Proof. pose proof pool_stage_stored as H. now injection H. Qed.

(** In the scripts that count failures, every completed task is counted
    once, as added or as failed. *)
Lemma pool_stage_counted :
  s <> Moves ->
  rs_added (pool_st r) + rs_failed (pool_st r) = length (settled r).
Proof.
  intros Hs. unfold r, fetch_missing, withPool, pool_after.
  apply (pool_reach missing (worker_start s) (worker_finish s e) (order e)
           (fun ps => rs_added (pool_st ps) + rs_failed (pool_st ps)
                      = length (settled ps))); [| |reflexivity].
  - intros w ps IH. unfold take. now destruct (missing !! pool_p ps).
  - intros k w idx it ps IH _ _. simpl. rewrite length_app. simpl.
    unfold worker_finish, worker_catch.
    destruct (detail e idx) as [doc|];
      [destruct (extract s it doc); [destruct (assign _ _ _)|]|];
      destruct s; simpl; try lia; done.
Qed.

(** The moves script keeps no count of failures. *)
Lemma pool_stage_moves_failed : s = Moves -> rs_failed (pool_st r) = 0.
Proof.
  intros ->. unfold r, fetch_missing, withPool, pool_after.
  apply (pool_reach missing (worker_start Moves) (worker_finish Moves e)
           (order e) (fun ps => rs_failed (pool_st ps) = 0)); [| |reflexivity].
  - intros w ps IH. unfold take. now destruct (missing !! pool_p ps).
  - intros k w idx it ps IH _ _. simpl.
    unfold worker_finish, worker_catch.
    destruct (detail e idx) as [doc|]; [|done].
    destruct (extract Moves it doc); [|done].
    now destruct (assign _ _ _).
Qed.

(** Which tasks were taken and completed. *)
Lemma pool_stage_tasks :
  started r = seq 0 (attempted e missing)
  /\ settled r ≡ₚ seq 0 (attempted e missing).
Proof.
  destruct (withPool_shape missing (worker_start s) (worker_finish s e)
              (order e) (POOL e) (RunState map0 0 0 w0)) as (_ & _ & _ & H).
  unfold attempted. fold (fetch_missing s e missing map0 w0) in H. fold r in H.
  destruct (at_least_one (POOL e)).
  - exact H.
  - destruct H as (-> & -> & _). done.
Qed.

End PoolStage.

(** ** C8: the pool attempts every item once, when it has a worker *)

(** C8 (as amended).  [withPool] starts [n] workers, [n] being at most
    [min(poolSize, items.length)], and never has more requests in flight
    than workers left.  It takes the items in list order, each once, and
    every item taken is completed once; the state the worker function closes
    over is what the calls made of it, in the order in which they were
    started and completed.  A call whose promise is rejected ends its
    worker, and the others go on: an item is left untaken only when each of
    the [n] workers ended on a rejection.  With a worker function that
    catches its failures, as those of the three scripts do (counting them,
    in the ability and pokemon scripts), no call is rejected; then, and with
    a pool size that is a number of at least one, every item is taken and
    completed exactly once, whichever requests fail.  With any other pool
    size (NaN, zero, a negative size, a fraction below one) [withPool] starts
    no worker, attempts no item and leaves the state as it was. *)
Theorem withPool_attempts {T St : Type} (items : list T)
    (start : T -> nat -> St -> St) (finish : T -> nat -> St -> St * bool)
    (sched : nat -> nat) (poolSize : number) (s0 : St) :
  let n := pool_width items poolSize in
  let r := withPool_r items start finish sched poolSize s0 in
  n <= length items
  /\ (forall fuel,
        let ps := pool_after_r items start finish sched fuel poolSize s0 in
        length (flight ps.1) + length ps.2 <= n)
  /\ flight r.1 = []
  /\ started r.1 = seq 0 (pool_p r.1)
  /\ pool_p r.1 <= length items
  /\ settled r.1 ≡ₚ started r.1
  /\ (forall idx, idx ∈ r.2 ->
        idx ∈ settled r.1
        /\ exists it st, items !! idx = Some it /\ (finish it idx st).2 = false)
  /\ (pool_p r.1 < length items -> length r.2 = n)
  /\ (forall (X : Type) (f : St -> X) (g : T -> nat -> X -> X),
        (forall it i s, f (start it i s) = f s) ->
        (forall it i s, f (finish it i s).1 = g it i (f s)) ->
        f (pool_st r.1) =
          foldl (fun x idx => match items !! idx with
                              | Some it => g it idx x
                              | None => x
                              end) (f s0) (settled r.1))
  /\ (forall (X : Type) (f : St -> X) (g : T -> nat -> X -> X),
        (forall it i s, f (start it i s) = g it i (f s)) ->
        (forall it i s, f (finish it i s).1 = f s) ->
        f (pool_st r.1) =
          foldl (fun x idx => match items !! idx with
                              | Some it => g it idx x
                              | None => x
                              end) (f s0) (started r.1))
  /\ ((forall it i s, (finish it i s).2 = true) ->
      r = (withPool items start (fun it i s => (finish it i s).1) sched
                    poolSize s0, []))
  /\ (if at_least_one poolSize
      then (1 <= length items -> 1 <= n)
           /\ match poolSize with
              | NFin q => (Z.of_nat n <= Qfloor q)%Z
              | _ => True
              end
           /\ (r.2 = [] ->
               started r.1 = seq 0 (length items)
               /\ settled r.1 ≡ₚ seq 0 (length items))
      else n = 0 /\ started r.1 = [] /\ settled r.1 = [] /\ r.2 = []
           /\ pool_st r.1 = s0)
  /\ (forall (s : script) (e : env) (missing : list value) (map : value)
             (w : world),
        let fm := fetch_missing s e missing map w in
        withPool_r missing (worker_start s)
                   (fun name idx rs => (worker_finish s e name idx rs, true))
                   (order e) (POOL e) (RunState map 0 0 w)
        = (fm, [])
        /\ started fm = seq 0 (attempted e missing)
        /\ settled fm ≡ₚ started fm
        /\ (s <> Moves ->
            rs_added (pool_st fm) + rs_failed (pool_st fm)
            = attempted e missing)).
Proof.
  intros n r.
  destruct (withPool_r_shape items start finish sched poolSize s0)
    as (Hn & Hinv & Hfl).
  destruct (width_bounds poolSize (length items)) as (_ & Hge & H0 & Hq).
  fold (pool_width items poolSize) in Hge, H0, Hq.
  fold n in Hn, Hinv, Hge, H0, Hq. fold r in Hfl.
  pose proof (Hinv (length items)) as [[Hs Hb Hp] Hslots Hlive Hrej].
  fold (withPool_r items start finish sched poolSize s0) in Hs, Hb, Hp,
    Hslots, Hlive, Hrej.
  fold r in Hs, Hb, Hp, Hslots, Hlive, Hrej.
  rewrite Hfl in Hp, Hlive. cbn [fmap list_fmap app length] in Hp, Hlive.
  split_and!; try assumption.
  - intros fuel ps. apply (Hinv fuel).
  - intros X f g H1 H2. apply settled_fold_r; assumption.
  - intros X f g H1 H2. apply started_fold_r; assumption.
  - intros Hok. unfold r, withPool_r, pool_after_r.
    now rewrite turns_r_fulfilled.
  - destruct (at_least_one poolSize) eqn:Hal.
    + split_and!.
      * intros Hl. now apply Hge.
      * destruct poolSize as [q| | |]; try exact I. now apply Hq.
      * intros Hnil.
        assert (pool_p r.1 = length items) as Hpr.
        { destruct (decide (pool_p r.1 < length items)) as [Hlt|Hge'];
            [|lia].
          specialize (Hlive Hlt). rewrite Hnil in Hlive. cbn in Hlive.
          assert (1 <= n) by (apply Hge; [reflexivity|lia]). lia. }
        rewrite <- Hpr, <- Hs. done.
    + specialize (H0 eq_refl).
      assert (r = (Pool 0 [] [] [] s0, [])) as ->; [|done].
      unfold r, withPool_r, pool_after_r. fold n. rewrite H0.
      now apply turns_r_idle.
  - intros s e missing map w fm.
    destruct (pool_stage_tasks s e missing map w) as [Hst Hse].
    pose proof (pool_stage_counted s e missing map w) as Hcnt.
    cbv zeta in Hcnt. fold fm in Hst, Hse, Hcnt. split_and!.
    + unfold withPool_r, pool_after_r. now rewrite turns_r_fulfilled.
    + exact Hst.
    + now rewrite Hst.
    + intros Hne. rewrite (Hcnt Hne), Hse. apply length_seq.
Qed.

(** ** The stages of [main] *)

Lemma publish_world (s : script) (e : env) (ld : loaded) (map : value)
    (log : list event) :
  loaded_wf s e ld ->
  publish s e ld map (World (files e) log) =
    World (publish_files s e ld map) (log ++ publish_log s e ld map).
Proof.
  intros [Hm _ Hold Hmv].
  unfold publish, publish_files, publish_log, retired, retire_old, writeJSON.
  cbn [w_fs w_log]. rewrite <- (app_assoc log). cbn [app].
  set (fs2 := <[manifestPath s e := _]> (<[newMapPath s e := _]> (files e))).
  set (log2 := [EvWrite _ _; EvWrite _ _]).
  destruct (oldFileName ld) as [f|] eqn:Hf.
  - destruct Hold as [Hne ->].
    assert (path_truthy (Some f) = true) as ->.
    { cbn. now apply negb_true_iff, String.eqb_neq. }
    destruct (decide (f = newFileName s e)) as [Heq|Hneq].
    + rewrite bool_decide_eq_true_2 by congruence.
      rewrite decide_False by (intros [? _]; done).
      rewrite ?app_nil_r. now destruct s.
    + rewrite bool_decide_eq_false_2 by congruence.
      assert (is_Some (fs2 !! join (base_dir s e) f)
              <-> is_Some (files e !! join (base_dir s e) f)) as Hex.
      { unfold fs2.
        destruct (decide (manifestPath s e = join (base_dir s e) f))
          as [Heq|Hd].
        - rewrite <- Heq, lookup_insert_eq. split; eauto.
        - rewrite lookup_insert_ne by done.
          rewrite lookup_insert_ne; [done|].
          intros Heq. apply join_inj in Heq. congruence. }
      assert (match s with
              | Moves => safeUnlink_moves
              | _ => safeUnlink
              end (Some (join (base_dir s e) f)) (World fs2 (log ++ log2))
              = if bool_decide (is_Some (fs2 !! join (base_dir s e) f))
                then unlinkSync (join (base_dir s e) f)
                       (World fs2 (log ++ log2))
                else World fs2 (log ++ log2)) as Hun.
      { destruct s; unfold safeUnlink, safeUnlink_moves;
          rewrite ?join_truthy; reflexivity. }
      destruct s; cbn [andb negb]; rewrite Hun; clear Hun;
        (case_bool_decide as Hex'; rewrite Hex in Hex';
         [ rewrite decide_True by done
         | rewrite decide_False by (intros [_ ?]; done) ];
         unfold unlinkSync; cbn [w_fs w_log];
         rewrite <- ?app_assoc, ?app_nil_r; done).
  - rewrite Hold, ?app_nil_r. destruct s; cbn; done.
Qed.

(** A run that passes the count check, gets a listing and finds something
    missing publishes what its pool stage produced. *)
Lemma main_reaches_publish (s : script) (e : env) (ld : loaded)
    (head lst : value) :
  load s e = inr ld ->
  probe e = Some head ->
  count_not_grown s (getCountFromListResponse head) (size (knownKeys ld))
    = false ->
  listing e = Some lst ->
  missing_of lst (knownKeys ld) <> [] ->
  let missing := missing_of lst (knownKeys ld) in
  let r := fetch_missing s e missing (prior ld) (listed_world s e) in
  main s e =
    Result (Published (rs_added (pool_st r)) (rs_failed (pool_st r)))
           (World (publish_files s e ld (rs_map (pool_st r)))
                  ([EvGet (probe_url s); EvGet (listing_url s)]
                   ++ detail_requests s missing (started r)
                   ++ publish_log s e ld (rs_map (pool_st r)))).
Proof.
  intros Hld Hp Hc Hl Hmiss missing r. subst r missing.
  unfold main, sync, getJson. rewrite Hld, Hp, Hc, Hl.
  change (emit _ (emit _ (start_world e))) with (listed_world s e).
  destruct (missing_of lst (knownKeys ld)) as [|m0 ms]; [done|].
  f_equal. rewrite pool_stage_world. cbn [listed_world w_fs w_log].
  rewrite (publish_world _ _ _ _ _ (load_wf _ _ _ Hld)).
  now rewrite <- app_assoc.
Qed.

(** Conversely, only such runs publish. *)
Lemma main_published (s : script) (e : env) (a f : nat) :
  outcome_of (main s e) = Published a f ->
  exists ld head lst,
    load s e = inr ld
    /\ probe e = Some head
    /\ count_not_grown s (getCountFromListResponse head)
         (size (knownKeys ld)) = false
    /\ listing e = Some lst
    /\ missing_of lst (knownKeys ld) <> [].
Proof.
  unfold main, sync, getJson.
  destruct (load s e) as [err|ld]; [discriminate|].
  destruct (probe e) as [head|]; [|discriminate].
  destruct (count_not_grown _ _ _) eqn:Hc; [discriminate|].
  destruct (listing e) as [lst|]; [|discriminate].
  destruct (missing_of lst (knownKeys ld)) eqn:Hm; [discriminate|].
  intros _. exists ld, head, lst. rewrite Hm. done.
Qed.

(** ** Replaying a log *)



(** A file stays as long as no event of the log unlinks it. *)
Lemma replay_keeps (l : list event) (fs : gmap string file) (path : string) :
  is_Some (fs !! path) ->
  (forall ev, ev ∈ l -> ev <> EvUnlink path) ->
  is_Some (replay l fs !! path).
Proof.
  revert fs. induction l as [|ev l IH]; intros fs Hfs H; [done|].
  simpl. apply IH.
  - destruct ev as [url|path' doc|path']; simpl; [done| |].
    + destruct (decide (path' = path)) as [->|Hne].
      * rewrite lookup_insert_eq. eauto.
      * now rewrite lookup_insert_ne.
    + rewrite lookup_delete_ne; [done|].
      intros ->. now apply (H (EvUnlink path)); [left|].
  - intros ev' Hin. apply H. now right.
Qed.



Lemma detail_requests_gets (s : script) (missing : list value)
    (idxs : list nat) (ev : event) :
  ev ∈ detail_requests s missing idxs -> exists url, ev = EvGet url.
Proof.
  unfold detail_requests. intros H. apply list_elem_of_omap in H as (idx & _ & H).
  destruct (missing !! idx); [|discriminate]. injection H as <-. eauto.
Qed.

Lemma retired_path (s : script) (e : env) (ld : loaded) (path : string) :
  retired s e ld = Some path <->
  exists o, oldFileName ld = Some o /\ o <> newFileName s e
            /\ path = join (base_dir s e) o /\ is_Some (files e !! path).
Proof.
  unfold retired. destruct (oldFileName ld) as [f|].
  - case_decide as H.
    + split.
      * intros [= <-]. exists f. destruct H. done.
      * intros (o & [= <-] & _ & -> & _). done.
    + split; [discriminate|]. intros (o & [= <-] & ? & -> & ?).
      exfalso. apply H. done.
  - split; [discriminate|]. intros (o & [=] & _).
Qed.

Lemma retired_not_new (s : script) (e : env) (ld : loaded) (path : string) :
  retired s e ld = Some path -> path <> newMapPath s e.
Proof.
  intros H. apply retired_path in H as (o & _ & Hne & -> & _).
  intros Heq. now apply join_inj in Heq.
Qed.

Lemma publish_files_new (s : script) (e : env) (ld : loaded) (map : value) :
  publish_files s e ld map !! newMapPath s e
  = Some (Json (json_roundtrip map)).
Proof.
  unfold publish_files.
  assert (forall fs : gmap string file,
             <[manifestPath s e :=
                 Json (json_roundtrip (repoint s e (manifest ld)))]>
               (<[newMapPath s e := Json (json_roundtrip map)]> fs)
             !! newMapPath s e = Some (Json (json_roundtrip map))) as H.
  { intros fs. rewrite lookup_insert_ne.
    - apply lookup_insert_eq.
    - intros Heq. symmetry in Heq. now apply newMapPath_not_manifest in Heq. }
  destruct (retired s e ld) as [path|] eqn:Hr; [|apply H].
  rewrite lookup_delete_ne; [apply H|].
  now apply retired_not_new in Hr.
Qed.


(** ** Stored documents *)

Lemma json_roundtrip_VObj (m : object) :
  json_roundtrip (VObj m) = VObj (stored_props m).
Proof. reflexivity. Qed.

Lemma stored_props_cons (k : string) (v : value) (m : object) :
  stored_props ((k, v) :: m)
  = match v with
    | VUndef => stored_props m
    | _ => (k, json_roundtrip v) :: stored_props m
    end.
Proof. destruct v; reflexivity. Qed.

Lemma stored_props_get (m : object) (k : string) (v : value) :
  obj_get m k = Some v -> v <> VUndef ->
  obj_get (stored_props m) k = Some (json_roundtrip v).
Proof.
  induction m as [|[k0 v0] m IH]; [done|].
  rewrite stored_props_cons. cbn [obj_get].
  destruct (String.eqb k0 k) eqn:E.
  - intros [= ->] Hv. destruct v; [done|..]; cbn [obj_get]; now rewrite E.
  - intros H Hv.
    destruct v0; [now apply IH|..]; cbn [obj_get]; rewrite E; now apply IH.
Qed.

Lemma stored_props_keys (m : object) (k : string) :
  k ∈ obj_keys (stored_props m) -> k ∈ obj_keys m.
Proof.
  unfold obj_keys. induction m as [|[k0 v0] m IH]; [done|].
  rewrite stored_props_cons. cbn [map fst]. rewrite elem_of_cons.
  destruct v0; [intros H; right; now apply IH|..];
    cbn [map fst]; rewrite elem_of_cons;
    (intros [->|H]; [now left|right; now apply IH]).
Qed.

Lemma new_url_last_segment (s : script) (e : env) :
  last_segment (new_url s e) = Some (newFileName s e).
Proof.
  unfold new_url. rewrite <- (string_app_assoc "/" (dir_name s)).
  apply last_segment_app; [|apply newFileName_lacks_slash].
  unfold newFileName. now destruct s.
Qed.

Lemma new_url_truthy (s : script) (e : env) :
  path_truthy (Some (new_url s e)) = true.
Proof.
  cbn [path_truthy]. apply negb_true_iff, String.eqb_neq.
  unfold new_url. now app_simpl.
Qed.

(** The url of the manifest a run stores, as the next run reads it. *)
Lemma stored_manifest_url (s : script) (e : env) (m : object) :
  url_of s (json_roundtrip (VObj (new_manifest s e m))) = Some (new_url s e).
Proof.
  rewrite json_roundtrip_VObj. unfold url_of. cbn [get truthy andb].
  rewrite (stored_props_get _ _ (VStr (new_url s e))); [| |done].
  - change (json_roundtrip (VStr (new_url s e))) with (VStr (new_url s e)).
    cbn [default from_option id js_String].
    pose proof (new_url_truthy s e) as H. cbn [path_truthy] in H.
    cbn [truthy]. now rewrite H.
  - unfold new_manifest.
    apply obj_get_set_eq. left. apply url_field_not_proto.
Qed.

(** The manifest of a run is an object, or in the ability and pokemon
    scripts an array. *)
Lemma load_manifest_kind (s : script) (e : env) (ld : loaded) :
  load s e = inr ld ->
  (exists m, manifest ld = VObj m)
  \/ (s <> Moves /\ exists xs, manifest ld = VArr xs).
Proof.
  intros Hld. destruct (load_inr _ _ _ Hld) as (mdoc & _ & H).
  assert (forall w ld',
            load_bootstrap s e mdoc w = inr ld' ->
            manifest ld' = safeObj mdoc) as Hb.
  { intros w ld'. unfold load_bootstrap.
    repeat (case_match; try discriminate); now intros [= <-]. }
  assert ((exists m, safeObj mdoc = VObj m)
          \/ exists xs, safeObj mdoc = VArr xs) as Hk
    by (destruct mdoc; cbn; eauto).
  destruct s.
  - rewrite (Hb _ _ H). destruct Hk as [?|?]; [now left|right; done].
  - rewrite (Hb _ _ H). destruct Hk as [?|?]; [now left|right; done].
  - left. unfold load_moves in H.
    destruct (url_of Moves mdoc) as [u|] eqn:Hu; [|discriminate].
    assert (exists m, mdoc = VObj m) as [m ->].
    { unfold url_of in Hu. destruct mdoc; cbn in Hu;
        rewrite ?andb_false_r in Hu; try discriminate. eauto. }
    repeat (case_match; try discriminate). injection H as <-. eauto.
Qed.


(** ** C3: the snapshot is written before the manifest *)


(** ** C6: retiring the old snapshot file *)

(** C6. In every publishing run the old snapshot file is unlinked exactly
    when the manifest named a previous file, that name differs from the new
    file name, and the file is there; after the run a file under the
    previous name is gone if and only if that name differs from the new
    one.  When the two names are equal nothing is unlinked, and the one
    file of that name holds the snapshot just written. *)
Theorem old_snapshot_retired (s : script) (e : env) (a f : nat) :
  outcome_of (main s e) = Published a f ->
  exists ld snap,
    load s e = inr ld
    /\ (forall path,
          EvUnlink path ∈ w_log (final (main s e)) <->
          exists o, oldFileName ld = Some o /\ o <> newFileName s e
                    /\ path = join (base_dir s e) o
                    /\ is_Some (files e !! path))
    /\ (forall o, oldFileName ld = Some o ->
          w_fs (final (main s e)) !! join (base_dir s e) o = None
          <-> o <> newFileName s e)
    /\ (oldFileName ld = Some (newFileName s e) ->
          forall path, EvUnlink path ∉ w_log (final (main s e)))
    /\ EvWrite (newMapPath s e) snap ∈ w_log (final (main s e))
    /\ w_fs (final (main s e)) !! newMapPath s e
       = Some (Json (json_roundtrip snap)).
Proof.
  intros Hpub.
  destruct (main_published s e a f Hpub) as (ld & head & lst & H1 & H2 & H3 & H4 & H5).
  rewrite (main_reaches_publish s e ld head lst H1 H2 H3 H4 H5).
  cbn [final w_log w_fs].
  set (missing := missing_of lst (knownKeys ld)).
  set (r := fetch_missing s e missing (prior ld) (listed_world s e)).
  set (map := rs_map (pool_st r)).
  exists ld, map.
  assert (Hunl : forall path,
    EvUnlink path ∈ ([EvGet (probe_url s); EvGet (listing_url s)]
                     ++ detail_requests s missing (started r)
                     ++ publish_log s e ld map)%list
    <-> retired s e ld = Some path).
  { intros path. rewrite !elem_of_app. split.
    - intros [Hin|[Hin|Hin]].
      + apply list_elem_of_In in Hin. simpl in Hin.
        destruct Hin as [[=]|[[=]|[]]].
      + apply detail_requests_gets in Hin as [url [=]].
      + unfold publish_log in Hin. apply elem_of_app in Hin as [Hin|Hin].
        * apply list_elem_of_In in Hin. simpl in Hin.
          destruct Hin as [[=]|[[=]|[]]].
        * destruct (retired s e ld); [|inversion Hin].
          apply list_elem_of_singleton in Hin. congruence.
    - intros Hr. right. right. unfold publish_log. rewrite Hr.
      apply elem_of_app. right. now left. }
  split_and!.
  - done.
  - intros path. rewrite Hunl. apply retired_path.
  - intros o Ho. split.
    + intros Hnone ->. fold (newMapPath s e) in Hnone.
      rewrite publish_files_new in Hnone. discriminate Hnone.
    + intros Hne. unfold publish_files.
      destruct (retired s e ld) as [path|] eqn:Hr.
      * apply retired_path in Hr as (o' & Ho' & _ & -> & _).
        rewrite Ho in Ho'. injection Ho' as <-. apply lookup_delete_eq.
      * assert (files e !! join (base_dir s e) o = None) as Hno.
        { apply eq_None_not_Some. intros Hex.
          assert (retired s e ld = Some (join (base_dir s e) o)) as Hr'.
          { apply retired_path. exists o. done. }
          congruence. }
        rewrite lookup_insert_ne.
        -- rewrite lookup_insert_ne; [done|].
           intros Heq. apply join_inj in Heq. congruence.
        -- intros Heq. rewrite <- Heq in Hno.
           destruct (wf_manifest _ _ _ (load_wf _ _ _ H1)) as [? Hm].
           congruence.
  - intros Ho path Hin. apply Hunl, retired_path in Hin as (o & Ho' & Hne & _).
    congruence.
  - rewrite !elem_of_app. right. right. unfold publish_log.
    apply elem_of_app. left. now left.
  - apply publish_files_new.
Qed.

(** ** C4: the count check *)

Lemma main_count_not_grown (s : script) (e : env) (ld : loaded) (head : value) :
  load s e = inr ld ->
  probe e = Some head ->
  count_not_grown s (getCountFromListResponse head) (size (knownKeys ld))
    = true ->
  main s e = Result CountNotGrown (World (files e) [EvGet (probe_url s)]).
Proof.
  intros Hld Hp Hc. unfold main, sync, getJson. now rewrite Hld, Hp, Hc.
Qed.

Lemma main_proceeds (s : script) (e : env) (ld : loaded) (head : value) :
  load s e = inr ld ->
  probe e = Some head ->
  count_not_grown s (getCountFromListResponse head) (size (knownKeys ld))
    = false ->
  outcome_of (main s e) <> CountNotGrown
  /\ exists rest,
      w_log (final (main s e))
      = EvGet (probe_url s) :: EvGet (listing_url s) :: rest.
Proof.
  intros Hld Hp Hc.
  destruct (listing e) as [lst|] eqn:Hl.
  - destruct (decide (missing_of lst (knownKeys ld) = [])) as [Hm|Hm].
    + unfold main, sync, getJson. rewrite Hld, Hp, Hc, Hl, Hm. cbn.
      split; [done|]. now exists [].
    + rewrite (main_reaches_publish s e ld head lst Hld Hp Hc Hl Hm). cbn.
      split; [done|]. eauto.
  - unfold main, sync, getJson. rewrite Hld, Hp, Hc, Hl. cbn.
    split; [done|]. now exists [].
Qed.

(** C4 (as amended). Once the previous state is loaded and the probe has
    answered: the ability and pokemon scripts stop exactly when the known
    keys are not empty, the count is known, and it is at most their number;
    the moves script, which has no bootstrap test, stops exactly when the
    count is known and at most the number of known keys, empty or not.  A
    run that stops has made the probe request only and leaves every file as
    it was; every other run goes on to request the full listing. *)
Theorem count_check_rule (s : script) (e : env) (ld : loaded) (head : value) :
  load s e = inr ld ->
  probe e = Some head ->
  let apiCount := getCountFromListResponse head in
  let localCount := size (knownKeys ld) in
  let stops :=
    match s with
    | Moves => not_null apiCount && js_le apiCount localCount
    | _ => Nat.ltb 0 localCount && not_null apiCount
           && js_le apiCount localCount
    end in
  if stops
  then main s e = Result CountNotGrown (World (files e) [EvGet (probe_url s)])
  else outcome_of (main s e) <> CountNotGrown
       /\ exists rest,
           w_log (final (main s e))
           = EvGet (probe_url s) :: EvGet (listing_url s) :: rest.
Proof.
  intros Hld Hp apiCount localCount stops.
  assert (count_not_grown s apiCount localCount = stops) as Hs.
  { unfold count_not_grown, stops. destruct s; try reflexivity;
      now destruct localCount. }
  destruct stops.
  - now apply (main_count_not_grown s e ld head).
  - now apply (main_proceeds s e ld head).
Qed.

(** ** C5: bootstrap *)



(** ** C10: a pool without a worker *)





(** ** C2: what a publishing run publishes *)

Section Merged.

Variable s : script.
Variable e : env.
Variable missing : list value.

Lemma merged_cons (m : object) (idx : nat) (l : list nat) :
  merged s e missing m (idx :: l)
  = merged s e missing
      (match fetched s e missing idx with
       | Some (k, rec) => obj_set m k rec
       | None => m
       end) l.
Proof. reflexivity. Qed.

(** Every entry of the merged map comes from the map merged into or from a
    task that succeeded. *)
Lemma merged_lookup_inv (m : object) (l : list nat) (k : string) (v : value) :
  obj_get (merged s e missing m l) k = Some v ->
  obj_get m k = Some v
  \/ exists idx, idx ∈ l /\ fetched s e missing idx = Some (k, v).
Proof.
  revert m. induction l as [|idx l IH]; intros m H; [now left|].
  rewrite merged_cons in H. apply IH in H as [H|(idx' & Hin & Hf)].
  - destruct (fetched s e missing idx) as [[k' rec]|] eqn:Hf; [|now left].
    apply obj_get_set_inv in H as [[-> ->]|H]; [|now left].
    right. exists idx. split; [left|done].
  - right. exists idx'. split; [now right|done].
Qed.

(** A key no task wrote keeps its entry. *)
Lemma merged_lookup_other (m : object) (l : list nat) (k : string) :
  (forall idx v, idx ∈ l -> fetched s e missing idx <> Some (k, v)) ->
  obj_get (merged s e missing m l) k = obj_get m k.
Proof.
  revert m. induction l as [|idx l IH]; intros m H; [done|].
  rewrite merged_cons, IH.
  - destruct (fetched s e missing idx) as [[k' rec]|] eqn:Hf; [|done].
    apply obj_get_set_ne. intros ->. eapply H; [left|done].
  - intros idx' v Hin. apply H. now right.
Qed.

(** A key written by exactly one task holds that task's record, unless
    the key is "__proto__". *)
Lemma merged_lookup_in (m : object) (l : list nat) (idx : nat) (k : string)
    (v : value) :
  k <> "__proto__" ->
  idx ∈ l ->
  fetched s e missing idx = Some (k, v) ->
  (forall idx' v', idx' ∈ l -> idx' <> idx ->
                   fetched s e missing idx' <> Some (k, v')) ->
  obj_get (merged s e missing m l) k = Some v.
Proof.
  intros Hk. revert m. induction l as [|i l IH]; intros m Hin Hf Hothers;
    [inversion Hin|].
  rewrite merged_cons.
  destruct (decide (idx ∈ l)) as [Hl|Hl].
  - apply IH; [done|done|]. intros idx' v' Hin'. apply Hothers. now right.
  - apply elem_of_cons in Hin as [<-|Hin]; [|done].
    rewrite merged_lookup_other.
    + rewrite Hf. apply obj_get_set_eq. now left.
    + intros idx' v' Hin'. apply Hothers; [now right|]. now intros ->.
Qed.

(** No task creates a property "__proto__". *)
Lemma merged_proto (m : object) (l : list nat) :
  obj_get m "__proto__" = None ->
  obj_get (merged s e missing m l) "__proto__" = None.
Proof.
  revert m. induction l as [|i l IH]; intros m Hm; [done|].
  rewrite merged_cons. apply IH.
  destruct (fetched s e missing i) as [[k rec]|]; [|done].
  destruct (decide (k = "__proto__")) as [->|Hk].
  - now rewrite obj_set_proto.
  - now rewrite obj_get_set_ne.
Qed.

Lemma fetched_key (idx : nat) (k : string) (v : value) :
  fetched s e missing idx = Some (k, v) ->
  exists name, missing !! idx = Some name /\ k = js_String name.
Proof.
  unfold fetched. destruct (missing !! idx) as [name|]; [|discriminate].
  destruct (detail e idx) as [doc|]; [|discriminate].
  destruct (extract s name doc); [|discriminate].
  intros [= <- _]. eauto.
Qed.

End Merged.

Lemma missing_not_known (lst : value) (K : gset string) (n : string) :
  VStr n ∈ missing_of lst K -> n ∉ K.
Proof.
  unfold missing_of. rewrite find_missing_filter, list_elem_of_filter.
  intros [[_ H] _]. simpl in H. now apply bool_decide_eq_false in H.
Qed.

(** C2 (as amended). A publishing run writes the working map as the new
    snapshot, and [added] counts the tasks whose request, extraction and
    assignment succeeded (in the ability and pokemon scripts
    [added + failed] is the number of tasks attempted).  When the prior
    snapshot is an object, so is the map written: no assignment fails,
    every entry of the map was in the prior snapshot or was fetched and
    extracted by a task of this run, and no task creates an entry
    "__proto__".  When moreover the names scheduled are pairwise distinct
    strings other than "__proto__", the map is exactly the prior snapshot
    plus one entry per successful task under its own name: every prior
    entry is kept, every successful task's record is there, and the name of
    every failed task is absent. *)
Theorem published_snapshot_is_prior_plus_fetched (s : script) (e : env)
    (a f : nat) :
  outcome_of (main s e) = Published a f ->
  exists ld lst snap,
    load s e = inr ld /\ listing e = Some lst /\
    let missing := missing_of lst (knownKeys ld) in
    let M := attempted e missing in
    EvWrite (newMapPath s e) snap ∈ w_log (final (main s e))
    /\ w_fs (final (main s e)) !! newMapPath s e
       = Some (Json (json_roundtrip snap))
    /\ a = length (filter (fun idx => adds s e missing (prior ld) idx = true)
                          (seq 0 M))
    /\ (s <> Moves -> a + f = M)
    /\ forall m0, prior ld = VObj m0 ->
       exists m,
         snap = VObj m
         /\ a = length (filter (fun idx => is_Some (fetched s e missing idx))
                               (seq 0 M))
         /\ (forall k v,
               obj_get m k = Some v ->
               obj_get m0 k = Some v
               \/ exists idx, idx < M /\ fetched s e missing idx = Some (k, v))
         /\ (obj_get m0 "__proto__" = None -> obj_get m "__proto__" = None)
         /\ (Forall (fun name => exists n, name = VStr n /\ n <> "__proto__")
                    missing ->
             NoDup missing ->
             (forall k v, obj_get m0 k = Some v -> obj_get m k = Some v)
             /\ (forall idx k v,
                   idx < M -> fetched s e missing idx = Some (k, v) ->
                   obj_get m k = Some v)
             /\ (forall idx n,
                   idx < M -> missing !! idx = Some (VStr n) ->
                   fetched s e missing idx = None ->
                   obj_get m n = None)).
Proof.
  intros Hpub.
  destruct (main_published s e a f Hpub) as (ld & head & lst & H1 & H2 & H3 & H4 & H5).
  pose proof Hpub as Hout.
  rewrite (main_reaches_publish s e ld head lst H1 H2 H3 H4 H5) in Hout |- *.
  cbn [final w_log w_fs outcome_of] in Hout |- *.
  set (missing := missing_of lst (knownKeys ld)) in *.
  set (r := fetch_missing s e missing (prior ld) (listed_world s e)) in *.
  injection Hout as Ha Hf.
  destruct (pool_stage_tasks s e missing (prior ld) (listed_world s e))
    as [Hst Hse]. fold r in Hst, Hse.
  pose proof (pool_stage_map s e missing (prior ld) (listed_world s e)) as Hmap.
  pose proof (pool_stage_added s e missing (prior ld) (listed_world s e)) as Hadd.
  pose proof (pool_stage_counted s e missing (prior ld) (listed_world s e))
    as Hcnt.
  cbv zeta in Hmap, Hadd, Hcnt. fold r in Hmap, Hadd, Hcnt.
  set (M := attempted e missing) in *.
  assert (Hin : forall idx, idx ∈ settled r <-> idx < M).
  { intros idx. rewrite Hse, elem_of_seq. lia. }
  assert (Hnd : NoDup (settled r)).
  { rewrite Hse. apply NoDup_seq. }
  exists ld, lst, (rs_map (pool_st r)). split_and!; try done.
  - rewrite !elem_of_app. right. right. unfold publish_log.
    apply elem_of_app. left. now left.
  - apply publish_files_new.
  - rewrite <- Ha, Hadd. now rewrite Hse.
  - intros Hs. rewrite <- Ha, <- Hf, (Hcnt Hs), Hse. apply length_seq.
  - intros m0 Hm0. rewrite Hm0 in Hmap, Hadd. rewrite assigned_obj in Hmap.
    exists (merged s e missing m0 (settled r)). fold missing. fold M.
    split_and!; [done| | | |].
    + rewrite <- Ha, Hadd, <- Hse. f_equal. apply list_filter_iff.
      intros idx. apply adds_obj.
    + intros k v Hk.
      apply merged_lookup_inv in Hk as [Hk|(idx & Hidx & Hfe)]; [now left|].
      right. exists idx. split; [now apply Hin|done].
    + apply merged_proto.
    + intros Hstr Hdis.
      assert (Hfresh : forall idx n, missing !! idx = Some (VStr n) ->
                                     obj_get m0 n = None).
      { intros idx n Hl. apply obj_get_None_keys.
        assert (n ∉ knownKeys ld) as Hn.
        { eapply missing_not_known, list_elem_of_lookup_2, Hl. }
        rewrite (wf_keys _ _ _ (load_wf _ _ _ H1)), Hm0 in Hn.
        intros Hk. apply Hn. now apply elem_of_list_to_set. }
      assert (Hkey : forall idx k v, fetched s e missing idx = Some (k, v) ->
                       missing !! idx = Some (VStr k) /\ k <> "__proto__").
      { intros idx k v Hfe.
        apply fetched_key in Hfe as (name & Hl & ->).
        rewrite Forall_forall in Hstr.
        destruct (Hstr name) as (n & -> & Hn);
          [eapply list_elem_of_lookup_2, Hl|].
        done. }
      assert (Huniq : forall idx idx' k v v',
                fetched s e missing idx = Some (k, v) ->
                fetched s e missing idx' = Some (k, v') -> idx' = idx).
      { intros idx idx' k v v' Hfe Hfe'.
        apply Hkey in Hfe as [Hfe _]. apply Hkey in Hfe' as [Hfe' _].
        eapply NoDup_lookup; eassumption. }
      split_and!.
      * intros k v Hk. rewrite merged_lookup_other; [done|].
        intros idx v' _ Hfe. apply Hkey in Hfe as [Hfe _].
        apply Hfresh in Hfe. congruence.
      * intros idx k v Hidx Hfe.
        apply (merged_lookup_in s e missing _ _ idx);
          [eapply Hkey, Hfe|now apply Hin|done|].
        intros idx' v' _ Hne Hfe'. apply Hne. eapply Huniq; eassumption.
      * intros idx n Hidx Hl Hnone. rewrite merged_lookup_other.
        -- eapply Hfresh, Hl.
        -- intros idx' v' _ Hfe'. pose proof (Hkey _ _ _ Hfe') as [Hl' _].
           assert (idx' = idx) as -> by (eapply NoDup_lookup; eassumption).
           fold missing in Hnone. congruence.
Qed.

(** ** C9: the display name *)


Lemma get_is_str_truthy (v : value) (k str : string) :
  is_str (get v k) str = true -> truthy v = true.
Proof. destruct v; simpl; try discriminate; reflexivity. Qed.

Lemma get_truthy (v : value) (k : string) :
  truthy (get v k) = true -> truthy v = true.
Proof. destruct v; simpl; try discriminate; reflexivity. Qed.


(** The name a list gives in a language is unique. *)
Lemma localized_unique (lang : string) (names : list value)
    (nm : option value) :
  localized lang names nm -> nm = first_named lang names.
Proof.
  revert nm. induction names as [|n names IH]; intros nm H.
  - destruct nm as [v|]; [|done].
    destruct H as (before & n & rest & Heq & _). now destruct before.
  - cbn [first_named]. fold (names_entry lang n).
    destruct nm as [v|]; cbn [localized] in H.
    + destruct H as (before & n' & rest & Heq & Hb & Hn & ->).
      destruct before as [|b before]; simplify_eq/=.
      * now rewrite Hn.
      * apply Forall_cons in Hb as [Hb1 Hb2]. rewrite Hb1.
        apply IH. exists before, n', rest. done.
    + apply Forall_cons in H as [H1 H2]. rewrite H1. now apply IH.
Qed.




(** ** Runs that do not publish *)

Lemma load_error_kinds (s : script) (e : env) (err : fatal) :
  load s e = inl err ->
  (err = NoManifest /\ files e !! manifestPath s e = None)
  \/ (exists path, err = BadJson path /\ files e !! path = Some NotJson)
  \/ (s = Moves /\ is_Some (files e !! manifestPath s e)
      /\ match err with
         | NoMovesUrl | NoFileName | NoCurrentFile _ => True
         | _ => False
         end).
Proof.
  assert (Hread : forall p, existsSync p (start_world e) = true ->
                    readJSON p (start_world e) = None ->
                    files e !! p = Some NotJson).
  { intros p Hex. apply existsSync_start in Hex as [f Hf].
    unfold readJSON. cbn [w_fs start_world]. rewrite Hf.
    now destruct f. }
  unfold load.
  destruct (existsSync (manifestPath s e) (start_world e)) eqn:Hm; cbn [negb].
  - destruct (readJSON (manifestPath s e) (start_world e)) as [mdoc|] eqn:Hr.
    + pose proof Hm as Hm'. apply existsSync_start in Hm'.
      destruct s.
      * unfold load_bootstrap. intros H.
        repeat (case_match; simplify_eq; try done).
        right. left. eexists. split; [done|]. apply Hread; [|done].
        repeat match goal with
               | H : _ && _ = true |- _ => apply andb_prop in H as [? ?]
               end. done.
      * unfold load_bootstrap. intros H.
        repeat (case_match; simplify_eq; try done).
        right. left. eexists. split; [done|]. apply Hread; [|done].
        repeat match goal with
               | H : _ && _ = true |- _ => apply andb_prop in H as [? ?]
               end. done.
      * unfold load_moves. intros H.
        repeat (case_match; simplify_eq; try done);
          try (right; right; split_and!; done).
        right. left. eexists. split; [done|]. apply Hread; [|done].
        now apply negb_false_iff.
    + intros [= <-]. right. left. eexists. split; [done|]. now apply Hread.
  - intros [= <-]. left. split; [done|].
    apply eq_None_not_Some. intros Hs. apply existsSync_start in Hs.
    congruence.
Qed.

(** X5. A run that does not publish leaves every file as it was, and its
    log tells how far it got: a fatal error while loading makes no request;
    a failed probe or a count that has not grown stops after the probe; a
    failed listing or an empty diff stops after the listing. *)
Theorem unpublished_run_changes_nothing (s : script) (e : env) :
  match outcome_of (main s e) with
  | Published _ _ => True
  | Threw (HttpError url) =>
      w_fs (final (main s e)) = files e
      /\ ((url = probe_url s /\ probe e = None
           /\ w_log (final (main s e)) = [EvGet (probe_url s)])
          \/ (url = listing_url s /\ listing e = None
              /\ w_log (final (main s e))
                 = [EvGet (probe_url s); EvGet (listing_url s)]))
  | Threw _ =>
      w_fs (final (main s e)) = files e /\ w_log (final (main s e)) = []
  | CountNotGrown =>
      w_fs (final (main s e)) = files e
      /\ w_log (final (main s e)) = [EvGet (probe_url s)]
  | NothingMissing =>
      w_fs (final (main s e)) = files e
      /\ w_log (final (main s e))
         = [EvGet (probe_url s); EvGet (listing_url s)]
  end.
Proof.
  unfold main. destruct (load s e) as [err|ld] eqn:Hld.
  - cbn.
    apply load_error_kinds in Hld as [[-> _]|[(path & -> & _)|(_ & _ & Herr)]];
      [done|done|].
    destruct err; done.
  - unfold sync, getJson.
    destruct (probe e) as [head|] eqn:Hp; [|cbn; split; [done|]; left; done].
    destruct (count_not_grown _ _ _); [done|].
    destruct (listing e) as [lst|] eqn:Hl; [|cbn; split; [done|]; right; done].
    destruct (missing_of lst (knownKeys ld)); done.
Qed.


(** ** What a publishing run leaves behind *)

Lemma load_manifest (s : script) (e : env) (ld : loaded) (mdoc : value) :
  load s e = inr ld ->
  files e !! manifestPath s e = Some (Json mdoc) ->
  manifest ld = match s with Moves => mdoc | _ => safeObj mdoc end.
Proof.
  intros Hld Hm. destruct (load_inr _ _ _ Hld) as (mdoc' & Hm' & H).
  rewrite Hm in Hm'. injection Hm' as <-.
  assert (forall w ld',
            load_bootstrap s e mdoc w = inr ld' ->
            manifest ld' = safeObj mdoc) as Hb.
  { intros w ld'. unfold load_bootstrap.
    repeat (case_match; try discriminate); now intros [= <-]. }
  destruct s; [exact (Hb _ _ H)..|].
  unfold load_moves in H.
  repeat (case_match; try discriminate). now injection H as <-.
Qed.

Lemma main_publish_files (s : script) (e : env) (ld : loaded) (a f : nat) :
  load s e = inr ld ->
  outcome_of (main s e) = Published a f ->
  exists (lst : value) (idxs : list nat),
    listing e = Some lst
    /\ missing_of lst (knownKeys ld) <> []
    /\ idxs ≡ₚ seq 0 (attempted e (missing_of lst (knownKeys ld)))
    /\ a = length (filter (fun idx =>
                     adds s e (missing_of lst (knownKeys ld)) (prior ld) idx
                     = true)
                     idxs)
    /\ (s <> Moves -> a + f = length idxs)
    /\ final (main s e) =
         World (publish_files s e ld
                  (assigned s e (missing_of lst (knownKeys ld)) (prior ld)
                     idxs))
               ([EvGet (probe_url s); EvGet (listing_url s)]
                ++ detail_requests s (missing_of lst (knownKeys ld))
                     (seq 0 (attempted e (missing_of lst (knownKeys ld))))
                ++ publish_log s e ld
                     (assigned s e (missing_of lst (knownKeys ld)) (prior ld)
                        idxs)).
Proof.
  intros Hld Hpub.
  destruct (main_published _ _ _ _ Hpub)
    as (ld' & head & lst & Hld' & Hp & Hc & Hl & Hmiss).
  rewrite Hld in Hld'. injection Hld' as <-.
  pose proof (main_reaches_publish s e ld head lst Hld Hp Hc Hl Hmiss) as Hmain.
  cbv zeta in Hmain. rewrite Hmain in Hpub |- *. cbn in Hpub. cbn [final].
  set (missing := missing_of lst (knownKeys ld)) in *.
  set (r := fetch_missing s e missing (prior ld) (listed_world s e)) in *.
  pose proof (pool_stage_tasks s e missing (prior ld) (listed_world s e))
    as [Hst Hse].
  pose proof (pool_stage_map s e missing (prior ld) (listed_world s e)) as Hmap.
  pose proof (pool_stage_added s e missing (prior ld) (listed_world s e)) as Ha.
  pose proof (pool_stage_counted s e missing (prior ld) (listed_world s e))
    as Hcnt.
  cbv zeta in Hst, Hse, Hmap, Ha, Hcnt. fold r in Hst, Hse, Hmap, Ha, Hcnt.
  injection Hpub as <- <-.
  exists lst, (settled r). rewrite Hmap, Hst. split_and!; try done.
Qed.

(** X7. A publishing run touches three paths at most: the new snapshot
    file, the manifest and the old snapshot file.  Every other file is left
    as it was, the new snapshot file is there afterwards, and no file other
    than the new snapshot appears. *)
Theorem publishing_run_frame (s : script) (e : env) (ld : loaded)
    (a f : nat) :
  load s e = inr ld ->
  outcome_of (main s e) = Published a f ->
  (forall path,
     path <> newMapPath s e -> path <> manifestPath s e ->
     oldMapPath ld <> Some path ->
     w_fs (final (main s e)) !! path = files e !! path)
  /\ is_Some (w_fs (final (main s e)) !! newMapPath s e)
  /\ dom (w_fs (final (main s e))) ⊆ dom (files e) ∪ {[newMapPath s e]}.
Proof.
  intros Hld Hpub.
  destruct (main_publish_files _ _ _ _ _ Hld Hpub)
    as (lst & idxs & _ & _ & _ & _ & _ & ->).
  cbn [final w_fs]. pose proof (load_wf _ _ _ Hld) as [Hm _ Hold _].
  set (snap := assigned _ _ _ _ _).
  assert (forall path, retired s e ld = Some path -> oldMapPath ld = Some path)
    as Hret.
  { intros path Hr. apply retired_path in Hr as (o & Ho & _ & -> & _).
    rewrite Ho in Hold. now destruct Hold. }
  split_and!.
  - intros path Hn Hmf Ho. unfold publish_files.
    destruct (retired s e ld) as [p|] eqn:Hr.
    + rewrite lookup_delete_ne by (intros ->; now apply Ho, Hret).
      now rewrite !lookup_insert_ne.
    + now rewrite !lookup_insert_ne.
  - rewrite publish_files_new. done.
  - intros path Hin. apply elem_of_dom in Hin.
    destruct (decide (path = newMapPath s e)) as [->|Hn]; [set_solver|].
    apply elem_of_union_l, elem_of_dom.
    destruct (decide (path = manifestPath s e)) as [->|Hmf]; [done|].
    unfold publish_files in Hin.
    destruct (retired s e ld) as [p|].
    + destruct (decide (p = path)) as [->|Hp].
      * rewrite lookup_delete_eq in Hin. now destruct Hin.
      * now rewrite lookup_delete_ne, !lookup_insert_ne in Hin.
    + now rewrite !lookup_insert_ne in Hin.
Qed.

(** X8. The manifest a publishing run writes is the manifest it read with
    two fields set, the version to the date of the day and the url to the
    new file; every other field is carried over unchanged.  A manifest
    document that is not an object counts as one without fields, except an
    array, which the ability and pokemon scripts write back as it is. *)
Theorem manifest_update_keeps_other_fields (s : script) (e : env)
    (mdoc : value) (a f : nat) :
  files e !! manifestPath s e = Some (Json mdoc) ->
  outcome_of (main s e) = Published a f ->
  exists man : value,
    EvWrite (manifestPath s e) man ∈ w_log (final (main s e))
    /\ if isArray mdoc then s <> Moves /\ man = mdoc
       else exists m : object,
         man = VObj m
         /\ obj_get m "version" = Some (VStr (todayISO (clock e)))
         /\ obj_get m (url_field s) = Some (VStr (new_url s e))
         /\ forall k, k <> "version" -> k <> url_field s ->
              obj_get m k = obj_get (props_of mdoc) k.
Proof.
  intros Hm Hpub.
  destruct (main_published _ _ _ _ Hpub) as (ld & _ & _ & Hld & _).
  destruct (main_publish_files _ _ _ _ _ Hld Hpub)
    as (lst & idxs & _ & _ & _ & _ & _ & ->).
  pose proof (load_manifest _ _ _ _ Hld Hm) as Hman.
  pose proof (load_manifest_kind _ _ _ Hld) as Hkind.
  exists (repoint s e (manifest ld)). cbn [final w_log]. split.
  { unfold publish_log. rewrite !elem_of_app. right. right. left.
    rewrite !elem_of_cons. right. now left. }
  assert (Hfields : forall m0 : object,
            obj_get (new_manifest s e m0) "version"
              = Some (VStr (todayISO (clock e)))
            /\ obj_get (new_manifest s e m0) (url_field s)
               = Some (VStr (new_url s e))
            /\ forall k, k <> "version" -> k <> url_field s ->
                 obj_get (new_manifest s e m0) k = obj_get m0 k).
  { intros m0. unfold new_manifest. split_and!.
    - rewrite obj_get_set_ne by (destruct s; done).
      apply obj_get_set_eq. now left.
    - apply obj_get_set_eq. left. apply url_field_not_proto.
    - intros k Hv Hu. now rewrite !obj_get_set_ne. }
  destruct s.
  1,2: rewrite Hman;
       destruct mdoc as [| | | | |xs|m0];
       cbn [safeObj isArray repoint props_of];
       [| | | | |done|];
       (eexists; split; [reflexivity|]; apply Hfields).
  destruct Hkind as [[m Hk]|[Hk _]]; [|done]. rewrite Hman in Hk.
  rewrite Hman, Hk. cbn [isArray repoint props_of].
  eexists; split; [reflexivity|]; apply Hfields.
Qed.



(** ** From one run to the next *)

Lemma extract_defined (s : script) (name doc rec : value) :
  extract s name doc = Some rec -> rec <> VUndef.
Proof.
  unfold extract. destruct s.
  - now intros [= <-].
  - destruct (if truthy doc && truthy (get doc "types") then _ else _);
      try discriminate. now intros [= <-].
  - now intros [= <-].
Qed.

Lemma fetched_defined (s : script) (e : env) (missing : list value)
    (idx : nat) (k : string) (v : value) :
  fetched s e missing idx = Some (k, v) -> v <> VUndef.
Proof.
  unfold fetched. destruct (missing !! idx) as [name|]; [|discriminate].
  destruct (detail e idx) as [doc|]; [|discriminate].
  destruct (extract s name doc) as [rec|] eqn:Hx; [|discriminate].
  intros [= _ <-]. eapply extract_defined, Hx.
Qed.

Lemma merged_lookup_some (s : script) (e : env) (missing : list value)
    (m : object) (l : list nat) (k : string) :
  is_Some (obj_get m k)
  \/ (k <> "__proto__"
      /\ exists idx v, idx ∈ l /\ fetched s e missing idx = Some (k, v)) ->
  is_Some (obj_get (merged s e missing m l) k).
Proof.
  revert m. induction l as [|i l IH]; intros m H.
  - destruct H as [H|(_ & idx & v & Hin & _)]; [done|inversion Hin].
  - rewrite merged_cons. apply IH.
    destruct H as [H|(Hk & idx & v & Hin & Hf)].
    + left. destruct (fetched s e missing i) as [[k' rec]|]; [|done].
      destruct (decide (k' = k)) as [->|Hne].
      * rewrite obj_get_set_eq by now right. eauto.
      * now rewrite obj_get_set_ne.
    + apply elem_of_cons in Hin as [->|Hin].
      * left. rewrite Hf, obj_get_set_eq by now left. eauto.
      * right. eauto.
Qed.

Lemma base_dir_cwd (s : script) (e e' : env) :
  cwd e' = cwd e -> base_dir s e' = base_dir s e.
Proof. unfold base_dir. now intros ->. Qed.

(** The next run finds the manifest and the snapshot file a publishing run
    left, unless that run removed the manifest as its old snapshot. *)
Lemma load_after_publish (s : script) (e e' : env) (ld : loaded)
    (m snap : object) :
  manifest ld = VObj m ->
  oldFileName ld <> Some "manifest.json" ->
  cwd e' = cwd e ->
  files e' = publish_files s e ld (VObj snap) ->
  load s e' = inr (loaded_after s e ld snap).
Proof.
  intros Hobj Hold Hcwd Hfiles.
  pose proof (base_dir_cwd s e e' Hcwd) as Hb.
  assert (files e' !! manifestPath s e'
          = Some (Json (VObj (stored_props (new_manifest s e m))))) as Hman.
  { unfold manifestPath. rewrite Hb, Hfiles. unfold publish_files.
    fold (manifestPath s e). rewrite Hobj. cbn [repoint].
    rewrite json_roundtrip_VObj.
    destruct (retired s e ld) as [p|] eqn:Hr.
    - rewrite lookup_delete_ne; [apply lookup_insert_eq|].
      apply retired_path in Hr as (o & Ho & _ & -> & _).
      intros Heq. apply join_inj in Heq. congruence.
    - apply lookup_insert_eq. }
  assert (files e' !! join (base_dir s e') (newFileName s e)
          = Some (Json (VObj (stored_props snap)))) as Hnew.
  { rewrite Hb, Hfiles. apply publish_files_new. }
  pose proof (stored_manifest_url s e m) as Hurl.
  rewrite json_roundtrip_VObj in Hurl.
  pose proof (new_url_last_segment s e) as Hseg.
  pose proof (last_segment_truthy _ _ Hseg) as Hft.
  pose proof (new_url_truthy s e) as Hut.
  unfold load, existsSync, readJSON. cbn [start_world w_fs]. rewrite Hman.
  rewrite bool_decide_true by eauto. cbn [negb].
  unfold loaded_after, newMapPath. rewrite <- Hb, Hobj. cbn [props_of].
  destruct s.
  - unfold load_bootstrap. cbn [safeObj]. rewrite Hurl, Hut, Hseg, Hft.
    unfold existsSync, readJSON. cbn [w_fs start_world]. rewrite Hnew.
    rewrite join_truthy, bool_decide_true by eauto. reflexivity.
  - unfold load_bootstrap. cbn [safeObj]. rewrite Hurl, Hut, Hseg, Hft.
    unfold existsSync, readJSON. cbn [w_fs start_world]. rewrite Hnew.
    rewrite join_truthy, bool_decide_true by eauto. reflexivity.
  - unfold load_moves. rewrite Hurl, Hut, Hseg, Hft.
    unfold existsSync, readJSON. cbn [w_fs start_world negb]. rewrite Hnew.
    rewrite bool_decide_true by eauto. reflexivity.
Qed.

(** A run whose manifest and prior snapshot are objects publishes the
    object [merged]. *)
Lemma main_publish_objects (s : script) (e : env) (ld : loaded)
    (m0 : object) (a f : nat) :
  load s e = inr ld ->
  prior ld = VObj m0 ->
  outcome_of (main s e) = Published a f ->
  exists (lst : value) (idxs : list nat),
    listing e = Some lst
    /\ idxs ≡ₚ seq 0 (attempted e (missing_of lst (knownKeys ld)))
    /\ a = length (filter (fun idx =>
                     is_Some (fetched s e (missing_of lst (knownKeys ld)) idx))
                     idxs)
    /\ final (main s e) =
         World (publish_files s e ld
                  (VObj (merged s e (missing_of lst (knownKeys ld)) m0 idxs)))
               ([EvGet (probe_url s); EvGet (listing_url s)]
                ++ detail_requests s (missing_of lst (knownKeys ld))
                     (seq 0 (attempted e (missing_of lst (knownKeys ld))))
                ++ publish_log s e ld
                     (VObj (merged s e (missing_of lst (knownKeys ld)) m0
                              idxs))).
Proof.
  intros Hld Hm0 Hpub.
  destruct (main_publish_files _ _ _ _ _ Hld Hpub)
    as (lst & idxs & Hl & _ & Hperm & Ha & _ & Hfin).
  exists lst, idxs. rewrite Hm0, assigned_obj in Hfin.
  split_and!; [done|done| |done].
  rewrite Ha, Hm0. f_equal. apply list_filter_iff. intros idx. apply adds_obj.
Qed.

Lemma filter_all_length {A : Type} (P : A -> Prop)
    `{!forall x, Decision (P x)} (l : list A) :
  length (filter P l) = length l -> Forall P l.
Proof.
  induction l as [|x l IH]; [constructor|]. rewrite filter_cons.
  pose proof (length_filter P l) as Hle. case_decide; cbn [length].
  - intros [= H']. constructor; auto.
  - intros H'. lia.
Qed.

Lemma find_missing_nil (L : list value) (K : gset string) :
  (forall r, r ∈ L -> truthy (entry_name r) = true ->
             has K (entry_name r) = true) ->
  find_missing L K = [].
Proof.
  induction L as [|r L IH]; intros H; [done|]. cbn [find_missing].
  destruct (truthy (entry_name r)) eqn:Ht; cbn [andb].
  - rewrite (H r) by (done || left). cbn [negb].
    apply IH. intros r' Hr'. apply H. now right.
  - apply IH. intros r' Hr'. apply H. now right.
Qed.

(** X10. When the manifest and the prior snapshot of a publishing run are
    JSON objects and the url of the manifest did not name the manifest file
    itself, the next run, started in the same directory on the files that
    run left, loads what it published: its old file is the file the run
    wrote, its map is the stored snapshot, every key the run wrote with a
    defined value is among its known keys, and no other key is.  (A manifest
    whose url named the manifest file itself is X11.) *)
Theorem next_run_loads_published (s : script) (e e' : env) (ld : loaded)
    (m m0 : object) (a f : nat) :
  load s e = inr ld ->
  manifest ld = VObj m ->
  prior ld = VObj m0 ->
  outcome_of (main s e) = Published a f ->
  oldFileName ld <> Some "manifest.json" ->
  cwd e' = cwd e ->
  files e' = w_fs (final (main s e)) ->
  exists (snap : object) (ld' : loaded),
    EvWrite (newMapPath s e) (VObj snap) ∈ w_log (final (main s e))
    /\ load s e' = inr ld'
    /\ oldFileName ld' = Some (newFileName s e)
    /\ oldMapPath ld' = Some (newMapPath s e)
    /\ files e' !! newMapPath s e = Some (Json (prior ld'))
    /\ prior ld' = VObj (stored_props snap)
    /\ (forall k v, obj_get snap k = Some v -> v <> VUndef ->
          k ∈ knownKeys ld'
          /\ obj_get (props_of (prior ld')) k = Some (json_roundtrip v))
    /\ (forall k, k ∈ knownKeys ld' -> is_Some (obj_get snap k)).
Proof.
  intros Hld Hobj Hm0 Hpub Hold Hcwd Hfiles.
  destruct (main_publish_objects _ _ _ _ _ _ Hld Hm0 Hpub)
    as (lst & idxs & _ & _ & _ & Hfin).
  rewrite Hfin in Hfiles |- *. cbn [final w_fs w_log] in Hfiles |- *.
  set (snap := merged s e (missing_of lst (knownKeys ld)) m0 idxs) in *.
  exists snap, (loaded_after s e ld snap). split_and!.
  - unfold publish_log. rewrite !elem_of_app. right. right. left. left.
  - now apply (load_after_publish s e e' ld m).
  - done.
  - done.
  - rewrite Hfiles. apply publish_files_new.
  - done.
  - intros k v Hk Hv. pose proof (stored_props_get _ _ _ Hk Hv) as Hg.
    split; [|exact Hg].
    cbn [loaded_after knownKeys].
    apply elem_of_list_to_set, obj_get_Some_keys. eauto.
  - intros k Hk. cbn [loaded_after knownKeys] in Hk.
    apply elem_of_list_to_set, stored_props_keys in Hk.
    now apply obj_get_Some_keys.
Qed.

(** X11. When the url of the manifest names the manifest file itself, a
    publishing run takes the manifest for its old snapshot and removes it
    after having rewritten it; the next run then stops on the missing
    manifest. *)
Theorem manifest_named_as_snapshot_is_removed (s : script) (e : env)
    (ld : loaded) (a f : nat) :
  load s e = inr ld ->
  oldFileName ld = Some "manifest.json" ->
  outcome_of (main s e) = Published a f ->
  last (w_log (final (main s e))) = Some (EvUnlink (manifestPath s e))
  /\ w_fs (final (main s e)) !! manifestPath s e = None
  /\ forall e', cwd e' = cwd e -> files e' = w_fs (final (main s e)) ->
       main s e' = Result (Threw NoManifest) (start_world e').
Proof.
  intros Hld Hold Hpub.
  destruct (main_publish_files _ _ _ _ _ Hld Hpub)
    as (lst & idxs & _ & _ & _ & _ & _ & ->).
  cbn [final w_fs w_log].
  assert (retired s e ld = Some (manifestPath s e)) as Hr.
  { apply retired_path. exists "manifest.json". split_and!; [done| |done|].
    - intros H. symmetry in H. now apply newFileName_not_manifest in H.
    - apply (wf_manifest _ _ _ (load_wf _ _ _ Hld)). }
  assert (forall snap,
             publish_files s e ld snap !! manifestPath s e = None) as Hgone.
  { intros snap. unfold publish_files. rewrite Hr. apply lookup_delete_eq. }
  split_and!.
  - unfold publish_log. rewrite Hr, !app_assoc. apply last_snoc.
  - apply Hgone.
  - intros e' Hcwd Hfiles. unfold main, load, existsSync.
    cbn [start_world w_fs]. unfold manifestPath.
    rewrite (base_dir_cwd s e e' Hcwd), Hfiles. fold (manifestPath s e).
    rewrite Hgone. rewrite bool_decide_false by (intros [? [=]]). done.
Qed.

(** X12. After a run that fetched every name it found missing, a second
    run on the files it left and on the same listing publishes nothing and
    changes no file: it stops at the count check, at the empty diff, or on a
    failed probe.  This is under the following conditions on the first run:
    its manifest and its prior snapshot are JSON objects, the prior snapshot
    holding no undefined value; the url of its manifest did not name the
    file manifest.json; and the names it scheduled are strings other than
    "__proto__". *)
Theorem rerun_after_full_success_changes_nothing (s : script) (e e' : env)
    (ld : loaded) (m m0 : object) (lst : value) (f : nat) :
  load s e = inr ld ->
  manifest ld = VObj m ->
  prior ld = VObj m0 ->
  listing e = Some lst ->
  outcome_of (main s e)
    = Published (length (missing_of lst (knownKeys ld))) f ->
  Forall (fun name => exists n, name = VStr n /\ n <> "__proto__")
         (missing_of lst (knownKeys ld)) ->
  (forall k, obj_get m0 k <> Some VUndef) ->
  oldFileName ld <> Some "manifest.json" ->
  cwd e' = cwd e ->
  files e' = w_fs (final (main s e)) ->
  listing e' = Some lst ->
  (outcome_of (main s e') = CountNotGrown
   \/ outcome_of (main s e') = NothingMissing
   \/ outcome_of (main s e') = Threw (HttpError (probe_url s)))
  /\ w_fs (final (main s e')) = files e'.
Proof.
  intros Hld Hobj Hm0 Hl Hpub Hstr Hclean Hold Hcwd Hfiles Hl'.
  destruct (main_publish_objects _ _ _ _ _ _ Hld Hm0 Hpub)
    as (lst' & idxs & Hl2 & Hperm & Ha & Hfin).
  rewrite Hl in Hl2. injection Hl2 as <-.
  set (missing := missing_of lst (knownKeys ld)) in *.
  set (snap := merged s e missing m0 idxs) in *.
  rewrite Hfin in Hfiles. cbn [final w_fs] in Hfiles.
  pose proof (load_after_publish s e e' ld m snap Hobj Hold Hcwd Hfiles)
    as Hld'.
  assert (forall idx, idx < length missing ->
            idx ∈ idxs /\ is_Some (fetched s e missing idx)) as Hall.
  { pose proof (length_filter
                  (fun idx => is_Some (fetched s e missing idx)) idxs) as Hle.
    assert (length idxs = attempted e missing) as Hlen
      by (rewrite Hperm; apply length_seq).
    assert (attempted e missing <= length missing) as Hatt
      by (unfold attempted; destruct (at_least_one _); lia).
    assert (Forall (fun idx => is_Some (fetched s e missing idx)) idxs) as HF
      by (apply (filter_all_length
                   (fun idx => is_Some (fetched s e missing idx))); lia).
    intros idx Hidx.
    assert (idx ∈ idxs) as Hin by (rewrite Hperm; apply elem_of_seq; lia).
    split; [done|]. rewrite Forall_forall in HF. now apply HF. }
  assert (missing_of lst (knownKeys (loaded_after s e ld snap)) = []) as Hnil.
  { unfold missing_of. apply find_missing_nil. intros r Hr Ht.
    assert (exists n, entry_name r = VStr n /\ is_Some (obj_get snap n))
      as (n & Hn & [v Hv]).
    { destruct (has (knownKeys ld) (entry_name r)) eqn:Hh.
      - destruct (entry_name r) as [| | | |n| |]; try discriminate Hh.
        exists n. split; [done|]. cbn [has] in Hh.
        apply bool_decide_eq_true in Hh.
        rewrite (wf_keys _ _ _ (load_wf _ _ _ Hld)), Hm0 in Hh.
        apply elem_of_list_to_set in Hh.
        apply merged_lookup_some. left. now apply obj_get_Some_keys.
      - assert (entry_name r ∈ missing) as Hin.
        { unfold missing, missing_of.
          rewrite find_missing_filter, list_elem_of_filter, list_elem_of_fmap.
          eauto. }
        rewrite Forall_forall in Hstr.
        destruct (Hstr _ Hin) as (n & Hn & Hnp).
        exists n. split; [done|]. rewrite Hn in Hin.
        apply list_elem_of_lookup_1 in Hin as [idx Hidx].
        destruct (Hall idx) as [Hi [[k v] Hf]];
          [eapply lookup_lt_Some, Hidx|].
        apply merged_lookup_some. right. split; [done|].
        exists idx, v. split; [done|].
        destruct (fetched_key _ _ _ _ _ _ Hf) as (name & Hname & ->).
        rewrite Hidx in Hname. injection Hname as <-. exact Hf. }
    rewrite Hn. cbn [has]. apply bool_decide_eq_true.
    cbn [loaded_after knownKeys]. apply elem_of_list_to_set.
    apply obj_get_Some_keys. exists (json_roundtrip v).
    apply stored_props_get; [done|].
    apply merged_lookup_inv in Hv as [Hv|(idx & _ & Hf)].
    - intros ->. now apply (Hclean n).
    - eapply fetched_defined, Hf. }
  unfold main. rewrite Hld'. unfold sync, getJson.
  destruct (probe e') as [head'|].
  - destruct (count_not_grown _ _ _); [split; [now left|done]|].
    rewrite Hl', Hnil. split; [right; now left|done].
  - split; [right; now right|done].
Qed.

(** X13. A string name that was missing and for which no task of a
    publishing run produced a record (its request or its extraction failed,
    or the pool started no task) is missing again in the next run on the
    same listing: failures are retried by running the script again.  This is under the
    following conditions on the first run: its manifest and its prior
    snapshot are JSON objects, and the url of its manifest did not name the
    file manifest.json. *)
Theorem unfetched_name_is_missing_again (s : script) (e e' : env)
    (ld : loaded) (m m0 : object) (lst : value) (a f : nat) (n : string) :
  load s e = inr ld ->
  manifest ld = VObj m ->
  prior ld = VObj m0 ->
  listing e = Some lst ->
  outcome_of (main s e) = Published a f ->
  VStr n ∈ missing_of lst (knownKeys ld) ->
  (forall idx v,
     fetched s e (missing_of lst (knownKeys ld)) idx <> Some (n, v)) ->
  oldFileName ld <> Some "manifest.json" ->
  cwd e' = cwd e ->
  files e' = w_fs (final (main s e)) ->
  exists ld', load s e' = inr ld' /\ VStr n ∈ missing_of lst (knownKeys ld').
Proof.
  intros Hld Hobj Hm0 Hl Hpub Hin Hnone Hold Hcwd Hfiles.
  destruct (main_publish_objects _ _ _ _ _ _ Hld Hm0 Hpub)
    as (lst' & idxs & Hl2 & _ & _ & Hfin).
  rewrite Hl in Hl2. injection Hl2 as <-.
  set (missing := missing_of lst (knownKeys ld)) in *.
  set (snap := merged s e missing m0 idxs) in *.
  rewrite Hfin in Hfiles. cbn [final w_fs] in Hfiles.
  exists (loaded_after s e ld snap).
  split; [now apply (load_after_publish s e e' ld m)|].
  assert (obj_get snap n = None) as Hsnap.
  { unfold snap. rewrite merged_lookup_other by (intros; apply Hnone).
    apply obj_get_None_keys. apply missing_not_known in Hin.
    rewrite (wf_keys _ _ _ (load_wf _ _ _ Hld)), Hm0 in Hin.
    now rewrite elem_of_list_to_set in Hin. }
  unfold missing, missing_of in Hin |- *.
  rewrite find_missing_filter, list_elem_of_filter in Hin |- *.
  destruct Hin as [[Ht _] Hmap]. split; [split; [done|]|done].
  cbn [has loaded_after knownKeys]. apply bool_decide_eq_false.
  rewrite elem_of_list_to_set. intros Hk. apply stored_props_keys in Hk.
  apply obj_get_Some_keys in Hk. rewrite Hsnap in Hk. now destruct Hk.
Qed.

(** ** More on the pool: occupancy and order of completion *)

Section PoolOrder.

Context {T St : Type}.
Variable items : list T.
Variable start finish : T -> nat -> St -> St.
Variable sched : nat -> nat.

Local Abbreviation take := (take items start).
Local Abbreviation settle := (settle items start finish).
Local Abbreviation turns := (turns items start finish sched).
Local Abbreviation spawn := (spawn items start).
Local Abbreviation pool_inv := (pool_inv items).
Local Abbreviation busy := (busy items).

Lemma settle_busy (n k : nat) (ps : pool (St := St)) :
  pool_inv ps -> k < length (flight ps) -> busy n ps -> busy n (settle k ps).
Proof.
  intros Hinv Hk [Hle Hfull].
  destruct (lookup_lt_is_Some_2 _ _ Hk) as [[w idx] Hf].
  destruct (flight_item items _ _ _ _ Hinv Hf) as [it Hit].
  rewrite (settle_unfold items start finish _ _ _ _ _ Hf Hit).
  unfold take. cbn [pool_p flight pool_st started settled].
  destruct (items !! pool_p ps) as [it'|] eqn:Hp;
    cbn [pool_p flight]; unfold busy; cbn [pool_p flight].
  - apply lookup_lt_Some in Hp. specialize (Hfull Hp).
    rewrite length_app, length_delete by eauto. cbn [length]. lia.
  - apply lookup_ge_None in Hp. rewrite length_delete by eauto. lia.
Qed.

Lemma turns_busy (n fuel turn : nat) (ps : pool (St := St)) :
  pool_inv ps -> busy n ps ->
  pool_inv (turns fuel turn ps) /\ busy n (turns fuel turn ps).
Proof.
  revert turn ps. induction fuel as [|fuel IH]; intros turn ps Hinv Hb;
    simpl; [done|].
  destruct (flight ps) as [|f0 fl] eqn:Hfl; [done|]. rewrite <- Hfl.
  assert (sched turn mod length (flight ps) < length (flight ps)) as Hk.
  { apply Nat.mod_upper_bound. rewrite Hfl. discriminate. }
  apply IH.
  - now apply settle_inv.
  - now apply settle_busy.
Qed.

Lemma take_in_order (w : nat) (ps : pool (St := St)) :
  in_order ps -> in_order (take w ps).
Proof.
  unfold in_order, take. intros H.
  destruct (items !! pool_p ps); cbn [settled flight started]; [|done].
  now rewrite fmap_app, app_assoc, H.
Qed.

Lemma settle_in_order (ps : pool (St := St)) :
  pool_inv ps -> in_order ps -> in_order (settle 0 ps).
Proof.
  intros Hinv H. destruct (flight ps) as [|[w idx] fl] eqn:Hfl.
  - unfold settle. now rewrite Hfl.
  - assert (flight ps !! 0 = Some (w, idx)) as Hf by now rewrite Hfl.
    destruct (flight_item items _ _ _ _ Hinv Hf) as [it Hit].
    rewrite (settle_unfold items start finish _ _ _ _ _ Hf Hit).
    apply take_in_order. unfold in_order in *.
    cbn [settled flight started]. rewrite Hfl in H |- *.
    cbn [delete list_delete]. rewrite <- app_assoc. exact H.
Qed.

Lemma turns_in_order (n fuel turn : nat) (ps : pool (St := St)) :
  (forall t m, 0 < m <= n -> sched t mod m = 0) ->
  pool_inv ps -> length (flight ps) <= n -> in_order ps ->
  in_order (turns fuel turn ps).
Proof.
  intros Hfifo. revert turn ps.
  induction fuel as [|fuel IH]; intros turn ps Hinv Hn Ho;
    simpl; [done|].
  destruct (flight ps) as [|f0 fl] eqn:Hfl; [done|]. rewrite <- Hfl.
  rewrite <- Hfl in Hn.
  assert (0 < length (flight ps)) as Hpos by (rewrite Hfl; cbn; lia).
  rewrite Hfifo by lia.
  destruct (settle_inv items start finish ps 0 Hinv Hpos)
    as (Hinv' & _ & Hlen & _).
  apply IH; [done|lia|now apply settle_in_order].
Qed.

Lemma spawn_in_order (n : nat) (s0 : St) : in_order (spawn n s0).
Proof.
  induction n as [|n IH]; [done|].
  rewrite (spawn_S items start). now apply take_in_order.
Qed.

End PoolOrder.

(** X14. At every turn of [withPool] the number of requests in flight is
    the number of workers, or the number of items not yet completed when
    that is smaller: no worker idles while an item is left to take, and
    the items taken so far are those completed and those in flight. *)
Theorem pool_occupancy {T St : Type} (items : list T)
    (start finish : T -> nat -> St -> St) (sched : nat -> nat)
    (poolSize : number) (s0 : St) (fuel : nat) :
  let ps := pool_after items start finish sched fuel poolSize s0 in
  length (flight ps)
  = Nat.min (pool_width items poolSize)
            (length items - length (settled ps))
  /\ length (started ps) = length (settled ps) + length (flight ps).
Proof.
  intros ps. set (n := pool_width items poolSize).
  destruct (width_bounds poolSize (length items)) as (Hn & _).
  fold (pool_width items poolSize) in Hn. fold n in Hn.
  destruct (spawn_inv items start n s0 Hn) as (Hinv & Hp & Hfl & _).
  destruct (turns_busy items start finish sched n fuel 0 _ Hinv)
    as [[Hs Hb Hperm] [Hle Hfull]]; [split; lia|].
  change (turns items start finish sched fuel 0 (spawn items start n s0))
    with ps in Hs, Hb, Hperm, Hle, Hfull.
  assert (length (started ps) = length (settled ps) + length (flight ps))
    as Hcount.
  { rewrite <- Hperm, length_app, length_fmap. lia. }
  split; [|exact Hcount].
  rewrite Hs, length_seq in Hcount.
  destruct (decide (pool_p ps < length items)) as [Hlt|Hge].
  - specialize (Hfull Hlt). lia.
  - lia.
Qed.

Lemma withPool_in_order {T St : Type} (items : list T)
    (start finish : T -> nat -> St -> St) (sched : nat -> nat)
    (poolSize : number) (s0 : St) :
  pool_width items poolSize <= 1 \/ (forall t, sched t = 0) ->
  (forall fuel,
     let ps := pool_after items start finish sched fuel poolSize s0 in
     settled ps ++ (flight ps).*2 = started ps)
  /\ settled (withPool items start finish sched poolSize s0)
     = started (withPool items start finish sched poolSize s0).
Proof.
  intros Hseq. set (n := pool_width items poolSize) in *.
  destruct (width_bounds poolSize (length items)) as (Hn & _).
  fold (pool_width items poolSize) in Hn. fold n in Hn.
  destruct (spawn_inv items start n s0 Hn) as (Hinv & _ & Hfl & _).
  assert (forall t m, 0 < m <= n -> sched t mod m = 0) as Hfifo.
  { intros t m Hm. destruct Hseq as [H1|H0].
    - assert (m = 1) as -> by lia. apply Nat.mod_1_r.
    - rewrite H0. apply Nat.Div0.mod_0_l. }
  assert (forall fuel,
            in_order (pool_after items start finish sched fuel poolSize s0))
    as Hord.
  { intros fuel. apply (turns_in_order items start finish sched n);
      [exact Hfifo|exact Hinv|fold n; lia|apply spawn_in_order]. }
  split; [exact Hord|].
  destruct (withPool_shape items start finish sched poolSize s0)
    as (_ & _ & Hdone & _).
  specialize (Hord (length items)).
  fold (withPool items start finish sched poolSize s0) in Hord.
  unfold in_order in Hord. rewrite Hdone in Hord.
  now rewrite app_nil_r in Hord.
Qed.

(** X15. With a single worker, or when it is always the oldest request in
    flight that settles first, the items are completed in the order of the
    list: at every turn the items taken are those completed followed by
    those in flight, and at the end the two orders are the same. *)
Theorem pool_completes_in_order {T St : Type} (items : list T)
    (start finish : T -> nat -> St -> St) (sched : nat -> nat)
    (poolSize : number) (s0 : St) :
  pool_width items poolSize <= 1 \/ (forall t, sched t = 0) ->
  (forall fuel,
     let ps := pool_after items start finish sched fuel poolSize s0 in
     settled ps ++ (flight ps).*2 = started ps)
  /\ settled (withPool items start finish sched poolSize s0)
     = started (withPool items start finish sched poolSize s0).
Proof. apply withPool_in_order. Qed.


(** ** The number of workers *)

Lemma Qle_bool_inject_Z (a b : Z) :
  Qle_bool (inject_Z a) (inject_Z b) = (a <=? b)%Z.
Proof. unfold Qle_bool, inject_Z. cbn. now rewrite !Z.mul_1_r. Qed.

(** X17. For a pool size that is a whole number (below 2^53) the pool has
    [min(poolSize, items.length)] workers; with the pool variable unset or
    empty the size is 5. *)
Theorem pool_width_of_size {T : Type} (items : list T) (e : env) (k : Z) :
  (0 <= k < 2 ^ 53)%Z ->
  pool_width items (NFin (inject_Z k)) = Nat.min (Z.to_nat k) (length items)
  /\ (pool_var e = None \/ pool_var e = Some "" ->
      POOL e = NFin (inject_Z 5)
      /\ pool_width items (POOL e) = Nat.min 5 (length items)).
Proof.
  assert (forall k', (0 <= k' < 2 ^ 53)%Z ->
            pool_width items (NFin (inject_Z k'))
            = Nat.min (Z.to_nat k') (length items)) as Hw.
  { intros k' Hk'. unfold pool_width, Math_min. rewrite Qle_bool_inject_Z.
    apply Nat2Z.inj.
    destruct (Z.leb_spec k' (Z.of_nat (length items)));
      rewrite ToLength_fin, Qfloor_Z; lia. }
  intros Hk. split; [now apply Hw|]. intros Hv.
  assert (POOL e = NFin (inject_Z 5)) as ->.
  { unfold POOL. destruct Hv as [->| ->]; reflexivity. }
  split; [done|]. rewrite Hw by lia. done.
Qed.

(** ** The records the workers build *)


(** ** The order of the keys of a snapshot *)

Lemma obj_replace_keys (m : object) (k : string) (v : value) :
  obj_keys (obj_replace m k v) = obj_keys m.
Proof.
  unfold obj_keys. induction m as [|[k0 v0] m IH]; [done|].
  cbn [obj_replace]. destruct (String.eqb k0 k); cbn [map fst]; [done|].
  now rewrite IH.
Qed.

(** A new key goes among the keys there are, which keep their order; at
    the end unless it is an array index. *)
Lemma obj_insert_keys (m : object) (k : string) (v : value) :
  obj_keys m `sublist_of` obj_keys (obj_insert m k v)
  /\ obj_keys (obj_insert m k v) ≡ₚ obj_keys m ++ [k]
  /\ (array_index k = None ->
      obj_keys (obj_insert m k v) = obj_keys m ++ [k]).
Proof.
  unfold obj_keys.
  induction m as [|[k0 v0] m (IH1 & IH2 & IH3)]; cbn [obj_insert map fst app].
  - split_and!; [apply sublist_nil_l|done|done].
  - assert (Hrec :
      map fst ((k0, v0) :: m) `sublist_of` map fst ((k0, v0) :: obj_insert m k v)
      /\ map fst ((k0, v0) :: obj_insert m k v) ≡ₚ map fst ((k0, v0) :: m) ++ [k]
      /\ (array_index k = None ->
          map fst ((k0, v0) :: obj_insert m k v)
          = map fst ((k0, v0) :: m) ++ [k])).
    { cbn [map fst app]. split_and!.
      - now apply sublist_skip.
      - now constructor.
      - intros H. now rewrite IH3. }
    destruct (array_index k) as [i|] eqn:Hk; [|exact Hrec].
    assert (Hhere :
      map fst ((k0, v0) :: m) `sublist_of` map fst ((k, v) :: (k0, v0) :: m)
      /\ map fst ((k, v) :: (k0, v0) :: m) ≡ₚ map fst ((k0, v0) :: m) ++ [k]
      /\ (Some i = None ->
          map fst ((k, v) :: (k0, v0) :: m)
          = map fst ((k0, v0) :: m) ++ [k])).
    { cbn [map fst]. split_and!; [|apply Permutation_cons_append|done].
      now apply sublist_cons. }
    destruct (array_index k0) as [i0|]; [|exact Hhere].
    destruct (i <? i0)%N; [exact Hhere|exact Hrec].
Qed.

(** The keys after an assignment: those there were, in their order, and
    the key assigned when it is new and other than "__proto__". *)
Lemma obj_set_keys (m : object) (k : string) (v : value) :
  let add :=
    if decide (k ∈ obj_keys m \/ k = "__proto__") then [] else [k] in
  obj_keys m `sublist_of` obj_keys (obj_set m k v)
  /\ obj_keys (obj_set m k v) ≡ₚ obj_keys m ++ add
  /\ (array_index k = None \/ add = [] ->
      obj_keys (obj_set m k v) = obj_keys m ++ add).
Proof.
  intros add. unfold add, obj_set.
  destruct (obj_get m k) as [v0|] eqn:Hm.
  - rewrite obj_replace_keys, decide_True, app_nil_r; [done|].
    left. apply obj_get_Some_keys. eauto.
  - apply obj_get_None_keys in Hm.
    destruct (String.eqb k "__proto__") eqn:E.
    + apply String.eqb_eq in E.
      rewrite decide_True, app_nil_r; [done|now right].
    + apply String.eqb_neq in E. rewrite decide_False by (now intros [?|?]).
      destruct (obj_insert_keys m k v) as (H1 & H2 & H3).
      split_and!; [done|done|]. now intros [?|?]; [apply H3|].
Qed.

Lemma merged_keys (s : script) (e : env) (missing : list value) (m : object)
    (l : list nat) :
  exists new : list string,
    obj_keys m `sublist_of` obj_keys (merged s e missing m l)
    /\ obj_keys (merged s e missing m l) ≡ₚ obj_keys m ++ new
    /\ NoDup new
    /\ (forall k, k ∈ new ->
          (k ∉ obj_keys m) /\ k <> "__proto__"
          /\ exists idx v, idx ∈ l /\ fetched s e missing idx = Some (k, v))
    /\ (Forall (fun k => array_index k = None) new ->
        obj_keys (merged s e missing m l) = obj_keys m ++ new).
Proof.
  revert m. induction l as [|i l IH]; intros m.
  - exists []. rewrite app_nil_r.
    split_and!; [done|done|constructor|intros k Hk; inversion Hk|done].
  - rewrite merged_cons.
    destruct (fetched s e missing i) as [[k rec]|] eqn:Hf.
    + destruct (IH (obj_set m k rec)) as (new & Hsub & Hperm & Hnd & Hnew & Heq).
      destruct (obj_set_keys m k rec) as (Hs1 & Hp1 & He1).
      cbv zeta in Hp1, He1.
      destruct (decide (k ∈ obj_keys m \/ k = "__proto__")) as [Hin|Hnin].
      * rewrite app_nil_r in Hp1, He1. exists new. split_and!.
        -- now transitivity (obj_keys (obj_set m k rec)).
        -- now rewrite Hperm, Hp1.
        -- done.
        -- intros k' Hk'.
           destruct (Hnew k' Hk') as (Hn & Hpr & idx & v & Hi & Hfi).
           split_and!; [|done|].
           ++ intros Hm. apply Hn. rewrite Hp1. done.
           ++ exists idx, v. split; [now right|done].
        -- intros Hall. rewrite (Heq Hall). f_equal. apply He1. now right.
      * exists (k :: new).
        assert ((k ∉ obj_keys m) /\ k <> "__proto__") as [Hk1 Hk2]
          by (split; intros ?; apply Hnin; eauto).
        split_and!.
        -- now transitivity (obj_keys (obj_set m k rec)).
        -- rewrite Hperm, Hp1, <- app_assoc. done.
        -- constructor; [|done]. intros Hk.
           apply Hnew in Hk as (Hn & _). apply Hn. rewrite Hp1.
           apply elem_of_app. right. left.
        -- intros k' Hk'. apply elem_of_cons in Hk' as [->|Hk'].
           ++ split_and!; [done|done|]. exists i, rec. split; [left|done].
           ++ destruct (Hnew k' Hk') as (Hn & Hpr & idx & v & Hi & Hfi).
              split_and!; [|done|].
              ** intros Hm. apply Hn. rewrite Hp1.
                 apply elem_of_app. now left.
              ** exists idx, v. split; [now right|done].
        -- intros Hall. apply Forall_cons in Hall as [Hk Hall].
           rewrite (Heq Hall), He1, <- app_assoc by now left. done.
    + destruct (IH m) as (new & Hsub & Hperm & Hnd & Hnew & Heq).
      exists new. split_and!; [done|done|done| |done].
      intros k' Hk'. destruct (Hnew k' Hk') as (Hn & Hpr & idx & v & Hi & Hfi).
      split_and!; [done|done|]. exists idx, v. split; [now right|done].
Qed.

(** X19. When the prior snapshot is a JSON object, the snapshot a run
    writes keeps the keys of the prior snapshot in the order they had, and
    has besides them the keys the run added, each once: a new key was not
    known, is not "__proto__", and belongs to a task that succeeded.  When
    none of the new keys is an array index (the decimal numeral of an
    integer below 2^32 - 1), the new keys come after the prior ones. *)
Theorem snapshot_keeps_key_order (s : script) (e : env) (ld : loaded)
    (m0 : object) (lst : value) (a f : nat) :
  load s e = inr ld ->
  prior ld = VObj m0 ->
  listing e = Some lst ->
  outcome_of (main s e) = Published a f ->
  exists (snap : object) (new : list string),
    EvWrite (newMapPath s e) (VObj snap) ∈ w_log (final (main s e))
    /\ obj_keys m0 `sublist_of` obj_keys snap
    /\ obj_keys snap ≡ₚ obj_keys m0 ++ new
    /\ NoDup new
    /\ (forall k, k ∈ new ->
          (k ∉ knownKeys ld) /\ k <> "__proto__"
          /\ exists idx v,
               fetched s e (missing_of lst (knownKeys ld)) idx = Some (k, v))
    /\ (Forall (fun k => array_index k = None) new ->
        obj_keys snap = obj_keys m0 ++ new).
Proof.
  intros Hld Hm0 Hl Hpub.
  destruct (main_publish_objects _ _ _ _ _ _ Hld Hm0 Hpub)
    as (lst' & idxs & Hl' & _ & _ & ->).
  rewrite Hl in Hl'. injection Hl' as <-.
  destruct (merged_keys s e (missing_of lst (knownKeys ld)) m0 idxs)
    as (new & Hsub & Hkeys & Hnd & Hnew & Heq).
  eexists _, new. cbn [final w_log].
  split_and!; [|exact Hsub|exact Hkeys|exact Hnd| |exact Heq].
  - unfold publish_log. rewrite !elem_of_app. right. right. left. left.
  - intros k Hk. destruct (Hnew k Hk) as (Hn & Hpr & idx & v & _ & Hf).
    split_and!; [|done|eauto].
    rewrite (wf_keys _ _ _ (load_wf _ _ _ Hld)), Hm0.
    now rewrite elem_of_list_to_set.
Qed.

(** ** Stored documents, read back *)





(** X21. [safeUnlink] removes the file at a non-empty path when it is
    there and does nothing else: afterwards the path is free and every other
    file is as before, an event is logged only when a file was removed, and
    a second call does nothing.  On non-empty paths the variant of the moves
    script does the same. *)
Theorem safeUnlink_removes_only_its_path (path : string) (w : world) :
  path <> "" ->
  w_fs (safeUnlink (Some path) w) = delete path (w_fs w)
  /\ w_log (safeUnlink (Some path) w)
     = w_log w ++ (if decide (is_Some (w_fs w !! path))
                   then [EvUnlink path] else [])
  /\ safeUnlink (Some path) (safeUnlink (Some path) w)
     = safeUnlink (Some path) w
  /\ safeUnlink_moves (Some path) w = safeUnlink (Some path) w
  /\ safeUnlink (Some "") w = w /\ safeUnlink None w = w.
Proof.
  intros Hne. apply String.eqb_neq in Hne.
  unfold safeUnlink, safeUnlink_moves, existsSync, unlinkSync.
  cbn [path_truthy]. rewrite Hne. cbn [negb andb String.eqb].
  destruct (decide (is_Some (w_fs w !! path))) as [Hs|Hn].
  - rewrite (bool_decide_true _ Hs). cbn [w_fs w_log].
    rewrite lookup_delete_eq.
    rewrite bool_decide_false by (intros [? [=]]). done.
  - rewrite (bool_decide_false _ Hn). rewrite (bool_decide_false _ Hn).
    apply eq_None_not_Some in Hn. rewrite delete_id by done.
    rewrite app_nil_r. done.
Qed.

(** ** Where the effects of a run go *)

Lemma load_old_segment (s : script) (e : env) (ld : loaded) (f : string) :
  load s e = inr ld -> oldFileName ld = Some f ->
  exists u, last_segment u = Some f.
Proof.
  intros Hld. destruct (load_inr _ _ _ Hld) as (mdoc & _ & H). revert H.
  assert (forall w, load_bootstrap s e mdoc w = inr ld ->
                    oldFileName ld = Some f ->
                    exists u, last_segment u = Some f) as Hb.
  { intros w. unfold load_bootstrap.
    destruct (url_of s (safeObj mdoc)) as [u|];
      [|intros [= <-]; discriminate].
    destruct (path_truthy (Some u)); [|intros [= <-]; discriminate].
    destruct (last_segment u) as [f0|] eqn:Hu; [|intros [= <-]; discriminate].
    destruct (path_truthy (Some f0)).
    - destruct (_ && _); [destruct (readJSON _ _); [|discriminate]|];
        intros [= <-]; cbn [oldFileName]; intros [= <-]; eauto.
    - intros [= <-]; cbn [oldFileName]; intros [= <-]; eauto. }
  destruct s; [apply Hb..|].
  unfold load_moves.
  destruct (url_of Moves mdoc) as [u|]; [|discriminate].
  destruct (negb (path_truthy (Some u))); [discriminate|].
  destruct (last_segment u) as [f0|] eqn:Hu; [|discriminate].
  destruct (negb (path_truthy (Some f0))); [discriminate|].
  destruct (negb (existsSync _ _)); [discriminate|].
  destruct (readJSON _ _); [|discriminate].
  intros [= <-]. cbn [oldFileName]. intros [= <-]. eauto.
Qed.

Lemma last_segment_lacks (u f : string) :
  last_segment u = Some f -> lacks "/" f = true.
Proof.
  unfold last_segment. intros Hl. apply last_Some_elem_of in Hl.
  apply list_elem_of_filter in Hl as [_ Hin].
  eapply split_slash_lacks, Hin.
Qed.

Lemma unpublished_log (s : script) (e : env) :
  (forall a f, outcome_of (main s e) <> Published a f) ->
  w_log (final (main s e))
    `prefix_of` [EvGet (probe_url s); EvGet (listing_url s)].
Proof.
  unfold main. destruct (load s e) as [err|ld]; [intros _; apply prefix_nil|].
  unfold sync, getJson. destruct (probe e) as [head|].
  - destruct (count_not_grown _ _ _);
      [intros _; now exists [EvGet (listing_url s)]|].
    destruct (listing e) as [lst|]; [|intros _; now exists []].
    destruct (missing_of lst (knownKeys ld)); [intros _; now exists []|].
    intros H. now destruct (H _ _ eq_refl).
  - intros _. now exists [EvGet (listing_url s)].
Qed.

(** X22. Every effect of a run is one of these.  A request is the count
    request, the listing request, or the detail request of a name the run
    found missing: the address of the catalogue and the endpoint of the
    script, followed by [?limit=1], by [?limit=] and the full limit, or by
    [/] and the name as it prints, not escaped (so a listed name holding a
    separator or dots changes the path requested).  Each file written or
    removed lies directly in the directory of the script, under a name that
    is not empty and contains no separator. *)
Theorem effects_stay_in_place (s : script) (e : env) :
  Forall (fun ev =>
            match ev with
            | EvGet url =>
                url = API +:+ endpoint s +:+ "?limit=1"
                \/ url = API +:+ endpoint s +:+ "?limit=" +:+ full_limit s
                \/ exists ld lst name,
                     load s e = inr ld /\ listing e = Some lst
                     /\ name ∈ missing_of lst (knownKeys ld)
                     /\ url = API +:+ endpoint s +:+ "/" +:+ js_String name
            | EvWrite path _ | EvUnlink path =>
                exists f, path = join (base_dir s e) f
                          /\ f <> "" /\ lacks "/" f = true
            end)
         (w_log (final (main s e))).
Proof.
  assert (forall P : event -> Prop,
            P (EvGet (probe_url s)) -> P (EvGet (listing_url s)) ->
            Forall P [EvGet (probe_url s); EvGet (listing_url s)]) as Hgets
    by (intros; repeat constructor; done).
  destruct (outcome_of (main s e)) as [err| | |a f] eqn:Hout.
  1-3: destruct (unpublished_log s e) as [rest Hrest];
         [intros a f; rewrite Hout; discriminate|];
       match goal with
       | |- Forall ?P _ =>
           assert (Forall P (w_log (final (main s e)) ++ rest)) as HF
             by (rewrite <- Hrest; apply Hgets; [now left|right; now left])
       end;
       apply Forall_app in HF as [HF _]; exact HF.
  destruct (main_published _ _ _ _ Hout) as (ld & _ & _ & Hld & _).
  destruct (main_publish_files _ _ _ _ _ Hld Hout)
    as (lst & idxs & Hl & _ & _ & _ & _ & ->).
  cbn [final w_log]. rewrite !Forall_app. split_and!.
  - apply Hgets; [now left|right; now left].
  - apply Forall_forall. intros ev Hev. unfold detail_requests in Hev.
    apply list_elem_of_omap in Hev as (idx & _ & Hev).
    destruct (_ !! idx) as [name|] eqn:Hname; [|discriminate].
    injection Hev as <-. right. right. exists ld, lst, name.
    split_and!; [done|done| |done]. eapply list_elem_of_lookup_2, Hname.
  - unfold publish_log. rewrite Forall_app. split.
    + repeat constructor.
      * exists (newFileName s e). split_and!; [done| |].
        -- unfold newFileName. now destruct s.
        -- apply newFileName_lacks_slash.
      * exists "manifest.json". done.
    + destruct (retired s e ld) as [path|] eqn:Hr; [|constructor].
      apply retired_path in Hr as (o & Ho & _ & -> & _).
      destruct (load_old_segment _ _ _ _ Hld Ho) as [u Hu].
      repeat constructor. exists o. split_and!; [done| |].
      * eapply last_segment_not_empty, Hu.
      * eapply last_segment_lacks, Hu.
Qed.

(** ** The fatal errors of the moves script *)



End Host.

(** * The sample runs *)

Abbreviation main_dec := (main decimal_toString digits_toNumber).

(** ** Inputs on which the claims as first stated fail *)

(** C1 as stated fails: the listing has an entry named by the empty string,
    that name is not a known key, and yet [missing] is empty. *)
Lemma empty_name_is_not_missing :
  (exists r, r ∈ js_items (results_of listing_with_empty_name)
             /\ get r "name" = VStr "")
  /\ ("" ∉ (∅ : gset string))
  /\ missing_of listing_with_empty_name ∅ = [].
Proof.
  split_and!.
  - exists (entry ""). split; [left|reflexivity].
  - apply not_elem_of_empty.
  - reflexivity.
Qed.

(** C2 as stated fails: the listing names [b] twice, the first of the two
    detail requests succeeds and the second fails; the run counts one
    failure, and the published snapshot holds the key of the failed task. *)
Lemma failed_name_present_when_listed_twice :
  missing_of (listing_doc 2 ["b"; "b"]) ∅ = [VStr "b"; VStr "b"]
  /\ fetched decimal_toString Ability run_duplicate_name
       [VStr "b"; VStr "b"] 1 = None
  /\ outcome_of (main_dec Ability run_duplicate_name) = Published 1 1
  /\ w_log (final (main_dec Ability run_duplicate_name)) =
       [EvGet "https://pokeapi.co/api/v2/ability?limit=1";
        EvGet "https://pokeapi.co/api/v2/ability?limit=100000";
        EvGet "https://pokeapi.co/api/v2/ability/b";
        EvGet "https://pokeapi.co/api/v2/ability/b";
        EvWrite "/repo/public/abilities/ability_map.2026-11-02.json"
          (VObj [("b", VObj [("id", jnum 2); ("gen", VStr "generation-iii");
                             ("display", VStr "Be")])]);
        EvWrite "/repo/public/abilities/manifest.json"
          (VObj [("version", VStr "2026-11-02");
                 ("ability_url",
                  VStr "/abilities/ability_map.2026-11-02.json")])].
Proof. split_and!; vm_compute; reflexivity. Qed.

(** C4 as stated fails on the moves script: the snapshot is empty (the
    bootstrap case), the probe reports count 0, and the run stops after the
    probe instead of requesting the listing. *)
Lemma moves_stops_on_count_with_no_known_key :
  load decimal_toString Moves run_moves_empty = inr loaded_empty_moves
  /\ size (knownKeys loaded_empty_moves) = 0
  /\ main_dec Moves run_moves_empty =
       Result CountNotGrown
              (World (files run_moves_empty) [EvGet (probe_url Moves)]).
Proof. split_and!; vm_compute; reflexivity. Qed.


(** C8 as stated fails: with a pool size of zero, or one that is not a
    number, no item of a two-item list is attempted. *)
Lemma pool_without_size_attempts_nothing :
  started (withPool ["a"; "b"] (fun _ _ n => S n) (fun _ _ n => n)
                    (fun _ => 0) (NFin 0) 0) = []
  /\ pool_st (withPool ["a"; "b"] (fun _ _ n => S n) (fun _ _ n => n)
                       (fun _ => 0) (NFin 0) 0) = 0
  /\ started (withPool ["a"; "b"] (fun _ _ n => S n) (fun _ _ n => n)
                       (fun _ => 0) NNaN 0) = [].
Proof. split_and!; vm_compute; reflexivity. Qed.



(** ** Assignment, arrays and rejections on small inputs *)

(** [Object.keys] lists an array index before the other keys, wherever it
    was created; a numeral with a leading zero is no array index. *)
Lemma index_key_is_listed_first :
  obj_keys (obj_set [("a", jnum 1)] "7" (jnum 2)) = ["7"; "a"]
  /\ obj_keys (obj_set [("a", jnum 1)] "b" (jnum 2)) = ["a"; "b"]
  /\ obj_keys (obj_set [("10", jnum 1); ("a", jnum 1)] "9" (jnum 2))
     = ["9"; "10"; "a"]
  /\ obj_keys (obj_set [("a", jnum 1)] "07" (jnum 2)) = ["a"; "07"].
Proof. split_and!; reflexivity. Qed.

(** An assignment to "__proto__" stores nothing, unless the object has a
    property of that name, as [JSON.parse] can give it. *)
Lemma proto_assignment_stores_nothing :
  obj_set [("a", jnum 1)] "__proto__" (VObj []) = [("a", jnum 1)]
  /\ obj_set [("__proto__", jnum 1)] "__proto__" (VObj [])
     = [("__proto__", VObj [])].
Proof. split_and!; reflexivity. Qed.

(** On a working map that is an array, a record assigned under a name is
    not printed, one assigned under an index is an element (after holes,
    printed as [null]), and the assignment to [length] throws. *)
Lemma array_map_assignments :
  assign (VArr [jnum 1]) "b" (VObj []) = Some (VArr [jnum 1])
  /\ (exists m, assign (VArr [jnum 1]) "2" (VObj []) = Some m
                /\ json_roundtrip m = VArr [jnum 1; VNull; VObj []])
  /\ assign (VArr [jnum 1]) "length" (VObj []) = None
  /\ assign (VStr "abc") "b" (VObj []) = None.
Proof.
  split_and!; try reflexivity. eexists. split; [reflexivity|].
  vm_compute. reflexivity.
Qed.

(** A call that rejects ends its worker: with one worker the items after it
    are never taken; with two, the other worker takes them. *)
Lemma rejection_ends_its_worker :
  let finish := fun (it : nat) (_ : nat) (n : nat) =>
                  (n + it, negb (Nat.eqb it 10)) in
  let one := withPool_r [10; 20; 30] (fun _ _ n => n) finish (fun _ => 0)
                        (NFin (inject_Z 1)) 0 in
  let two := withPool_r [10; 20; 30] (fun _ _ n => n) finish (fun _ => 0)
                        (NFin (inject_Z 2)) 0 in
  started one.1 = [0] /\ one.2 = [0] /\ pool_st one.1 = 10
  /\ started two.1 = [0; 1; 2] /\ two.2 = [0] /\ pool_st two.1 = 60.
Proof. vm_compute. split_and!; reflexivity. Qed.

(** ** The theorems at work on the sample runs *)

(** C2 on the scenario of the specification: the names scheduled are the
    distinct strings [[b]], the prior entry [a] is kept and the record
    fetched for [b] is added. *)
Lemma published_snapshot_witness :
  outcome_of (main_dec Ability run_adds_b) = Published 1 0
  /\ exists snap,
      w_fs (final (main_dec Ability run_adds_b))
        !! newMapPath Ability run_adds_b
      = Some (Json (json_roundtrip (VObj snap)))
      /\ obj_get snap "a" = Some (VObj [("id", jnum 1)])
      /\ obj_get snap "b"
         = Some (VObj [("id", jnum 2); ("gen", VStr "generation-iii");
                       ("display", VStr "Be")])
      /\ forall k v, obj_get snap k = Some v -> k = "a" \/ k = "b".
Proof.
  assert (outcome_of (main_dec Ability run_adds_b) = Published 1 0) as Hpub
    by (vm_compute; reflexivity).
  split; [exact Hpub|].
  destruct (published_snapshot_is_prior_plus_fetched decimal_toString
              digits_toNumber Ability run_adds_b 1 0 Hpub)
    as (ld & lst & snap & Hld & Hl & _ & Hfs & _ & _ & Hobj).
  assert (ld = loaded_one_ability) as ->.
  { assert (load decimal_toString Ability run_adds_b = inr loaded_one_ability)
      as Hc by (vm_compute; reflexivity).
    congruence. }
  assert (lst = listing_doc 2 ["a"; "b"]) as -> by (cbn in Hl; congruence).
  destruct (Hobj [("a", VObj [("id", jnum 1)])] eq_refl)
    as (m & -> & _ & Hinv & _ & Hexact).
  assert (missing_of (listing_doc 2 ["a"; "b"]) (knownKeys loaded_one_ability)
          = [VStr "b"]) as Hm by (vm_compute; reflexivity).
  rewrite Hm in Hinv, Hexact.
  destruct Hexact as (Hprior & Hnew & _).
  { repeat constructor. exists "b". split; [reflexivity|discriminate]. }
  { repeat constructor. intros H. inversion H. }
  exists m. split_and!.
  - exact Hfs.
  - apply Hprior. reflexivity.
  - apply (Hnew 0); [vm_compute; lia | vm_compute; reflexivity].
  - intros k v Hk. destruct (Hinv k v Hk) as [Hp|(idx & Hidx & Hf)].
    + left. cbn [obj_get] in Hp.
      destruct (String.eqb "a" k) eqn:E; [|discriminate Hp].
      symmetry. apply String.eqb_eq. exact E.
    + right. assert (idx = 0) as ->.
      { clear -Hidx. revert Hidx. vm_compute. lia. }
      clear -Hf. revert Hf. vm_compute. intros [= <- _]. reflexivity.
Defined.


(** C4 on the same run: one known key, count 2, so the run goes on. *)
Lemma count_check_rule_witness :
  load decimal_toString Ability run_adds_b = inr loaded_one_ability
  /\ probe run_adds_b = Some (listing_doc 2 ["a"; "b"])
  /\ outcome_of (main_dec Ability run_adds_b) <> CountNotGrown
  /\ exists rest,
      w_log (final (main_dec Ability run_adds_b))
      = EvGet (probe_url Ability) :: EvGet (listing_url Ability) :: rest.
Proof.
  assert (load decimal_toString Ability run_adds_b = inr loaded_one_ability)
    as Hld by (vm_compute; reflexivity).
  assert (probe run_adds_b = Some (listing_doc 2 ["a"; "b"])) as Hp
    by reflexivity.
  split; [exact Hld|]. split; [exact Hp|].
  exact (count_check_rule decimal_toString digits_toNumber Ability run_adds_b
           loaded_one_ability (listing_doc 2 ["a"; "b"]) Hld Hp).
Defined.


(** C6 on the scenario of the specification: the old file, of another
    date, is unlinked and gone. *)
Lemma old_snapshot_retired_witness :
  outcome_of (main_dec Ability run_adds_b) = Published 1 0
  /\ exists ld snap,
      load decimal_toString Ability run_adds_b = inr ld
      /\ (forall path,
            EvUnlink path ∈ w_log (final (main_dec Ability run_adds_b)) <->
            exists o, oldFileName ld = Some o
                      /\ o <> newFileName Ability run_adds_b
                      /\ path = join (base_dir Ability run_adds_b) o
                      /\ is_Some (files run_adds_b !! path))
      /\ (forall o, oldFileName ld = Some o ->
            w_fs (final (main_dec Ability run_adds_b))
              !! join (base_dir Ability run_adds_b) o = None
            <-> o <> newFileName Ability run_adds_b)
      /\ w_fs (final (main_dec Ability run_adds_b))
           !! newMapPath Ability run_adds_b
         = Some (Json (json_roundtrip snap)).
Proof.
  assert (outcome_of (main_dec Ability run_adds_b) = Published 1 0) as Hpub
    by (vm_compute; reflexivity).
  split; [exact Hpub|].
  destruct (old_snapshot_retired decimal_toString digits_toNumber
              Ability run_adds_b 1 0 Hpub)
    as (ld & snap & Hld & Hunl & Hgone & _ & _ & Hnew).
  exists ld, snap. split_and!; assumption.
Defined.


(** ** The further properties on sample inputs *)

(** X1 on two runs of the same day. *)
Lemma newFileName_same_iff_same_date_witness :
  calendar_date (clock run_adds_b) /\ calendar_date (clock run_pool_nan)
  /\ (newFileName Ability run_adds_b = newFileName Ability run_pool_nan
      <-> clock run_adds_b = clock run_pool_nan).
Proof.
  assert (calendar_date (clock run_adds_b)) as H1 by (vm_compute; done).
  assert (calendar_date (clock run_pool_nan)) as H2 by (vm_compute; done).
  split; [exact H1|]. split; [exact H2|].
  exact (newFileName_same_iff_same_date Ability run_adds_b run_pool_nan H1 H2).
Defined.

(** X3 on the url of the sample manifest. *)
Lemma last_segment_round_trip_witness :
  "ability_map.2026-02-21.json" <> ""
  /\ lacks "/" "ability_map.2026-02-21.json" = true
  /\ last_segment ("/abilities" +:+ "/" +:+ "ability_map.2026-02-21.json")
     = Some "ability_map.2026-02-21.json"
  /\ last_segment
       ("/abilities" +:+ "/" +:+ "ability_map.2026-02-21.json" +:+ "/")
     = Some "ability_map.2026-02-21.json".
Proof.
  assert ("ability_map.2026-02-21.json" <> "") as H1 by discriminate.
  assert (lacks "/" "ability_map.2026-02-21.json" = true) as H2
    by reflexivity.
  split; [exact H1|]. split; [exact H2|].
  exact (last_segment_round_trip "/abilities" "ability_map.2026-02-21.json"
           H1 H2).
Defined.

(** X7 on the run that adds [b]. *)
Lemma publishing_run_frame_witness :
  load decimal_toString Ability run_adds_b = inr loaded_one_ability
  /\ outcome_of (main_dec Ability run_adds_b) = Published 1 0
  /\ (forall path,
        path <> newMapPath Ability run_adds_b ->
        path <> manifestPath Ability run_adds_b ->
        oldMapPath loaded_one_ability <> Some path ->
        w_fs (final (main_dec Ability run_adds_b)) !! path
        = files run_adds_b !! path)
  /\ is_Some (w_fs (final (main_dec Ability run_adds_b))
                !! newMapPath Ability run_adds_b)
  /\ dom (w_fs (final (main_dec Ability run_adds_b)))
     ⊆ dom (files run_adds_b) ∪ {[newMapPath Ability run_adds_b]}.
Proof.
  assert (load decimal_toString Ability run_adds_b = inr loaded_one_ability)
    as Hld by (vm_compute; reflexivity).
  assert (outcome_of (main_dec Ability run_adds_b) = Published 1 0) as Hpub
    by (vm_compute; reflexivity).
  split; [exact Hld|]. split; [exact Hpub|].
  exact (publishing_run_frame decimal_toString digits_toNumber Ability
           run_adds_b loaded_one_ability 1 0 Hld Hpub).
Defined.

(** X8 on the same run. *)
Lemma manifest_update_keeps_other_fields_witness :
  files run_adds_b !! manifestPath Ability run_adds_b
  = Some (Json (manifest loaded_one_ability))
  /\ outcome_of (main_dec Ability run_adds_b) = Published 1 0
  /\ exists m : object,
      EvWrite (manifestPath Ability run_adds_b) (VObj m)
        ∈ w_log (final (main_dec Ability run_adds_b))
      /\ obj_get m "version" = Some (VStr (todayISO (clock run_adds_b)))
      /\ obj_get m (url_field Ability)
         = Some (VStr (new_url Ability run_adds_b))
      /\ forall k, k <> "version" -> k <> url_field Ability ->
           obj_get m k = obj_get (props_of (manifest loaded_one_ability)) k.
Proof.
  assert (files run_adds_b !! manifestPath Ability run_adds_b
          = Some (Json (manifest loaded_one_ability))) as Hm
    by (vm_compute; reflexivity).
  assert (outcome_of (main_dec Ability run_adds_b) = Published 1 0) as Hpub
    by (vm_compute; reflexivity).
  split; [exact Hm|]. split; [exact Hpub|].
  destruct (manifest_update_keeps_other_fields decimal_toString
              digits_toNumber Ability run_adds_b _ 1 0 Hm Hpub)
    as (man & Hin & m & -> & Hrest).
  exists m. split; [exact Hin|exact Hrest].
Defined.


(** X10 on the same run and the run that follows it. *)
Lemma next_run_loads_published_witness :
  load decimal_toString Ability run_adds_b = inr loaded_one_ability
  /\ manifest loaded_one_ability
     = VObj (props_of (manifest loaded_one_ability))
  /\ prior loaded_one_ability = VObj (props_of (prior loaded_one_ability))
  /\ outcome_of (main_dec Ability run_adds_b) = Published 1 0
  /\ oldFileName loaded_one_ability <> Some "manifest.json"
  /\ cwd run_again = cwd run_adds_b
  /\ files run_again = w_fs (final (main_dec Ability run_adds_b))
  /\ exists (snap : object) (ld' : loaded),
      EvWrite (newMapPath Ability run_adds_b) (VObj snap)
        ∈ w_log (final (main_dec Ability run_adds_b))
      /\ load decimal_toString Ability run_again = inr ld'
      /\ oldFileName ld' = Some (newFileName Ability run_adds_b)
      /\ oldMapPath ld' = Some (newMapPath Ability run_adds_b)
      /\ files run_again !! newMapPath Ability run_adds_b
         = Some (Json (prior ld'))
      /\ prior ld' = VObj (stored_props snap)
      /\ (forall k v, obj_get snap k = Some v -> v <> VUndef ->
            k ∈ knownKeys ld'
            /\ obj_get (props_of (prior ld')) k = Some (json_roundtrip v))
      /\ (forall k, k ∈ knownKeys ld' -> is_Some (obj_get snap k)).
Proof.
  assert (load decimal_toString Ability run_adds_b = inr loaded_one_ability)
    as Hld by (vm_compute; reflexivity).
  assert (manifest loaded_one_ability
          = VObj (props_of (manifest loaded_one_ability))) as Hobj
    by reflexivity.
  assert (prior loaded_one_ability
          = VObj (props_of (prior loaded_one_ability))) as Hm0
    by reflexivity.
  assert (outcome_of (main_dec Ability run_adds_b) = Published 1 0) as Hpub
    by (vm_compute; reflexivity).
  assert (oldFileName loaded_one_ability <> Some "manifest.json") as Hold
    by discriminate.
  assert (cwd run_again = cwd run_adds_b) as Hcwd by reflexivity.
  assert (files run_again = w_fs (final (main_dec Ability run_adds_b)))
    as Hfiles by (vm_compute; reflexivity).
  split; [exact Hld|]. split; [exact Hobj|]. split; [exact Hm0|].
  split; [exact Hpub|]. split; [exact Hold|].
  split; [exact Hcwd|]. split; [exact Hfiles|].
  exact (next_run_loads_published decimal_toString digits_toNumber Ability
           run_adds_b run_again loaded_one_ability _ _ 1 0
           Hld Hobj Hm0 Hpub Hold Hcwd Hfiles).
Defined.

(** X11 on a manifest whose url names the manifest. *)
Lemma manifest_named_as_snapshot_is_removed_witness :
  load decimal_toString Ability run_url_names_manifest
  = inr loaded_url_names_manifest
  /\ oldFileName loaded_url_names_manifest = Some "manifest.json"
  /\ outcome_of (main_dec Ability run_url_names_manifest) = Published 1 0
  /\ last (w_log (final (main_dec Ability run_url_names_manifest)))
     = Some (EvUnlink (manifestPath Ability run_url_names_manifest))
  /\ w_fs (final (main_dec Ability run_url_names_manifest))
       !! manifestPath Ability run_url_names_manifest = None
  /\ forall e',
      cwd e' = cwd run_url_names_manifest ->
      files e' = w_fs (final (main_dec Ability run_url_names_manifest)) ->
      main_dec Ability e' = Result (Threw NoManifest) (start_world e').
Proof.
  assert (load decimal_toString Ability run_url_names_manifest
          = inr loaded_url_names_manifest) as Hld
    by (vm_compute; reflexivity).
  assert (oldFileName loaded_url_names_manifest = Some "manifest.json")
    as Hold by reflexivity.
  assert (outcome_of (main_dec Ability run_url_names_manifest)
          = Published 1 0) as Hpub by (vm_compute; reflexivity).
  split; [exact Hld|]. split; [exact Hold|]. split; [exact Hpub|].
  exact (manifest_named_as_snapshot_is_removed decimal_toString
           digits_toNumber Ability run_url_names_manifest
           loaded_url_names_manifest 1 0 Hld Hold Hpub).
Defined.

(** X12 on the run that adds [b] and the run that follows it. *)
Lemma rerun_after_full_success_changes_nothing_witness :
  load decimal_toString Ability run_adds_b = inr loaded_one_ability
  /\ manifest loaded_one_ability
     = VObj (props_of (manifest loaded_one_ability))
  /\ prior loaded_one_ability = VObj (props_of (prior loaded_one_ability))
  /\ listing run_adds_b = Some (listing_doc 2 ["a"; "b"])
  /\ outcome_of (main_dec Ability run_adds_b)
     = Published (length (missing_of (listing_doc 2 ["a"; "b"])
                            (knownKeys loaded_one_ability))) 0
  /\ Forall (fun name => exists n, name = VStr n /\ n <> "__proto__")
            (missing_of (listing_doc 2 ["a"; "b"])
               (knownKeys loaded_one_ability))
  /\ (forall k, obj_get (props_of (prior loaded_one_ability)) k
                <> Some VUndef)
  /\ oldFileName loaded_one_ability <> Some "manifest.json"
  /\ cwd run_again = cwd run_adds_b
  /\ files run_again = w_fs (final (main_dec Ability run_adds_b))
  /\ listing run_again = Some (listing_doc 2 ["a"; "b"])
  /\ (outcome_of (main_dec Ability run_again) = CountNotGrown
      \/ outcome_of (main_dec Ability run_again) = NothingMissing
      \/ outcome_of (main_dec Ability run_again)
         = Threw (HttpError (probe_url Ability)))
  /\ w_fs (final (main_dec Ability run_again)) = files run_again.
Proof.
  assert (load decimal_toString Ability run_adds_b = inr loaded_one_ability)
    as Hld by (vm_compute; reflexivity).
  assert (manifest loaded_one_ability
          = VObj (props_of (manifest loaded_one_ability))) as Hobj
    by reflexivity.
  assert (prior loaded_one_ability
          = VObj (props_of (prior loaded_one_ability))) as Hm0
    by reflexivity.
  assert (listing run_adds_b = Some (listing_doc 2 ["a"; "b"])) as Hl
    by reflexivity.
  assert (missing_of (listing_doc 2 ["a"; "b"]) (knownKeys loaded_one_ability)
          = [VStr "b"]) as Hmiss by (vm_compute; reflexivity).
  assert (outcome_of (main_dec Ability run_adds_b)
          = Published (length (missing_of (listing_doc 2 ["a"; "b"])
                                 (knownKeys loaded_one_ability))) 0) as Hpub
    by (vm_compute; reflexivity).
  assert (Forall (fun name => exists n, name = VStr n /\ n <> "__proto__")
            (missing_of (listing_doc 2 ["a"; "b"])
               (knownKeys loaded_one_ability))) as Hstr.
  { rewrite Hmiss. repeat constructor. exists "b".
    split; [reflexivity|discriminate]. }
  assert (forall k, obj_get (props_of (prior loaded_one_ability)) k
                    <> Some VUndef)
    as Hclean.
  { intros k. cbn [prior loaded_one_ability obj_get props_of].
    destruct (String.eqb "a" k); discriminate. }
  assert (oldFileName loaded_one_ability <> Some "manifest.json") as Hold
    by discriminate.
  assert (cwd run_again = cwd run_adds_b) as Hcwd by reflexivity.
  assert (files run_again = w_fs (final (main_dec Ability run_adds_b)))
    as Hfiles by (vm_compute; reflexivity).
  assert (listing run_again = Some (listing_doc 2 ["a"; "b"])) as Hl'
    by reflexivity.
  split; [exact Hld|]. split; [exact Hobj|]. split; [exact Hm0|].
  split; [exact Hl|]. split; [exact Hpub|].
  split; [exact Hstr|]. split; [exact Hclean|]. split; [exact Hold|].
  split; [exact Hcwd|]. split; [exact Hfiles|]. split; [exact Hl'|].
  exact (rerun_after_full_success_changes_nothing decimal_toString
           digits_toNumber Ability run_adds_b run_again loaded_one_ability
           _ _ (listing_doc 2 ["a"; "b"]) 0
           Hld Hobj Hm0 Hl Hpub Hstr Hclean Hold Hcwd Hfiles Hl').
Defined.

(** X13 on the run whose detail requests fail and the run that follows
    it. *)
Lemma unfetched_name_is_missing_again_witness :
  load decimal_toString Ability run_fetch_fails = inr loaded_one_ability
  /\ manifest loaded_one_ability
     = VObj (props_of (manifest loaded_one_ability))
  /\ prior loaded_one_ability = VObj (props_of (prior loaded_one_ability))
  /\ listing run_fetch_fails = Some (listing_doc 2 ["a"; "b"])
  /\ outcome_of (main_dec Ability run_fetch_fails) = Published 0 1
  /\ VStr "b" ∈ missing_of (listing_doc 2 ["a"; "b"])
                  (knownKeys loaded_one_ability)
  /\ (forall idx v,
        fetched decimal_toString Ability run_fetch_fails
          (missing_of (listing_doc 2 ["a"; "b"])
             (knownKeys loaded_one_ability)) idx
        <> Some ("b", v))
  /\ oldFileName loaded_one_ability <> Some "manifest.json"
  /\ cwd run_retry = cwd run_fetch_fails
  /\ files run_retry = w_fs (final (main_dec Ability run_fetch_fails))
  /\ exists ld',
      load decimal_toString Ability run_retry = inr ld'
      /\ VStr "b" ∈ missing_of (listing_doc 2 ["a"; "b"]) (knownKeys ld').
Proof.
  assert (load decimal_toString Ability run_fetch_fails
          = inr loaded_one_ability) as Hld by (vm_compute; reflexivity).
  assert (manifest loaded_one_ability
          = VObj (props_of (manifest loaded_one_ability))) as Hobj
    by reflexivity.
  assert (prior loaded_one_ability
          = VObj (props_of (prior loaded_one_ability))) as Hm0
    by reflexivity.
  assert (listing run_fetch_fails = Some (listing_doc 2 ["a"; "b"])) as Hl
    by reflexivity.
  assert (outcome_of (main_dec Ability run_fetch_fails) = Published 0 1)
    as Hpub by (vm_compute; reflexivity).
  assert (missing_of (listing_doc 2 ["a"; "b"]) (knownKeys loaded_one_ability)
          = [VStr "b"]) as Hmiss by (vm_compute; reflexivity).
  assert (VStr "b" ∈ missing_of (listing_doc 2 ["a"; "b"])
                       (knownKeys loaded_one_ability)) as Hin.
  { rewrite Hmiss. left. }
  assert (forall idx v,
            fetched decimal_toString Ability run_fetch_fails
              (missing_of (listing_doc 2 ["a"; "b"])
                 (knownKeys loaded_one_ability)) idx
            <> Some ("b", v)) as Hnone.
  { intros idx v. unfold fetched.
    destruct (_ !! idx); [|discriminate].
    cbn [detail run_fetch_fails]. discriminate. }
  assert (oldFileName loaded_one_ability <> Some "manifest.json") as Hold
    by discriminate.
  assert (cwd run_retry = cwd run_fetch_fails) as Hcwd by reflexivity.
  assert (files run_retry = w_fs (final (main_dec Ability run_fetch_fails)))
    as Hfiles by (vm_compute; reflexivity).
  split; [exact Hld|]. split; [exact Hobj|]. split; [exact Hm0|].
  split; [exact Hl|]. split; [exact Hpub|].
  split; [exact Hin|]. split; [exact Hnone|]. split; [exact Hold|].
  split; [exact Hcwd|]. split; [exact Hfiles|].
  exact (unfetched_name_is_missing_again decimal_toString digits_toNumber
           Ability run_fetch_fails run_retry loaded_one_ability _ _
           (listing_doc 2 ["a"; "b"]) 0 1 "b"
           Hld Hobj Hm0 Hl Hpub Hin Hnone Hold Hcwd Hfiles).
Defined.

(** X15 on a pool of one worker over three items. *)
Lemma pool_completes_in_order_witness :
  (pool_width [10; 20; 30] (NFin (inject_Z 1)) <= 1
   \/ (forall t, (fun t => 2 * t) t = 0))
  /\ (forall fuel,
        let ps := pool_after [10; 20; 30] (fun it _ acc => acc)
                    (fun it _ acc => acc ++ [it]) (fun t => 2 * t) fuel
                    (NFin (inject_Z 1)) [] in
        settled ps ++ (flight ps).*2 = started ps)
  /\ settled (withPool [10; 20; 30] (fun it _ acc => acc)
                (fun it _ acc => acc ++ [it]) (fun t => 2 * t)
                (NFin (inject_Z 1)) [])
     = started (withPool [10; 20; 30] (fun it _ acc => acc)
                  (fun it _ acc => acc ++ [it]) (fun t => 2 * t)
                  (NFin (inject_Z 1)) []).
Proof.
  assert (pool_width [10; 20; 30] (NFin (inject_Z 1)) <= 1
          \/ (forall t, (fun t => 2 * t) t = 0)) as H
    by (left; vm_compute; lia).
  split; [exact H|].
  exact (pool_completes_in_order [10; 20; 30] (fun it _ acc => acc)
           (fun it _ acc => acc ++ [it]) (fun t => 2 * t)
           (NFin (inject_Z 1)) [] H).
Defined.


(** X17 on a pool of size 2 over three items. *)
Lemma pool_width_of_size_witness :
  (0 <= 2 < 2 ^ 53)%Z
  /\ pool_width [10; 20; 30] (NFin (inject_Z 2)) = Nat.min (Z.to_nat 2) 3
  /\ (pool_var run_adds_b = None \/ pool_var run_adds_b = Some "" ->
      POOL digits_toNumber run_adds_b = NFin (inject_Z 5)
      /\ pool_width [10; 20; 30] (POOL digits_toNumber run_adds_b)
         = Nat.min 5 3).
Proof.
  assert (0 <= 2 < 2 ^ 53)%Z as H by lia.
  split; [exact H|].
  exact (pool_width_of_size digits_toNumber [10; 20; 30] run_adds_b 2 H).
Defined.

(** X19 on the run that adds [b]. *)
Lemma snapshot_keeps_key_order_witness :
  load decimal_toString Ability run_adds_b = inr loaded_one_ability
  /\ prior loaded_one_ability = VObj (props_of (prior loaded_one_ability))
  /\ listing run_adds_b = Some (listing_doc 2 ["a"; "b"])
  /\ outcome_of (main_dec Ability run_adds_b) = Published 1 0
  /\ exists (snap : object) (new : list string),
      EvWrite (newMapPath Ability run_adds_b) (VObj snap)
        ∈ w_log (final (main_dec Ability run_adds_b))
      /\ obj_keys (props_of (prior loaded_one_ability))
           `sublist_of` obj_keys snap
      /\ obj_keys snap ≡ₚ obj_keys (props_of (prior loaded_one_ability)) ++ new
      /\ NoDup new.
Proof.
  assert (load decimal_toString Ability run_adds_b = inr loaded_one_ability)
    as Hld by (vm_compute; reflexivity).
  assert (prior loaded_one_ability
          = VObj (props_of (prior loaded_one_ability))) as Hm0
    by reflexivity.
  assert (listing run_adds_b = Some (listing_doc 2 ["a"; "b"])) as Hl
    by reflexivity.
  assert (outcome_of (main_dec Ability run_adds_b) = Published 1 0) as Hpub
    by (vm_compute; reflexivity).
  split; [exact Hld|]. split; [exact Hm0|]. split; [exact Hl|].
  split; [exact Hpub|].
  destruct (snapshot_keeps_key_order decimal_toString digits_toNumber Ability
              run_adds_b loaded_one_ability _ (listing_doc 2 ["a"; "b"]) 1 0
              Hld Hm0 Hl Hpub)
    as (snap & new & H1 & H2 & H3 & H4 & _).
  exists snap, new. split_and!; assumption.
Defined.

(** X21 on the old snapshot file of the sample run. *)
Lemma safeUnlink_removes_only_its_path_witness :
  "/repo/public/abilities/ability_map.2026-02-21.json" <> ""
  /\ w_fs (safeUnlink
             (Some "/repo/public/abilities/ability_map.2026-02-21.json")
             (start_world run_adds_b))
     = delete "/repo/public/abilities/ability_map.2026-02-21.json"
         (files run_adds_b).
Proof.
  assert ("/repo/public/abilities/ability_map.2026-02-21.json" <> "") as H
    by discriminate.
  split; [exact H|].
  exact (proj1 (safeUnlink_removes_only_its_path
                  "/repo/public/abilities/ability_map.2026-02-21.json"
                  (start_world run_adds_b) H)).
Defined.
